(** * LocalVectorDB: a term-frequency index with cosine ranking

    Shallow embedding of [src/nanobot/agent/vectordb.py] (class
    [LocalVectorDB]) and the properties of its tokenizer, document store
    and similarity ranker.

    Conventions of the embedding:
    - a Python [str] is a [string]; each character is read as the code
      point of the same number (the Latin-1 range U+0000..U+00FF);
    - a Python [int] is a [Z];
    - a Python [float] is an IEEE-754 binary64 value, [spec_float] with
      precision 53 and exponent bound 1024, rounded to nearest-even;
    - a [dict] from terms to counts is a [gmap string Z];
    - an exception is a value [Raise e] of the type [result]. *)

From Stdlib Require Import ZArith NArith Ascii String List Lia Bool.
From Stdlib Require Import SpecFloat DecimalString DecimalPos DecimalZ Permutation.
From stdpp Require Import gmap strings list fin_maps fin_sets sorting.

Local Open Scope Z_scope.

#[local] Set Warnings "-clear-no-such-hyp".

(** ** Exceptions *)

Inductive exn : Type :=
| OverflowError
| ZeroDivisionError
| ValueError.

Inductive result (A : Type) : Type :=
| Ok (a : A)
| Raise (e : exn).

Arguments Ok {A} a.
Arguments Raise {A} e.

#[global] Instance result_ret : MRet result := fun A a => Ok a.
#[global] Instance result_bind : MBind result :=
  fun A B f m => match m with Ok a => f a | Raise e => Raise e end.
#[global] Instance result_fmap : FMap result :=
  fun A B f m => match m with Ok a => Ok (f a) | Raise e => Raise e end.

(** [[f(x) for x in l]] where [f] may raise: the first exception wins. *)
Fixpoint map_result {A B : Type} (f : A -> result B) (l : list A) : result (list B) :=
  match l with
  | [] => Ok []
  | x :: l' =>
      match f x with
      | Raise e => Raise e
      | Ok y => match map_result f l' with
                | Raise e => Raise e
                | Ok ys => Ok (y :: ys)
                end
      end
  end.

(** ** Python floats *)

Module PyFloat.

Definition prec : Z := 53.
Definition emax : Z := 1024.

Abbreviation float := spec_float.

Definition zero : float := S754_zero false.

(** The literal [0.05], i.e. [0x1.999999999999ap-5]. *)
Definition lit_0_05 : float := S754_finite false 7205759403792794 (-57).

(** [float(n)] for an [int]: correctly rounded, [OverflowError] when the
    rounded value is not finite. *)
Definition of_int (n : Z) : result float :=
  match binary_normalize prec emax n 0 false with
  | S754_infinity _ => Raise OverflowError
  | x => Ok x
  end.

(** [math.sqrt(n)] for an [int] argument. *)
Definition math_sqrt (n : Z) : result float :=
  x ← of_int n;
  match SFsqrt prec emax x with
  | S754_nan => Raise ValueError
  | r => Ok r
  end.

(** [x * y] on floats: overflow gives an infinity, no exception. *)
Definition mul (x y : float) : float := SFmul prec emax x y.

(** Truth value of a float: [not x] holds for [0.0] and [-0.0] only. *)
Definition is_zero (x : float) : bool :=
  match x with S754_zero _ => true | _ => false end.

(** [n / y] for an [int] [n] and a float [y]. *)
Definition int_truediv (n : Z) (y : float) : result float :=
  x ← of_int n;
  if is_zero y then Raise ZeroDivisionError
  else Ok (SFdiv prec emax x y).

(** [x < y], [x > y], [x <= y] and [x == y] on floats. *)
Definition ltb (x y : float) : bool := SFltb x y.
Definition gtb (x y : float) : bool := SFltb y x.
Definition leb (x y : float) : bool := SFleb x y.
Definition eqb (x y : float) : bool := SFeqb x y.

Definition is_nan (x : float) : bool :=
  match x with S754_nan => true | _ => false end.

End PyFloat.

(** ** Python strings *)

Module PyStr.

Definition ord (c : ascii) : N := N_of_ascii c.

Definition in_range (lo hi : N) (c : ascii) : bool :=
  ((lo <=? ord c) && (ord c <=? hi))%N.

(** [c.isspace()]. *)
Definition isspace (c : ascii) : bool :=
  in_range 9 13 c || in_range 28 32 c || in_range 133 133 c
  || in_range 160 160 c.

Fixpoint lstrip (s : string) : string :=
  match s with
  | String c s' => if isspace c then lstrip s' else s
  | EmptyString => EmptyString
  end.

Definition rstrip (s : string) : string :=
  String.rev (lstrip (String.rev s)).

(** [s.strip()]. *)
Definition strip (s : string) : string := rstrip (lstrip s).

(** One character of [s.lower()]. *)
Definition lower_char (c : ascii) : ascii :=
  if in_range 65 90 c || in_range 192 214 c || in_range 216 222 c
  then ascii_of_N (ord c + 32)
  else c.

(** [s.lower()]. *)
Fixpoint lower (s : string) : string :=
  match s with
  | EmptyString => EmptyString
  | String c s' => String (lower_char c) (lower s')
  end.

(** The class [\w] of the [re] module on [str] patterns: alphanumeric
    characters and the underscore. *)
Definition is_word (c : ascii) : bool :=
  in_range 48 57 c || in_range 65 90 c || in_range 95 95 c
  || in_range 97 122 c
  || in_range 170 170 c || in_range 178 179 c || in_range 181 181 c
  || in_range 185 186 c || in_range 188 190 c
  || in_range 192 214 c || in_range 216 246 c || in_range 248 255 c.

Definition flush (cur : string) : list string :=
  match cur with
  | EmptyString => []
  | _ => [String.rev cur]
  end.

(** Left-to-right scan; [cur] is the current run, most recent character
    first. *)
Fixpoint findall_word_go (cur : string) (s : string) : list string :=
  match s with
  | EmptyString => flush cur
  | String c s' =>
      if is_word c then findall_word_go (String c cur) s'
      else flush cur ++ findall_word_go EmptyString s'
  end.

(** [re.findall(r'\w+', s)]. *)
Definition findall_word (s : string) : list string :=
  findall_word_go EmptyString s.

(** [s.split(sep)] for a one-character separator: never empty. *)
Fixpoint split_go (sep : ascii) (cur : string) (s : string) : list string :=
  match s with
  | EmptyString => [String.rev cur]
  | String c s' =>
      if Ascii.eqb c sep then String.rev cur :: split_go sep EmptyString s'
      else split_go sep (String c cur) s'
  end.

Definition split (sep : ascii) (s : string) : list string :=
  split_go sep EmptyString s.

(** [l[-1]] on a list of strings ([IndexError] cannot occur on the
    result of [split]; the default is never used there). *)
Definition last_item (l : list string) : string := List.last l EmptyString.

(** Whitespace accepted around the digits by [int(s)]. *)
Definition int_space (c : ascii) : bool :=
  in_range 9 13 c || in_range 32 32 c || in_range 133 133 c
  || in_range 160 160 c.

Fixpoint int_lstrip (s : string) : string :=
  match s with
  | String c s' => if int_space c then int_lstrip s' else s
  | EmptyString => EmptyString
  end.

Definition int_strip (s : string) : string :=
  String.rev (int_lstrip (String.rev (int_lstrip s))).

Definition digits (s : string) : result Z :=
  match NilZero.uint_of_string s with
  | Some d => Ok (Z.of_uint d)
  | None => Raise ValueError
  end.

(** The interpreter's limit on the number of digits of a conversion
    from [str] to [int], [sys.get_int_max_str_digits()]. *)
Definition max_str_digits : Z := 4300.

(** The digits of [int(s)], once the whitespace and the sign are off:
    more than [max_str_digits] characters are refused, like anything that
    is not a digit. *)
Definition limited_digits (ds : string) : result Z :=
  if max_str_digits <? Z.of_nat (String.length ds) then Raise ValueError
  else digits ds.

(** [int(s)] on a string without underscores: optional surrounding
    whitespace, an optional sign, one or more decimal digits, at most
    [max_str_digits] of them. *)
Definition int (s : string) : result Z :=
  match int_strip s with
  | String "+" ds => limited_digits ds
  | String "-" ds => Z.opp <$> limited_digits ds
  | ds => limited_digits ds
  end.

(** [str(n)] / [f"{n}"] for an [int] of at most [max_str_digits]
    digits; the interpreter refuses to print a longer one. *)
Definition of_int (n : Z) : string := NilZero.string_of_int (Z.to_int n).

End PyStr.

(** ** Python lists *)

Module PyList.

(** [sum(l)] over [int]s. *)
Definition sum (l : list Z) : Z := foldl Z.add 0 l.

(** [l[:k]]: a negative [k] counts from the end. *)
Definition slice_to {A : Type} (k : Z) (l : list A) : list A :=
  if k <? 0 then take (Z.to_nat (Z.of_nat (length l) + k)) l
  else take (Z.to_nat k) l.

Section Sort.
Context {K A : Type} (lt : K -> K -> bool).

(** [list.sort] is a stable sort that compares keys with [<] only.  It
    is embedded as a stable insertion sort, which returns the same list
    as any other stable sort whenever [<] is a strict weak order on the
    keys at hand (the integers; the floats other than NaN).  Elements
    travel with their keys, which are computed once.  An element moves
    past another one only when its key is strictly smaller, so equal
    keys keep their order. *)
Fixpoint insert (x : K * A) (l : list (K * A)) : list (K * A) :=
  match l with
  | [] => [x]
  | y :: l' => if lt (fst y) (fst x) then y :: insert x l' else x :: y :: l'
  end.

Definition sort_keyed (l : list (K * A)) : list (K * A) :=
  foldr insert [] l.

(** With [reverse=True] the list is reversed, sorted, and reversed
    again, which keeps equal keys in their original order. *)
Definition sort_decorated (reverse : bool) (l : list (K * A)) : list (K * A) :=
  if reverse then list.reverse (sort_keyed (list.reverse l)) else sort_keyed l.

(** [l.sort(key=key, reverse=reverse)]. *)
Definition sort (key : A -> K) (reverse : bool) (l : list A) : list A :=
  snd <$> sort_decorated reverse ((fun a => (key a, a)) <$> l).

(** The same when computing a key may raise: all keys are computed
    first, in list order. *)
Definition sort_result (key : A -> result K) (reverse : bool) (l : list A)
  : result (list A) :=
  keyed ← map_result (fun a => k ← key a; Ok (k, a)) l;
  Ok (snd <$> sort_decorated reverse keyed).
End Sort.

End PyList.

(** ** The store *)

Module VectorDB.
Import PyFloat.

(** A stored document: the dict with keys ["id"], ["session"], ["role"],
    ["content"] and ["vector"]. *)
Record Document : Type := {
  doc_id : string;
  doc_session : string;
  doc_role : string;
  doc_content : string;
  doc_vector : gmap string Z
}.

(** A value found under a key of the message dict: a [str], or anything
    else, of which only the truth value matters. *)
Inductive pyval : Type :=
| PStr (s : string)
| POther (truthy : bool).

(** The message dict passed to [add_message]: the keys ["content"] and
    ["role"], each of which may be absent. *)
Record Message : Type := {
  msg_content : option pyval;
  msg_role : option string
}.

(** What [index.json] holds: nothing (no file), the JSON text of a
    document list, or something that cannot be opened or parsed. *)
Inductive file : Type :=
| Absent
| Unreadable
| Stored (docs : list Document).

(** What the environment does with one attempt to write the file:
    the write succeeds, or an exception is raised and the file is left
    as [remains]. *)
Inductive write_outcome : Type :=
| Written
| Failed (remains : file).

Record LocalVectorDB : Type := {
  documents : list Document;
  index_file : file
}.

(** A record of the list returned by [search_messages]. *)
Record Retrieved : Type := {
  role : string;
  content : string;
  is_from_vector : bool
}.

Definition _load_index (self : LocalVectorDB) : LocalVectorDB :=
  match index_file self with
  | Absent => self
  | Unreadable => {| documents := []; index_file := index_file self |}
  | Stored docs => {| documents := docs; index_file := index_file self |}
  end.

(** [LocalVectorDB(workspace)], for a workspace whose index file is [f]. *)
Definition __init__ (f : file) : LocalVectorDB :=
  _load_index {| documents := []; index_file := f |}.

Definition _save_index (io : write_outcome) (self : LocalVectorDB) : LocalVectorDB :=
  match io with
  | Written =>
      {| documents := documents self; index_file := Stored (documents self) |}
  | Failed remains =>
      {| documents := documents self; index_file := remains |}
  end.

Definition count_word (freq : gmap string Z) (w : string) : gmap string Z :=
  if (2 <? String.length w)%nat
  then <[w := default 0 (freq !! w) + 1]> freq
  else freq.

Definition _tokenize (text : string) : gmap string Z :=
  let words := PyStr.findall_word (PyStr.lower text) in
  foldl count_word ∅ words.

(** The value of [dot_product]: the sum over the common terms. *)
Definition dot_product (vec1 vec2 : gmap string Z) : Z :=
  let intersection : gset string := dom vec1 ∩ dom vec2 in
  PyList.sum ((fun w => (vec1 !!! w) * (vec2 !!! w)) <$> elements intersection).

(** [sum(v**2 for v in vec.values())]. *)
Definition sum_squares (vec : gmap string Z) : Z :=
  PyList.sum ((fun kv => kv.2 ^ 2) <$> map_to_list vec).

Definition _cosine_similarity (vec1 vec2 : gmap string Z) : result float :=
  let dot_product := dot_product vec1 vec2 in
  mag1 ← math_sqrt (sum_squares vec1);
  mag2 ← math_sqrt (sum_squares vec2);
  if is_zero mag1 || is_zero mag2 then Ok zero
  else int_truediv dot_product (mul mag1 mag2).

Definition make_id (session_key : string) (msg_idx : Z) : string :=
  session_key +:+ "_" +:+ PyStr.of_int msg_idx.

Definition add_message (io : write_outcome) (self : LocalVectorDB)
    (session_key : string) (msg : Message) (msg_idx : Z) : LocalVectorDB :=
  match msg_content msg with
  | None => self
  | Some (POther _) => self
  | Some (PStr s) =>
      if String.eqb s "" then self else
      let content := PyStr.strip s in
      if String.eqb content "" then self else
      let doc_id' := make_id session_key msg_idx in
      if existsb (fun d => String.eqb (doc_id d) doc_id') (documents self)
      then self else
      let vector := _tokenize content in
      if bool_decide (vector = ∅) then self else
      _save_index io
        {| documents :=
             documents self ++
             [{| doc_id := doc_id';
                 doc_session := session_key;
                 doc_role := default "user" (msg_role msg);
                 doc_content := content;
                 doc_vector := vector |}];
           index_file := index_file self |}
  end.

(** The relevance floor of the ranker. *)
Definition relevance_floor : float := lit_0_05.

(** The scoring loop over the candidates. *)
Fixpoint score_docs (query_vec : gmap string Z) (session_docs : list Document)
  : result (list (float * Document)) :=
  match session_docs with
  | [] => Ok []
  | doc :: rest =>
      score ← _cosine_similarity query_vec (doc_vector doc);
      scored ← score_docs query_vec rest;
      Ok (if gtb score relevance_floor then (score, doc) :: scored else scored)
  end.

(** [int(x[1]["id"].split("_")[-1])]. *)
Definition chrono_key (x : float * Document) : result Z :=
  PyStr.int (PyStr.last_item (PyStr.split "_" (doc_id x.2))).

Definition emit (x : float * Document) : Retrieved :=
  {| role := doc_role x.2;
     content := "[From Past Context]: " +:+ doc_content x.2;
     is_from_vector := true |}.

(** The candidates: the stored documents of the requested session. *)
Definition session_docs (self : LocalVectorDB) (session_key : string)
  : list Document :=
  filter (fun d => doc_session d = session_key) (documents self).

(** The value of [scored_docs] when the scoring loop ends. *)
Definition scored_docs (self : LocalVectorDB) (session_key : string)
    (query_vec : gmap string Z) : result (list (float * Document)) :=
  score_docs query_vec (session_docs self session_key).

(** The relevance sort, [scored_docs.sort(key=lambda x: x[0], reverse=True)]. *)
Definition by_relevance (scored : list (float * Document))
  : list (float * Document) :=
  PyList.sort ltb fst true scored.

(** The value of [top_docs] after the chronological sort. *)
Definition top_docs (self : LocalVectorDB) (session_key : string)
    (query_vec : gmap string Z) (top_k : Z) : result (list (float * Document)) :=
  scored ← scored_docs self session_key query_vec;
  let top := PyList.slice_to top_k (by_relevance scored) in
  PyList.sort_result Z.ltb chrono_key false top.

Definition search_messages (self : LocalVectorDB) (session_key query : string)
    (top_k : Z) : result (list Retrieved) :=
  if String.eqb query "" || String.eqb (PyStr.strip query) ""
     || bool_decide (documents self = [])
  then Ok []
  else
    let query_vec := _tokenize query in
    if bool_decide (query_vec = ∅) then Ok []
    else
      top ← top_docs self session_key query_vec top_k;
      Ok (List.map emit top).

(** The default value of [top_k]. *)
Definition default_top_k : Z := 4.

End VectorDB.

(** ** Vocabulary of the specification *)

Module Spec.
Import PyFloat VectorDB.

(** Every character of [s] satisfies [P]. *)
Fixpoint all_chars (P : ascii -> bool) (s : string) : bool :=
  match s with
  | EmptyString => true
  | String c s' => P c && all_chars P s'
  end.

Definition non_word (c : ascii) : bool := negb (PyStr.is_word c).

Definition differs (sep c : ascii) : bool := negb (Ascii.eqb c sep).

Definition is_digit (c : ascii) : bool := PyStr.in_range 48 57 c.

(** [toks] are the maximal runs of word characters of a text, from
    left to right: the text is a gap of separators, then a non-empty
    run of word characters that ends at the end of the text or at a
    separator, then the rest, and so on. *)
Inductive word_runs : string -> list string -> Prop :=
| runs_done (gap : string) :
    all_chars non_word gap = true -> word_runs gap []
| runs_word (gap tok rest : string) (toks : list string) :
    all_chars non_word gap = true ->
    tok <> EmptyString ->
    all_chars PyStr.is_word tok = true ->
    (rest = EmptyString
     \/ exists c rest', rest = String c rest' /\ PyStr.is_word c = false) ->
    word_runs rest toks ->
    word_runs (gap +:+ tok +:+ rest) (tok :: toks).

(** The tokens that survive the length filter. *)
Definition surviving (toks : list string) : list string :=
  filter (fun w => (2 < String.length w)%nat) toks.

(** How many times [w] occurs in [toks]. *)
Definition occurrences (w : string) (toks : list string) : Z :=
  Z.of_nat (length (filter (fun t => t = w) toks)).


(** [x] is a zero, a finite number or an infinity of sign [s]. *)
Definition has_sign (s : bool) (x : float) : Prop :=
  match x with
  | S754_zero s' | S754_infinity s' | S754_finite s' _ _ => s' = s
  | S754_nan => False
  end.

(** A rank that orders the floats other than NaN as [SFcompare] does:
    sign class first, then exponent and mantissa. *)
Definition rank (x : float) : Z * Z * Z :=
  match x with
  | S754_nan => (0, 0, 0)
  | S754_zero _ => (0, 0, 0)
  | S754_infinity s => (if s then -2 else 2, 0, 0)
  | S754_finite s m e =>
      if s then (-1, - e, - Z.pos m) else (1, e, Z.pos m)
  end.

Definition rank_lt (r1 r2 : Z * Z * Z) : Prop :=
  r1.1.1 < r2.1.1
  \/ (r1.1.1 = r2.1.1
      /\ (r1.1.2 < r2.1.2 \/ (r1.1.2 = r2.1.2 /\ r1.2 < r2.2))).

(** The number of stored documents with a given id. *)
Definition count_id (i : string) (docs : list Document) : nat :=
  length (filter (fun d => doc_id d = i) docs).

(** A message whose content is a string with at least one token of
    more than two characters once trimmed. *)
Definition indexable (msg : Message) : Prop :=
  exists s, msg_content msg = Some (PStr s)
            /\ _tokenize (PyStr.strip s) <> ∅.

(** The document that [add_message] builds. *)
Definition new_document (session_key : string) (msg : Message) (msg_idx : Z)
    (s : string) : Document :=
  {| doc_id := make_id session_key msg_idx;
     doc_session := session_key;
     doc_role := default "user" (msg_role msg);
     doc_content := PyStr.strip s;
     doc_vector := _tokenize (PyStr.strip s) |}.

(** One call of [add_message] with the outcome of its write. *)
Definition call : Type := write_outcome * string * Message * Z.

Definition run_call (self : LocalVectorDB) (c : call) : LocalVectorDB :=
  add_message c.1.1.1 self c.1.1.2 c.1.2 c.2.

(** A sequence of calls, from left to right. *)
Definition run_calls (self : LocalVectorDB) (cs : list call) : LocalVectorDB :=
  foldl run_call self cs.

(** The store and its file agree: a fresh instance would load the
    same document list. *)
Definition in_sync (self : LocalVectorDB) : Prop :=
  documents (__init__ (index_file self)) = documents self.

(** The guards of [search_messages]: the query is empty or blank, the
    store is empty, or the query has no term; the search then returns
    the empty list at once. *)
Definition no_search (self : LocalVectorDB) (query : string) : Prop :=
  query = "" \/ PyStr.strip query = "" \/ documents self = []
  \/ _tokenize query = ∅.

(** The number of decimal digits of an integer. *)
Definition digit_count (n : Z) : Z :=
  Z.of_nat (String.length (PyStr.of_int (Z.abs n))).

End Spec.

(** ** Stores used as examples *)

Module Examples.
Import VectorDB.

Definition user_msg (text : string) : Message :=
  {| msg_content := Some (PStr text); msg_role := Some "user" |}.

(** Two sessions receive the same sentence; the first one a second
    sentence as well. *)
Definition two_sessions : LocalVectorDB :=
  let db := __init__ Absent in
  let db := add_message Written db "s1" (user_msg "I like apples and oranges") 0 in
  let db := add_message Written db "s1" (user_msg "I dislike bananas") 1 in
  add_message Written db "s2" (user_msg "I like apples and oranges") 0.

(** One session, whose key holds an underscore, with two pairs of
    documents that score the same against the query ["apples"]. *)
Definition fruit_log : LocalVectorDB :=
  let db := __init__ Absent in
  let db := add_message Written db "chat_a" (user_msg "apples pears") 0 in
  let db := add_message Written db "chat_a" (user_msg "apples apples apples") 1 in
  let db := add_message Written db "chat_a" (user_msg "apples plums") 2 in
  let db := add_message Written db "chat_a" (user_msg "Apples!") 3 in
  add_message Written db "chat_a" (user_msg "cherries") 4.

(** A document whose similarity to the query ["aaa"] is 1/20. *)
Definition at_floor : LocalVectorDB :=
  add_message Written (__init__ Absent) "s1"
    (user_msg ("aaa bbb bbb bbb bbb bbb bbb bbb bbb bbb bbb bbb bbb bbb bbb "
               +:+ "bbb bbb bbb bbb bbb ccc ccc ccc ccc ccc ccc ddd eee")) 0.


(** The survivors of the query ["apples"] in [fruit_log]. *)
Definition fruit_scored : list (PyFloat.float * Document) :=
  match scored_docs fruit_log "chat_a" (_tokenize "apples") with
  | Ok scored => scored
  | Raise _ => []
  end.

(** A message that is not indexed: no token has more than two characters. *)
Definition short_msg : Message := user_msg "ok".

(** A failed write that leaves a file that cannot be read. *)
Definition disk_full : write_outcome := Failed Unreadable.

(** A store with one document whose id does not end in an integer, as a
    file written by hand can hold. *)
Definition handmade : LocalVectorDB :=
  __init__ (Stored [{| doc_id := "note"; doc_session := "s1";
                       doc_role := "user"; doc_content := "apples";
                       doc_vector := _tokenize "apples" |}]).

End Examples.

(** ** Invariants of the store *)

Module Inv.
Import PyFloat VectorDB Spec.

(** No two stored documents have the same id. *)
Definition unique_ids (docs : list Document) : Prop :=
  NoDup (doc_id <$> docs).

(** A document as [add_message] builds it: the id is made of its session
    and an index, the content is trimmed and not empty, and the vector is
    the non-empty tokenization of the content. *)
Definition well_formed (d : Document) : Prop :=
  (exists msg_idx, doc_id d = make_id (doc_session d) msg_idx)
  /\ PyStr.strip (doc_content d) = doc_content d
  /\ doc_content d <> ""
  /\ doc_vector d = _tokenize (doc_content d)
  /\ doc_vector d <> ∅.

(** An id made of the session of the document and of an index that
    [int] reads back: one of at most [PyStr.max_str_digits] digits. *)
Definition readable_id (d : Document) : Prop :=
  exists msg_idx,
    doc_id d = make_id (doc_session d) msg_idx
    /\ digit_count msg_idx <= PyStr.max_str_digits.

(** The two vectors have a term in common. *)
Definition share_term (vec1 vec2 : gmap string Z) : Prop :=
  exists w, is_Some (vec1 !! w) /\ is_Some (vec2 !! w).

End Inv.

(** * The agent core ([src/nanobot_core.py])

    The configuration files are read through what they hold: a JSON
    value, a text that is not JSON, bytes that are not text, something
    that cannot be opened, or nothing.  A function that writes a
    file receives the outcome of the write from the environment.  The
    calls a function makes to the context bus, the clock, the console and
    the thread library are recorded, in order, as the actions of the
    calling thread. *)

Module Core.

#[local] Set Warnings "-register-all".

(** A value that [json.load] returns. *)
Inductive json : Type :=
| JNull
| JBool (b : bool)
| JInt (n : Z)
| JFloat (x : spec_float)
| JStr (s : string)
| JList (l : list json)
| JObj (m : gmap string json).

(** The exceptions of the core.  [OSError] stands for the [OSError]s
    other than [FileNotFoundError]: a file that cannot be opened or
    written ([PermissionError], [IsADirectoryError], a full disk). *)
Inductive error : Type :=
| FileNotFoundError
| AttributeError
| TypeError
| KeyError
| IndexError
| OSError
| UnicodeDecodeError.

Inductive outcome (A : Type) : Type :=
| Returns (a : A)
| Throws (e : error).

Arguments Returns {A} a.
Arguments Throws {A} e.

#[global] Instance outcome_ret : MRet outcome := fun A a => Returns a.
#[global] Instance outcome_bind : MBind outcome :=
  fun A B f m => match m with Returns a => f a | Throws e => Throws e end.

(** What a configuration file holds: nothing (there is no file), a
    text that [json.load] refuses with [json.JSONDecodeError], a JSON
    value, something that [open] refuses, or bytes that the decoder of
    the text file refuses. *)
Inductive jfile : Type :=
| NoFile
| NotJson
| Json (v : json)
| Unreadable
| Undecodable.

(** What the environment does with one attempt to write a file. *)
Inductive jwrite : Type :=
| Saved
| Refused (remains : jfile).

(** ** Strings *)

(** [sub in s] on strings. *)
Fixpoint contains (sub s : string) : bool :=
  String.prefix sub s
  || match s with
     | EmptyString => false
     | String _ s' => contains sub s'
     end.

(** [s.replace(old, "")]: the occurrences of [old] are removed from left
    to right, without overlap; [skip] characters of a found occurrence
    are still to be dropped. *)
Fixpoint remove_go (old : string) (skip : nat) (s : string) : string :=
  match s with
  | EmptyString => EmptyString
  | String c s' =>
      match skip with
      | S k => remove_go old k s'
      | O => if String.prefix old s
             then remove_go old (String.length old - 1) s'
             else String c (remove_go old 0 s')
      end
  end.

Definition remove_all (old s : string) : string :=
  match old with
  | EmptyString => s
  | _ => remove_go old 0 s
  end.

(** [s.split()]: the maximal runs of characters other than whitespace. *)
Fixpoint split_ws_go (cur : string) (s : string) : list string :=
  match s with
  | EmptyString => PyStr.flush cur
  | String c s' =>
      if PyStr.isspace c then PyStr.flush cur ++ split_ws_go EmptyString s'
      else split_ws_go (String c cur) s'
  end.

Definition split_ws (s : string) : list string := split_ws_go EmptyString s.

(** [l[-1]]. *)
Definition last_word (l : list string) : outcome string :=
  match List.last (Some <$> l) None with
  | Some w => Returns w
  | None => Throws IndexError
  end.

(** [s in l] for a list of strings. *)
Definition among (s : string) (l : list string) : bool :=
  existsb (String.eqb s) l.

(** ** Operations on JSON values *)

Definition is_str (k : string) (v : json) : bool :=
  match v with
  | JStr s => String.eqb s k
  | _ => false
  end.

(** [k in v] for a string [k]. *)
Definition has_key (k : string) (v : json) : outcome bool :=
  match v with
  | JObj m => Returns (bool_decide (is_Some (m !! k)))
  | JList l => Returns (existsb (is_str k) l)
  | JStr s => Returns (contains k s)
  | _ => Throws TypeError
  end.

(** [v[k]] for a string [k]. *)
Definition getitem (v : json) (k : string) : outcome json :=
  match v with
  | JObj m => match m !! k with
              | Some x => Returns x
              | None => Throws KeyError
              end
  | _ => Throws TypeError
  end.

(** [v[k] = x] for a string [k]. *)
Definition setitem (v : json) (k : string) (x : json) : outcome json :=
  match v with
  | JObj m => Returns (JObj (<[k := x]> m))
  | _ => Throws TypeError
  end.

(** [del v[k]] for a string [k]. *)
Definition delitem (v : json) (k : string) : outcome json :=
  match v with
  | JObj m => match m !! k with
              | Some _ => Returns (JObj (delete k m))
              | None => Throws KeyError
              end
  | _ => Throws TypeError
  end.

(** ** The context bus *)

Record entry : Type := {
  time : spec_float;
  sender : string;
  message : string
}.

(** [ContextBus.publish], at the time [now] of the clock. *)
Definition publish (now : spec_float) (sender message : string)
    (messages : list entry) : list entry :=
  messages ++ [{| time := now; sender := sender; message := message |}].

Definition get_all (messages : list entry) : list entry := messages.

(** ** Actions and runs *)

Inductive action : Type :=
| Publish (sender message : string)
| Sleep (seconds : Z)
| PrintGuide
| System (command : string)
| Start (role task : string)
| Redirect (location : string).

(** The two files of the core. *)
Record world : Type := {
  config_json : jfile;
  skills_json : jfile
}.

(** What a call leaves: the files, the actions performed, and the
    exception that ended it, if any. *)
Record run : Type := {
  after : world;
  actions : list action;
  raised : option error
}.

Definition skip (w : world) : run :=
  {| after := w; actions := []; raised := None |}.

Definition act (a : action) (w : world) : run :=
  {| after := w; actions := [a]; raised := None |}.

Definition throw (e : error) (w : world) : run :=
  {| after := w; actions := []; raised := Some e |}.

(** Sequencing: what follows runs only when nothing was raised. *)
Definition andthen (first : world -> run) (next : world -> run) (w : world) : run :=
  let r := first w in
  match raised r with
  | Some _ => r
  | None =>
      let r' := next (after r) in
      {| after := after r'; actions := actions r ++ actions r';
         raised := raised r' |}
  end.

Infix ";>" := andthen (at level 62, right associativity).

Definition write_skills (io : jwrite) (v : json) (w : world) : run :=
  match io with
  | Saved => skip {| config_json := config_json w; skills_json := Json v |}
  | Refused remains =>
      throw OSError {| config_json := config_json w; skills_json := remains |}
  end.

Definition write_config (io : jwrite) (v : json) (w : world) : run :=
  match io with
  | Saved => skip {| config_json := Json v; skills_json := skills_json w |}
  | Refused remains =>
      throw OSError {| config_json := remains; skills_json := skills_json w |}
  end.

(** ** MCPClientCore *)

Definition no_servers : json := JObj (<["mcpServers" := JObj ∅]> ∅).

(** [MCPClientCore.__init__]: the file is created when there is none. *)
Definition mcp_init (io : jwrite) (w : world) : run :=
  match skills_json w with
  | NoFile => write_skills io no_servers w
  | _ => skip w
  end.

(** Of the exceptions of the read only [json.JSONDecodeError] is
    caught. *)
Definition load_servers (f : jfile) : outcome json :=
  match f with
  | NoFile => Throws FileNotFoundError
  | Unreadable => Throws OSError
  | Undecodable => Throws UnicodeDecodeError
  | NotJson => Returns (JObj ∅)
  | Json (JObj m) => Returns (default (JObj ∅) (m !! "mcpServers"))
  | Json _ => Throws AttributeError
  end.

Definition server_entry (command : string) (args : list string) : json :=
  JObj (<["command" := JStr command]> (<["args" := JList (JStr <$> args)]> ∅)).

Definition install_mcp_server (io : jwrite) (name command : string)
    (args : list string) (w : world) : run :=
  match load_servers (skills_json w) with
  | Throws e => throw e w
  | Returns servers =>
      match setitem servers name (server_entry command args) with
      | Throws e => throw e w
      | Returns servers' =>
          (write_skills io (JObj (<["mcpServers" := servers']> ∅)) ;>
           act (Publish "MCP"
                  ("Installed MCP server: " +:+ name +:+ " (" +:+ command +:+ ")")))
            w
      end
  end.

(** ** MasterAgent *)

Definition show_onboard_guide : world -> run :=
  act PrintGuide ;>
  act (Publish "MasterAgent" "Displayed onboarding guide to user.").

Definition spawn_subagent (role task : string) : world -> run :=
  act (Publish "MasterAgent"
         ("Spawning [" +:+ role +:+ "] for task: " +:+ task)) ;>
  act (Start role task).

Definition install_tool (io : jwrite) (url : string) : world -> run :=
  act (Publish "MasterAgent"
         ("Received request to install tool from " +:+ url +:+ "...")) ;>
  install_mcp_server io "new_tool" "npx" ["-y"; url] ;>
  act (Publish "MasterAgent"
         "Tool successfully installed and registered in skills.json.").

Definition self_update : world -> run :=
  act (Publish "MasterAgent" "Performing self update routine...") ;>
  act (Publish "MasterAgent" "System is up to date.").

(** [nt] tells whether [os.name] is ['nt']. *)
Definition process_user_message (nt : bool) (io : jwrite) (message : string)
  : world -> run :=
  act (Publish "MasterAgent" ("Analyzing user intent: '" +:+ message +:+ "'")) ;>
  act (Sleep 1) ;>
  let lower_msg := PyStr.lower message in
  if among (PyStr.lower message) ["help"; "ayuda"; "onboard"; "guia"]
  then show_onboard_guide
  else if among (PyStr.lower message) ["clear"; "cls"]
  then act (System (if nt then "cls" else "clear"))
  else if contains "instala" lower_msg || contains "install" lower_msg
  then
    fun w =>
      match last_word (split_ws message) with
      | Throws e => throw e w
      | Returns url_target =>
          (spawn_subagent "Investigador"
             ("Verify safely the tool at " +:+ url_target) ;>
           act (Sleep 2) ;>
           install_tool io url_target) w
      end
  else if contains "crea" lower_msg || contains "haz" lower_msg
          || contains "write" lower_msg
  then spawn_subagent "Programador" message
  else act (Publish "MasterAgent"
              "Understood. Maintaining autonomous standby and analyzing possible implicit tasks.").

(** ** The configuration forms *)

(** The parameters of a form: [parse_qs] gives each name its values, in
    the order of the form. *)
Definition params : Type := list (string * list string).

(** [name in params]. *)
Definition has_param (name : string) (ps : params) : bool :=
  existsb (fun p => String.eqb p.1 name) ps.

(** [p_val[0]]. *)
Definition first_value (values : list string) : outcome string :=
  match values with
  | v :: _ => Returns v
  | [] => Throws IndexError
  end.

Definition available_providers : list string :=
  ["deepseek"; "openrouter"; "anthropic"; "openai"; "groq"; "gemini";
   "minimax"; "aihubmix"; "siliconflow"; "volcengine"; "dashscope";
   "moonshot"; "zhipu"; "vllm"; "custom"].

Definition available_integrations : list string :=
  ["telegram"; "discord"; "whatsapp"; "feishu"; "mochat"; "dingtalk";
   "slack"; "email"; "qq"].

(** The configuration as the forms read it: an empty object when the
    file cannot be opened or parsed. *)
Definition read_config (f : jfile) : json :=
  match f with
  | Json v => v
  | _ => JObj ∅
  end.

(** [if section not in config_dict: config_dict[section] = {}]. *)
Definition ensure_section (section : string) (config_dict : json) : outcome json :=
  has_key section config_dict ≫= fun present : bool =>
  if present then Returns config_dict
  else setitem config_dict section (JObj ∅).

(** [config_dict[section][key][field_name] = value]. *)
Definition set_field (section key field_name value : string)
    (config_dict : json) : outcome json :=
  sec ← getitem config_dict section;
  item ← getitem sec key;
  item' ← setitem item field_name (JStr value);
  sec' ← setitem sec key item';
  setitem config_dict section sec'.

(** The loop over the parameters that copies the fields of one key. *)
Fixpoint copy_fields (section prefix key : string) (ps : params)
    (config_dict : json) : outcome json :=
  match ps with
  | [] => Returns config_dict
  | (p_key, p_val) :: ps' =>
      if String.prefix prefix p_key then
        let field_name := remove_all prefix p_key in
        value ← first_value p_val;
        config_dict' ← set_field section key field_name value config_dict;
        copy_fields section prefix key ps' config_dict'
      else copy_fields section prefix key ps' config_dict
  end.

(** [if key not in config_dict[section]: config_dict[section][key] = {}]. *)
Definition ensure_item (section key : string) (config_dict : json) : outcome json :=
  sec ← getitem config_dict section;
  has_key key sec ≫= fun present : bool =>
  if present then Returns config_dict
  else
    sec' ← setitem sec key (JObj ∅);
    setitem config_dict section sec'.

(** One turn of the loop of [/update_providers]. *)
Definition provider_step (ps : params) (config_dict : json) (key : string)
  : outcome json :=
  if has_param ("enable_prov_" +:+ key) ps then
    config_dict ← ensure_item "providers" key config_dict;
    copy_fields "providers" ("prov_" +:+ key +:+ "_") key ps config_dict
  else
    sec ← getitem config_dict "providers";
    has_key key sec ≫= fun present : bool =>
    if present then
      sec' ← delitem sec key;
      setitem config_dict "providers" sec'
    else Returns config_dict.

(** [config_dict[section][key]["enabled"] = b]. *)
Definition set_enabled (key : string) (b : bool) (config_dict : json)
  : outcome json :=
  sec ← getitem config_dict "channels";
  item ← getitem sec key;
  item' ← setitem item "enabled" (JBool b);
  sec' ← setitem sec key item';
  setitem config_dict "channels" sec'.

(** One turn of the loop of [/update_channels]. *)
Definition channel_step (ps : params) (config_dict : json) (key : string)
  : outcome json :=
  if has_param ("enable_" +:+ key) ps then
    config_dict ← ensure_item "channels" key config_dict;
    config_dict ← set_enabled key true config_dict;
    copy_fields "channels" ("chan_" +:+ key +:+ "_") key ps config_dict
  else
    sec ← getitem config_dict "channels";
    has_key key sec ≫= fun present : bool =>
    if present then set_enabled key false config_dict
    else Returns config_dict.

(** [for key in keys: ...], stopping at the first exception. *)
Fixpoint for_each (step : json -> string -> outcome json) (keys : list string)
    (config_dict : json) : outcome json :=
  match keys with
  | [] => Returns config_dict
  | key :: keys' =>
      config_dict' ← step config_dict key;
      for_each step keys' config_dict'
  end.

(** The configuration that [/update_providers] computes. *)
Definition updated_providers (ps : params) (f : jfile) : outcome json :=
  config_dict ← ensure_section "providers" (read_config f);
  for_each (provider_step ps) available_providers config_dict.

(** The configuration that [/update_channels] computes. *)
Definition updated_channels (ps : params) (f : jfile) : outcome json :=
  config_dict ← ensure_section "channels" (read_config f);
  for_each (channel_step ps) available_integrations config_dict.

(** The two form handlers of [do_POST], from the parsed parameters on. *)
Definition update_providers (io : jwrite) (ps : params) (w : world) : run :=
  match updated_providers ps (config_json w) with
  | Throws e => throw e w
  | Returns config_dict =>
      (write_config io config_dict ;>
       act (Publish "System" "LLM Providers updated via Web Interface.") ;>
       act (Redirect "/")) w
  end.

Definition update_channels (io : jwrite) (ps : params) (w : world) : run :=
  match updated_channels ps (config_json w) with
  | Throws e => throw e w
  | Returns config_dict =>
      (write_config io config_dict ;>
       act (Publish "System" "Channel integrations updated via Web Interface.") ;>
       act (Redirect "/")) w
  end.

End Core.

(** * Predicates on messages and configurations *)

Module CoreInv.

Import Core.

Definition nonspace (c : ascii) : bool := negb (PyStr.isspace c).

(** The test of the installation branch of [process_user_message]. *)
Definition install_keyword (message : string) : bool :=
  contains "instala" (PyStr.lower message) || contains "install" (PyStr.lower message).

(** [config_dict[section][key]]. *)
Definition item_of (section key : string) (config_dict : json) : outcome json :=
  sec ← getitem config_dict section;
  getitem sec key.

(** [config_dict[section][key][field_name]]. *)
Definition field_of (section key field_name : string) (config_dict : json)
  : outcome json :=
  item ← item_of section key config_dict;
  getitem item field_name.

(** Two sections with the same items outside some keys. *)
Definition agree_outside (keys : list string) (sec sec' : json) : Prop :=
  forall k, k ∉ keys ->
    has_key k sec' = has_key k sec /\ getitem sec' k = getitem sec k.

(** Some parameter with the prefix names the field. *)
Definition names_field (prefix : string) (ps : params) (field_name : string) : Prop :=
  exists p_key p_val,
    (p_key, p_val) ∈ ps /\ String.prefix prefix p_key = true
    /\ remove_all prefix p_key = field_name.

(** The last parameter with the prefix that names the field has the
    first value [value]. *)
Definition field_last (prefix : string) (ps : params) (field_name value : string)
  : Prop :=
  exists ps1 p_key values ps2,
    ps = ps1 ++ (p_key, value :: values) :: ps2
    /\ String.prefix prefix p_key = true
    /\ remove_all prefix p_key = field_name
    /\ ~ names_field prefix ps2 field_name.

(** [sec[key][field_name]]. *)
Definition item_field (sec : json) (key field_name : string) : outcome json :=
  item ← getitem sec key;
  getitem item field_name.

(** What one turn of the loop of [/update_providers] leaves for its
    key, from the section [sec] before it to the section [sec'] after. *)
Definition provider_post (ps : params) (key : string) (sec sec' : json) : Prop :=
  has_key key sec' = Returns (has_param ("enable_prov_" +:+ key) ps)
  /\ (has_param ("enable_prov_" +:+ key) ps = true ->
      (forall field_name value,
         field_last ("prov_" +:+ key +:+ "_") ps field_name value ->
         item_field sec' key field_name = Returns (JStr value))
      /\ (forall item field_name,
            getitem sec key = Returns (JObj item) ->
            ~ names_field ("prov_" +:+ key +:+ "_") ps field_name ->
            item_field sec' key field_name = getitem (JObj item) field_name)).

(** The same for [/update_channels]. *)
Definition channel_post (ps : params) (key : string) (sec sec' : json) : Prop :=
  if has_param ("enable_" +:+ key) ps then
    exists item item',
      (getitem sec key = Returns (JObj item)
       \/ (has_key key sec = Returns false /\ item = ∅))
      /\ getitem sec' key = Returns (JObj item')
      /\ (forall field_name value,
            field_last ("chan_" +:+ key +:+ "_") ps field_name value ->
            item' !! field_name = Some (JStr value))
      /\ (forall field_name,
            ~ names_field ("chan_" +:+ key +:+ "_") ps field_name ->
            item' !! field_name = <["enabled" := JBool true]> item !! field_name)
  else
    (has_key key sec = Returns false /\ has_key key sec' = Returns false)
    \/ (exists item,
          getitem sec key = Returns (JObj item)
          /\ getitem sec' key = Returns (JObj (<["enabled" := JBool false]> item))).

Definition is_object (v : json) : Prop := exists m, v = JObj m.

(** A configuration whose section, if it has one, is an object of
    objects. *)
Definition section_ok (section : string) (cfg : json) : Prop :=
  exists c,
    cfg = JObj c
    /\ forall sec, c !! section = Some sec ->
         exists p, sec = JObj p /\ map_Forall (fun _ v => is_object v) p.

(** Every parameter has a value, as [parse_qs] gives them. *)
Definition params_ok (ps : params) : Prop :=
  forall p_key p_val, (p_key, p_val) ∈ ps -> p_val <> [].

(** The invariant of the two loops: the section is an object of
    objects. *)
Definition section_inv (section : string) (cfg : json) : Prop :=
  exists c p,
    cfg = JObj c /\ c !! section = Some (JObj p)
    /\ map_Forall (fun _ v => is_object v) p.

(** A configuration and two forms. *)
Definition sample_config : json :=
  JObj (<["providers" :=
           JObj (<["openai" := JObj (<["apiKey" := JStr "sk-old"]> ∅)]>
                   (<["mine" := JObj ∅]> ∅))]>
          (<["channels" :=
              JObj (<["slack" := JObj (<["token" := JStr "t"]> ∅)]> ∅)]>
             (<["agents" := JNull]> ∅))).

Definition sample_world : world :=
  {| config_json := Json sample_config; skills_json := NoFile |}.

Definition provider_form : params :=
  [("enable_prov_deepseek", ["on"]); ("prov_deepseek_apiKey", ["sk-1"]);
   ("prov_openai_apiKey", ["ignored"])].

Definition channel_form : params :=
  [("enable_telegram", ["on"]); ("chan_telegram_token", ["123"])].


End CoreInv.

(** * Properties *)

Import Spec.

(** ** The exception monad *)

Lemma bind_Ok {A B : Type} (m : result A) (f : A -> result B) (b : B) :
  m ≫= f = Ok b -> exists a, m = Ok a /\ f a = Ok b.
Proof. destruct m as [a|e]; [eauto | discriminate]. Qed.

Lemma map_result_Ok {A B : Type} (f : A -> result B) (l : list A) (ys : list B) :
  map_result f l = Ok ys -> Forall2 (fun x y => f x = Ok y) l ys.
Proof.
  revert ys. induction l as [|x l IH]; intros ys; simpl.
  - intros [= <-]. constructor.
  - destruct (f x) as [y|] eqn:Hy; [|discriminate].
    destruct (map_result f l) as [ys'|]; [|discriminate].
    intros [= <-]. constructor; auto.
Qed.

Lemma map_result_total {A B : Type} (f : A -> result B) (l : list A) :
  Forall (fun x => exists y, f x = Ok y) l -> exists ys, map_result f l = Ok ys.
Proof.
  induction 1 as [|x l [y Hy] _ [ys IH]]; simpl; [eauto|].
  rewrite Hy, IH. eauto.
Qed.

(** ** The stable sort *)

Section SortFacts.
Context {K A : Type} (lt : K -> K -> bool).
Implicit Types (x y a b : K * A) (l : list (K * A)).

Lemma insert_split x l :
  exists p q, l = p ++ q /\ PyList.insert lt x l = p ++ x :: q
              /\ Forall (fun y => lt y.1 x.1 = true) p.
Proof.
  induction l as [|y l (p & q & -> & Hi & Hp)]; simpl.
  - exists [], []. auto.
  - destruct (lt y.1 x.1) eqn:Hlt.
    + exists (y :: p), q. rewrite Hi. auto.
    + exists [], (y :: p ++ q). auto.
Qed.

Lemma insert_perm x l : PyList.insert lt x l ≡ₚ x :: l.
Proof.
  destruct (insert_split x l) as (p & q & -> & -> & _).
  symmetry. apply Permutation_middle.
Qed.

Lemma sort_keyed_perm l : PyList.sort_keyed lt l ≡ₚ l.
Proof.
  induction l as [|x l IH]; simpl; [done|].
  by rewrite insert_perm, IH.
Qed.

Lemma sort_decorated_perm r l : PyList.sort_decorated lt r l ≡ₚ l.
Proof.
  destruct r; simpl; [|apply sort_keyed_perm].
  by rewrite reverse_Permutation, sort_keyed_perm, reverse_Permutation.
Qed.

Lemma sort_perm (key : A -> K) r (l : list A) : PyList.sort lt key r l ≡ₚ l.
Proof.
  unfold PyList.sort. rewrite sort_decorated_perm, <- list_fmap_compose.
  by rewrite <- (list_fmap_id l) at 2.
Qed.

Lemma sort_decorated_keys (key : A -> K) r (l : list A) :
  Forall (fun x => x.1 = key x.2)
         (PyList.sort_decorated lt r ((fun d => (key d, d)) <$> l)).
Proof.
  rewrite sort_decorated_perm. apply Forall_fmap, Forall_forall. done.
Qed.

(** An element is never moved behind a later one unless its key is
    strictly larger. *)
Lemma insert_before x l p b q :
  l = p ++ b :: q -> lt b.1 x.1 = false ->
  exists p1 p2, PyList.insert lt x l = p1 ++ x :: p2 ++ b :: q.
Proof.
  intros -> Hb. induction p as [|y p (p1 & p2 & IH)]; simpl.
  - rewrite Hb. by exists [], [].
  - destruct (lt y.1 x.1).
    + rewrite IH. by exists (y :: p1), p2.
    + by exists [], (y :: p).
Qed.

Lemma sublist_insert x l : l `sublist_of` PyList.insert lt x l.
Proof.
  destruct (insert_split x l) as (p & q & -> & -> & _).
  apply sublist_app; [done|]. by apply sublist_cons.
Qed.

Lemma sort_keyed_stable a b l :
  [a; b] `sublist_of` l -> lt b.1 a.1 = false ->
  [a; b] `sublist_of` PyList.sort_keyed lt l.
Proof.
  intros Hsub Hlt. induction l as [|x l IH]; simpl.
  - by apply sublist_nil_r in Hsub.
  - apply sublist_cons_r in Hsub as [Hsub|(l' & [= <- <-] & Hsub)].
    + etrans; [by apply IH|]. apply sublist_insert.
    + assert (b ∈ PyList.sort_keyed lt l) as Hb.
      { rewrite sort_keyed_perm. eapply sublist_subseteq; [done|]. set_solver. }
      apply list_elem_of_split in Hb as (p & q & Hpq).
      destruct (insert_before a _ p b q Hpq Hlt) as (p1 & p2 & ->).
      apply sublist_inserts_l, sublist_skip, sublist_inserts_l, sublist_skip.
      apply sublist_nil_l.
Qed.

Lemma sublist_reverse {B : Type} (l1 l2 : list B) :
  l1 `sublist_of` l2 -> reverse l1 `sublist_of` reverse l2.
Proof.
  induction 1 as [|z l1 l2 _ IH|z l1 l2 _ IH]; [done| |].
  - rewrite !reverse_cons. by apply sublist_app.
  - rewrite reverse_cons. by apply sublist_inserts_r.
Qed.

(** Stability, in both directions of the sort: of two elements, the
    earlier one stays first unless the order asked for puts it
    strictly after the other. *)
Lemma sort_decorated_stable (r : bool) a b l :
  [a; b] `sublist_of` l ->
  (if r then lt a.1 b.1 else lt b.1 a.1) = false ->
  [a; b] `sublist_of` PyList.sort_decorated lt r l.
Proof.
  destruct r; simpl; intros Hsub Hlt; [|by apply sort_keyed_stable].
  apply (sublist_reverse [b; a]), sort_keyed_stable; [|done].
  by apply (sublist_reverse [a; b]).
Qed.

(** Stability, by classes: the elements of a class of which no member
    is strictly below another keep their order. *)
Lemma insert_filter (Q : K * A -> Prop) `{!forall x, Decision (Q x)} x l :
  (forall y, y ∈ l -> Q y -> Q x -> lt y.1 x.1 = false) ->
  filter Q (PyList.insert lt x l) = filter Q (x :: l).
Proof.
  intros HQ. destruct (insert_split x l) as (p & q & -> & -> & Hp).
  rewrite filter_app, !filter_cons, filter_app.
  destruct (decide (Q x)) as [Hx|]; [|done].
  assert (filter Q p = []) as ->; [|done].
  assert (forall y, y ∈ p -> Q y -> lt y.1 x.1 = false) as HQ'.
  { intros y Hy Qy. apply HQ; [set_solver|done..]. }
  clear HQ. induction Hp as [|y p Hy _ IH]; [done|].
  rewrite filter_cons, IH by (intros; apply HQ'; set_solver).
  destruct (decide (Q y)) as [Qy|]; [|done].
  rewrite (HQ' y) in Hy; [done|set_solver|done].
Qed.

Lemma sort_keyed_filter (Q : K * A -> Prop) `{!forall x, Decision (Q x)} l :
  (forall y z, y ∈ l -> z ∈ l -> Q y -> Q z -> lt y.1 z.1 = false) ->
  filter Q (PyList.sort_keyed lt l) = filter Q l.
Proof.
  induction l as [|x l IH]; simpl; intros HQ; [done|].
  rewrite insert_filter.
  - rewrite !filter_cons, IH; [done|].
    intros y z Hy Hz. apply HQ; set_solver.
  - intros y Hy. rewrite sort_keyed_perm in Hy. apply HQ; set_solver.
Qed.

Lemma sort_decorated_filter (Q : K * A -> Prop) `{!forall x, Decision (Q x)} r l :
  (forall y z, y ∈ l -> z ∈ l -> Q y -> Q z -> lt y.1 z.1 = false) ->
  filter Q (PyList.sort_decorated lt r l) = filter Q l.
Proof.
  intros HQ. destruct r; simpl; [|by apply sort_keyed_filter].
  rewrite filter_reverse, sort_keyed_filter, filter_reverse.
  - by rewrite reverse_involutive.
  - intros y z Hy Hz. apply HQ; by apply elem_of_reverse.
Qed.

(** Order: with an asymmetric comparison that is negatively transitive
    on the keys at hand, no element of the result has a key strictly
    below (above, for a reversed sort) the key of an earlier one. *)
Section Ordered.
Variable good : K -> Prop.
Hypothesis lt_asym : forall j k, lt j k = true -> lt k j = false.
Hypothesis lt_negtrans :
  forall i j k, good j -> lt k j = false -> lt j i = false -> lt k i = false.

Lemma insert_ascending x l :
  Forall (fun y => good y.1) l ->
  StronglySorted (fun y z => lt z.1 y.1 = false) l ->
  StronglySorted (fun y z => lt z.1 y.1 = false) (PyList.insert lt x l).
Proof.
  induction l as [|y l IH]; simpl; intros Hg Hs.
  - repeat constructor.
  - apply Forall_cons in Hg as [Hy Hg].
    apply StronglySorted_cons in Hs as [Hyl Hs].
    destruct (lt y.1 x.1) eqn:Hlt.
    + apply StronglySorted_cons. split; [|by apply IH].
      rewrite insert_perm. constructor; [by apply lt_asym|done].
    + repeat (apply StronglySorted_cons; split; try done).
      constructor; [done|].
      eapply Forall_impl; [done|]. simpl. intros z Hz.
      by apply (lt_negtrans _ y.1).
Qed.

Lemma sort_keyed_ascending l :
  Forall (fun y => good y.1) l ->
  StronglySorted (fun y z => lt z.1 y.1 = false) (PyList.sort_keyed lt l).
Proof.
  induction l as [|x l IH]; simpl; intros Hg; [constructor|].
  apply Forall_cons in Hg as [_ Hg].
  apply insert_ascending; [by rewrite sort_keyed_perm | by apply IH].
Qed.

Lemma StronglySorted_reverse {B : Type} (R : relation B) (l : list B) :
  StronglySorted R l -> StronglySorted (flip R) (reverse l).
Proof.
  induction 1 as [|z l _ IH Hz]; [constructor|].
  rewrite reverse_cons. apply StronglySorted_app. split_and!.
  - intros u v Hu Hv. apply list_elem_of_singleton in Hv. subst v.
    rewrite elem_of_reverse in Hu. unfold flip.
    by apply (proj1 (Forall_forall _ _) Hz).
  - done.
  - repeat constructor.
Qed.

Lemma sort_decorated_descending l :
  Forall (fun y => good y.1) l ->
  StronglySorted (fun y z => lt y.1 z.1 = false)
                 (PyList.sort_decorated lt true l).
Proof.
  intros Hg. simpl.
  apply (StronglySorted_reverse (fun y z => lt z.1 y.1 = false)).
  apply sort_keyed_ascending. by rewrite reverse_Permutation.
Qed.
End Ordered.

End SortFacts.

(** ** Floats: order *)

Section FloatOrder.
Import PyFloat.

Lemma SFcompare_rank (x y : float) :
  is_nan x = false -> is_nan y = false ->
  exists c, SFcompare x y = Some c
    /\ (c = Lt <-> rank_lt (rank x) (rank y))
    /\ (c = Gt <-> rank_lt (rank y) (rank x)).
Proof.
  unfold rank_lt.
  destruct x as [sx|sx| |sx mx ex], y as [sy|sy| |sy my ey];
    try discriminate; intros _ _; simpl;
    try (destruct sx); try (destruct sy); simpl;
    try (eexists; split; [reflexivity|]; split; split;
         first [discriminate | reflexivity | lia]).
  - destruct (Z.compare_spec ex ey) as [->| |].
    + rewrite Pos.compare_cont_spec. simpl.
      destruct (Pos.compare_spec mx my) as [->| |]; simpl;
        (eexists; split; [reflexivity|]; split; split;
         first [discriminate | reflexivity | lia]).
    + eexists; split; [reflexivity|]; split; split;
        first [discriminate | reflexivity | lia].
    + eexists; split; [reflexivity|]; split; split;
        first [discriminate | reflexivity | lia].
  - destruct (Z.compare_spec ex ey) as [->| |].
    + rewrite Pos.compare_cont_spec. simpl.
      destruct (Pos.compare_spec mx my) as [->| |]; simpl;
        (eexists; split; [reflexivity|]; split; split;
         first [discriminate | reflexivity | lia]).
    + eexists; split; [reflexivity|]; split; split;
        first [discriminate | reflexivity | lia].
    + eexists; split; [reflexivity|]; split; split;
        first [discriminate | reflexivity | lia].
Qed.

Lemma ltb_rank (x y : float) :
  is_nan x = false -> is_nan y = false ->
  (ltb x y = true <-> rank_lt (rank x) (rank y)).
Proof.
  intros Hx Hy. unfold ltb, SFltb.
  destruct (SFcompare_rank x y Hx Hy) as (c & -> & Hlt & _).
  rewrite <- Hlt. destruct c; split; congruence.
Qed.

Lemma ltb_nan_l (x y : float) : is_nan x = true -> ltb x y = false.
Proof. by destruct x, y. Qed.

Lemma ltb_nan_r (x y : float) : is_nan y = true -> ltb x y = false.
Proof. by destruct x, y. Qed.

Lemma ltb_asym (x y : float) : ltb x y = true -> ltb y x = false.
Proof.
  intros Hxy.
  destruct (is_nan x) eqn:Hx; [by rewrite ltb_nan_l in Hxy|].
  destruct (is_nan y) eqn:Hy; [by rewrite ltb_nan_r in Hxy|].
  apply ltb_rank in Hxy; [|done..].
  apply not_true_is_false. rewrite ltb_rank by done.
  revert Hxy. unfold rank_lt.
  destruct (rank x) as [[? ?] ?], (rank y) as [[? ?] ?]; simpl. lia.
Qed.

Lemma ltb_negtrans (x y z : float) :
  is_nan y = false -> ltb z y = false -> ltb y x = false -> ltb z x = false.
Proof.
  intros Hy Hzy Hyx.
  destruct (is_nan x) eqn:Hx; [by apply ltb_nan_r|].
  destruct (is_nan z) eqn:Hz; [by apply ltb_nan_l|].
  apply not_true_iff_false in Hzy, Hyx. apply not_true_is_false.
  rewrite ltb_rank in Hzy, Hyx |- * by done.
  revert Hzy Hyx. unfold rank_lt.
  destruct (rank x) as [[? ?] ?], (rank y) as [[? ?] ?],
           (rank z) as [[? ?] ?]; simpl. lia.
Qed.

Lemma leb_not_gtb (x y : float) : leb x y = true -> gtb x y = false.
Proof.
  unfold leb, gtb, SFleb. intros Hle.
  destruct (is_nan x) eqn:Hx; [by destruct x, y|].
  destruct (is_nan y) eqn:Hy; [by destruct x, y|].
  apply not_true_is_false. fold (ltb y x). rewrite ltb_rank by done.
  destruct (SFcompare_rank x y Hx Hy) as (c & Hc & _ & Hgt).
  rewrite Hc in Hle. rewrite <- Hgt. by destruct c.
Qed.

Lemma gtb_not_leb (x y : float) : gtb x y = true -> leb x y = false.
Proof.
  intros Hgt. apply not_true_is_false. intros Hle.
  apply leb_not_gtb in Hle. congruence.
Qed.

(** Two floats equal to a third are not strictly ordered. *)
Lemma eqb_not_ltb (x y z : float) :
  eqb x z = true -> eqb y z = true -> ltb x y = false.
Proof.
  unfold eqb, SFeqb. intros Hxz Hyz.
  destruct (is_nan x) eqn:Hx; [by apply ltb_nan_l|].
  destruct (is_nan y) eqn:Hy; [by apply ltb_nan_r|].
  destruct (is_nan z) eqn:Hz; [by destruct x, z|].
  apply not_true_is_false. rewrite ltb_rank by done.
  destruct (SFcompare_rank x z Hx Hz) as (c & Hc & Hlt & Hgt).
  destruct (SFcompare_rank y z Hy Hz) as (c' & Hc' & Hlt' & Hgt').
  rewrite Hc in Hxz. rewrite Hc' in Hyz.
  destruct c; try discriminate. destruct c'; try discriminate.
  revert Hlt Hgt Hlt' Hgt'. unfold rank_lt.
  destruct (rank x) as [[x1 x2] x3], (rank y) as [[y1 y2] y3],
           (rank z) as [[z1 z2] z3]; simpl.
  intros [_ H1] [_ H2] [_ H3] [_ H4] H.
  assert (Eq <> Lt) as N1 by discriminate.
  assert (Eq <> Gt) as N2 by discriminate.
  assert (~ (x1 < z1 \/ x1 = z1 /\ (x2 < z2 \/ x2 = z2 /\ x3 < z3))) by tauto.
  assert (~ (z1 < x1 \/ z1 = x1 /\ (z2 < x2 \/ z2 = x2 /\ z3 < x3))) by tauto.
  assert (~ (y1 < z1 \/ y1 = z1 /\ (y2 < z2 \/ y2 = z2 /\ y3 < z3))) by tauto.
  assert (~ (z1 < y1 \/ z1 = y1 /\ (z2 < y2 \/ z2 = y2 /\ z3 < y3))) by tauto.
  lia.
Qed.

End FloatOrder.

(** ** Floats: signs, and the absence of NaN *)

Section FloatSign.
Import PyFloat.
Variables p e : Z.

Lemma iter_pos_invariant {T : Type} (I : T -> Prop) (f : T -> T) :
  (forall t, I t -> I (f t)) ->
  forall n t, I t -> I (SpecFloat.iter_pos f n t).
Proof. intros Hf. induction n; simpl; auto. Qed.

Lemma shr_1_nonneg (mrs : shr_record) : 0 <= shr_m mrs -> 0 <= shr_m (shr_1 mrs).
Proof.
  destruct mrs as [m r s]. simpl.
  destruct m as [|[q|q|]|[q|q|]]; simpl; lia.
Qed.

Lemma shr_fexp_nonneg (m ex : Z) (l : location) :
  0 <= m -> 0 <= shr_m (shr_fexp p e m ex l).1.
Proof.
  intros Hm. unfold shr_fexp, shr.
  assert (0 <= shr_m (shr_record_of_loc m l)) as H0.
  { by destruct l as [|[]]. }
  destruct (fexp p e (Zdigits2 m + ex) - ex); simpl; try done.
  apply (iter_pos_invariant (fun mrs => 0 <= shr_m mrs)); [|done].
  apply shr_1_nonneg.
Qed.

Lemma round_nearest_even_nonneg (m : Z) (l : location) :
  0 <= m -> 0 <= round_nearest_even m l.
Proof.
  intros Hm. destruct l as [|[]]; simpl; try lia.
  destruct (Z.even m); lia.
Qed.

Lemma binary_round_aux_sign (s : bool) (m ex : Z) (l : location) :
  0 <= m -> has_sign s (binary_round_aux p e s m ex l).
Proof.
  intros Hm. unfold binary_round_aux.
  pose proof (shr_fexp_nonneg m ex l Hm) as H1.
  destruct (shr_fexp p e m ex l) as [mrs' e']. simpl in H1.
  pose proof (shr_fexp_nonneg _ e' loc_Exact
                (round_nearest_even_nonneg _ (loc_of_shr_record mrs') H1)) as H2.
  destruct (shr_fexp p e _ e' loc_Exact) as [mrs'' e'']. simpl in H2.
  destruct (shr_m mrs''); [done| |lia].
  by destruct (_ <=? _).
Qed.

Lemma binary_normalize_sign (n : Z) :
  has_sign (bool_decide (n < 0)) (binary_normalize p e n 0 false).
Proof.
  destruct n as [|q|q]; simpl; [done| |].
  - unfold binary_round. destruct (shl_align _ _ _).
    by apply binary_round_aux_sign.
  - unfold binary_round. destruct (shl_align _ _ _).
    by apply binary_round_aux_sign.
Qed.

Lemma SFsqrt_sign (x : float) :
  has_sign false x -> has_sign false (SFsqrt p e x).
Proof.
  destruct x as [s|s| |s m ex]; simpl; try done.
  - by intros ->.
  - intros ->. unfold SFsqrt_core_binary.
    set (m' := match _ - _ with Z0 => _ | Z.pos _ => _ | Z.neg _ => _ end).
    pose proof (Z.sqrtrem_spec m') as Hs.
    destruct (Z.sqrtrem m') as [q r].
    apply binary_round_aux_sign.
    destruct (Z.le_gt_cases 0 m') as [Hm|Hm]; [specialize (Hs Hm); nia|].
    exfalso. revert Hm. unfold m'.
    destruct (_ - _); try lia. pose proof (Z.shiftl_nonneg (Z.pos m) (Z.pos p0)). lia.
Qed.

Lemma SFmul_sign (x y : float) :
  has_sign false x -> has_sign false y ->
  is_zero x = false -> is_zero y = false ->
  has_sign false (SFmul p e x y).
Proof.
  destruct x as [sx|sx| |sx mx ex], y as [sy|sy| |sy my ey];
    simpl; try done; intros -> ->; try done.
  intros _ _. by apply binary_round_aux_sign.
Qed.

Lemma SFdiv_not_nan (x y : float) :
  is_nan x = false -> is_nan y = false ->
  (forall s, x <> S754_infinity s) -> is_zero y = false ->
  is_nan (SFdiv p e x y) = false.
Proof.
  destruct x as [sx|sx| |sx mx ex], y as [sy|sy| |sy my ey];
    simpl; try done.
  - intros _ _ Hx. by destruct (Hx sx).
  - intros _ _ _ _. unfold SFdiv_core_binary.
    set (m' := match _ - _ - _ with Z0 => _ | Z.pos _ => _ | Z.neg _ => _ end).
    assert (0 <= m') as Hm.
    { unfold m'. destruct (_ - _ - _); try lia.
      by apply Z.shiftl_nonneg. }
    pose proof (Z.div_pos m' (Z.pos my) Hm ltac:(lia)) as Hq.
    unfold Z.div in Hq. destruct (Z.div_eucl m' (Z.pos my)) as [q r].
    pose proof (binary_round_aux_sign (xorb sx sy) q
                  (Z.min (fexp p e (Zdigits2 (Z.pos mx) + ex - (Zdigits2 (Z.pos my) + ey))) (ex - ey))
                  (new_location (Z.pos my) r) Hq) as Hs.
    simpl in Hs |- *.
    by destruct (binary_round_aux _ _ _ _ _ _).
Qed.


Lemma has_sign_not_nan (s : bool) (x : float) : has_sign s x -> is_nan x = false.
Proof. by destruct x. Qed.


End FloatSign.

(** ** Floats: the operations of the ranker *)

Section FloatOps.
Import PyFloat.

Lemma of_int_sign (n : Z) (x : float) :
  of_int n = Ok x ->
  has_sign (bool_decide (n < 0)) x /\ forall s, x <> S754_infinity s.
Proof.
  unfold of_int. pose proof (binary_normalize_sign prec emax n) as Hs.
  destruct (binary_normalize prec emax n 0 false); try done;
    intros [= <-]; split; done.
Qed.

Lemma math_sqrt_sign (n : Z) (r : float) :
  0 <= n -> math_sqrt n = Ok r -> has_sign false r.
Proof.
  intros Hn. unfold math_sqrt. intros (x & Hx & Hr)%bind_Ok.
  apply of_int_sign in Hx as [Hx _].
  rewrite bool_decide_eq_false_2 in Hx by lia.
  pose proof (SFsqrt_sign prec emax x Hx) as Hs.
  destruct (SFsqrt prec emax x); try done; by injection Hr as <-.
Qed.

Lemma math_sqrt_0 : math_sqrt 0 = Ok zero.
Proof. reflexivity. Qed.

Lemma math_sqrt_raises (n : Z) (err : exn) :
  0 <= n -> math_sqrt n = Raise err -> err = OverflowError.
Proof.
  intros Hn. unfold math_sqrt, of_int.
  pose proof (binary_normalize_sign prec emax n) as Hs.
  rewrite bool_decide_eq_false_2 in Hs by lia.
  destruct (binary_normalize prec emax n 0 false) as [s|s| |s m ex] eqn:Hb;
    try done; unfold mbind, result_bind.
  - by intros [= <-].
  - pose proof (SFsqrt_sign prec emax (S754_finite s m ex) Hs) as Hq.
    by destruct (SFsqrt prec emax (S754_finite s m ex)).
Qed.

Lemma int_truediv_not_nan (n : Z) (y r : float) :
  is_nan y = false -> int_truediv n y = Ok r -> is_nan r = false.
Proof.
  intros Hy. unfold int_truediv. intros (x & Hx & Hr)%bind_Ok.
  apply of_int_sign in Hx as [Hx Hinf].
  destruct (is_zero y) eqn:Hz; [done|]. injection Hr as <-.
  apply SFdiv_not_nan; eauto using has_sign_not_nan.
Qed.


End FloatOps.

(** ** Sums *)

Section Sums.

Lemma foldl_add (x : Z) (l : list Z) : foldl Z.add x l = x + foldl Z.add 0 l.
Proof.
  revert x. induction l as [|y l IH]; intros x; simpl; [lia|].
  rewrite (IH (x + y)), (IH (0 + y)). lia.
Qed.

Lemma sum_nil : PyList.sum [] = 0.
Proof. done. Qed.

Lemma sum_cons (x : Z) (l : list Z) : PyList.sum (x :: l) = x + PyList.sum l.
Proof. unfold PyList.sum. simpl. by rewrite foldl_add. Qed.

#[global] Instance sum_perm : Proper ((≡ₚ) ==> (=)) PyList.sum.
Proof.
  induction 1 as [|x l1 l2 _ IH|x y l|l1 l2 l3 _ IH1 _ IH2];
    rewrite ?sum_cons; try done; lia.
Qed.

Lemma sum_nonneg (l : list Z) : Forall (fun x => 0 <= x) l -> 0 <= PyList.sum l.
Proof. induction 1; rewrite ?sum_nil, ?sum_cons; lia. Qed.

End Sums.

(** ** Cosine similarity *)

Section Cosine.
Import PyFloat VectorDB.
Implicit Types (v vec : gmap string Z) (w : string).

Lemma sum_squares_empty : sum_squares ∅ = 0.
Proof. unfold sum_squares. by rewrite map_to_list_empty. Qed.



Lemma sum_squares_nonneg v : 0 <= sum_squares v.
Proof.
  apply sum_nonneg, Forall_fmap, Forall_forall. intros kv _. simpl. nia.
Qed.






(** The shape of a successful run. *)
Lemma _cosine_similarity_Ok vec1 vec2 (r : float) :
  _cosine_similarity vec1 vec2 = Ok r ->
  exists mag1 mag2,
    math_sqrt (sum_squares vec1) = Ok mag1
    /\ math_sqrt (sum_squares vec2) = Ok mag2
    /\ has_sign false mag1 /\ has_sign false mag2
    /\ if is_zero mag1 || is_zero mag2 then r = zero
       else int_truediv (dot_product vec1 vec2) (mul mag1 mag2) = Ok r.
Proof.
  unfold _cosine_similarity.
  intros (mag1 & H1 & (mag2 & H2 & Hr)%bind_Ok)%bind_Ok.
  exists mag1, mag2. split_and!; try done.
  - eapply math_sqrt_sign; [apply sum_squares_nonneg | done].
  - eapply math_sqrt_sign; [apply sum_squares_nonneg | done].
  - destruct (is_zero mag1 || is_zero mag2); [congruence | done].
Qed.

(** A score is never NaN. *)
Lemma _cosine_similarity_not_nan vec1 vec2 (r : float) :
  _cosine_similarity vec1 vec2 = Ok r -> is_nan r = false.
Proof.
  intros Hc.
  apply _cosine_similarity_Ok in Hc as (mag1 & mag2 & _ & _ & Hs1 & Hs2 & Hr).
  destruct (is_zero mag1 || is_zero mag2) eqn:Hz; [by subst r|].
  apply orb_false_elim in Hz as [Hz1 Hz2].
  eapply int_truediv_not_nan; [|done].
  eapply has_sign_not_nan. by apply SFmul_sign.
Qed.


(** An empty query vector scores [0.0] against everything. *)
Lemma _cosine_similarity_zero_l vec1 vec2 (r : float) :
  sum_squares vec1 = 0 -> _cosine_similarity vec1 vec2 = Ok r -> r = zero.
Proof.
  intros H0 Hc.
  apply _cosine_similarity_Ok in Hc as (mag1 & mag2 & H1 & _ & _ & _ & Hr).
  rewrite H0, math_sqrt_0 in H1. by injection H1 as <-.
Qed.

Lemma _cosine_similarity_zero_r vec1 vec2 (r : float) :
  sum_squares vec2 = 0 -> _cosine_similarity vec1 vec2 = Ok r -> r = zero.
Proof.
  intros H0 Hc.
  apply _cosine_similarity_Ok in Hc as (mag1 & mag2 & _ & H2 & _ & _ & Hr).
  rewrite H0, math_sqrt_0 in H2. injection H2 as <-.
  by rewrite orb_true_r in Hr.
Qed.

End Cosine.

(** ** Sorting by a key *)

Section SortByKey.
Context {K A : Type} (lt : K -> K -> bool).
Implicit Types (l : list A) (s : list (K * A)).

Lemma filter_fmap_snd (Q : A -> Prop) `{!forall x, Decision (Q x)} s :
  filter Q (snd <$> s) = snd <$> filter (fun x => Q x.2) s.
Proof.
  induction s as [|x s IH]; [done|].
  rewrite fmap_cons, !filter_cons, IH. by destruct (decide (Q x.2)).
Qed.

Lemma StronglySorted_Forall {B : Type} (R : relation B) (Q : B -> Prop)
    (l : list B) :
  StronglySorted R l -> Forall Q l ->
  StronglySorted (fun y z => Q y /\ Q z /\ R y z) l.
Proof.
  induction 1 as [|y l _ IH Hy]; intros HQ; [constructor|].
  apply Forall_cons in HQ as [Qy HQ]. constructor; [by apply IH|].
  apply Forall_forall. intros z Hz. split_and!; [done| |].
  - by apply (proj1 (Forall_forall _ _) HQ).
  - by apply (proj1 (Forall_forall _ _) Hy).
Qed.

Lemma sort_stable (key : A -> K) (r : bool) (a b : A) l :
  [a; b] `sublist_of` l ->
  (if r then lt (key a) (key b) else lt (key b) (key a)) = false ->
  [a; b] `sublist_of` PyList.sort lt key r l.
Proof.
  intros Hsub Hlt. unfold PyList.sort.
  apply (fmap_sublist snd [(key a, a); (key b, b)]).
  apply sort_decorated_stable; [|done].
  by apply (fmap_sublist (fun d => (key d, d)) [a; b]).
Qed.

Lemma sort_filter (key : A -> K) (r : bool)
    (Q : A -> Prop) `{!forall x, Decision (Q x)} l :
  (forall y z, Q y -> Q z -> lt (key y) (key z) = false) ->
  filter Q (PyList.sort lt key r l) = filter Q l.
Proof.
  intros HQ. unfold PyList.sort. rewrite filter_fmap_snd.
  rewrite sort_decorated_filter.
  - rewrite <- filter_fmap_snd, <- list_fmap_compose.
    by rewrite <- (list_fmap_id l) at 2.
  - intros y z (dy & -> & _)%list_elem_of_fmap (dz & -> & _)%list_elem_of_fmap.
    apply HQ.
Qed.

Lemma sort_reverse_descending (key : A -> K) (good : K -> Prop) l :
  (forall j k, lt j k = true -> lt k j = false) ->
  (forall i j k, good j -> lt k j = false -> lt j i = false -> lt k i = false) ->
  Forall (fun d => good (key d)) l ->
  StronglySorted (fun y z => lt (key y) (key z) = false)
                 (PyList.sort lt key true l).
Proof.
  intros Hasym Hneg Hgood. unfold PyList.sort.
  eapply StronglySorted_fmap; last first.
  - apply StronglySorted_Forall; [|apply (sort_decorated_keys lt key true l)].
    apply (sort_decorated_descending lt good Hasym Hneg).
    apply Forall_fmap, Forall_forall. intros d Hd. simpl.
    by apply (proj1 (Forall_forall _ _) Hgood).
  - simpl. intros y z (-> & -> & Hyz). done.
Qed.

(** The shape of a successful sort by a key that may raise. *)
Lemma sort_result_Ok (key : A -> result K) (r : bool) l (out : list A) :
  PyList.sort_result lt key r l = Ok out ->
  exists keyed,
    snd <$> keyed = l
    /\ Forall (fun x => key x.2 = Ok x.1) keyed
    /\ out = snd <$> PyList.sort_decorated lt r keyed.
Proof.
  unfold PyList.sort_result. intros (keyed & Hk & [= <-])%bind_Ok.
  exists keyed. split_and!; [| |done].
  - apply map_result_Ok in Hk. induction Hk as [|d x l keyed Hx _ IH]; [done|].
    apply bind_Ok in Hx as (k & Hk & [= <-]). rewrite fmap_cons. by f_equal.
  - apply map_result_Ok in Hk. induction Hk as [|d x l keyed Hx _ IH]; [done|].
    apply bind_Ok in Hx as (k & Hk & [= <-]). by constructor.
Qed.

Lemma sort_result_total (key : A -> result K) (r : bool) l :
  Forall (fun d => exists k, key d = Ok k) l ->
  exists out, PyList.sort_result lt key r l = Ok out.
Proof.
  intros Hl. unfold PyList.sort_result.
  destruct (map_result_total (fun d => k ← key d; Ok (k, d)) l) as [keyed ->].
  - eapply Forall_impl; [done|]. simpl. intros d [k ->]. by eexists.
  - by eexists.
Qed.

End SortByKey.

(** ** Strings *)

Section Strings.
Implicit Types (s t cur : string) (c : ascii) (P : ascii -> bool).

Lemma str_app_cons c s t : String c s +:+ t = String c (s +:+ t).
Proof. reflexivity. Qed.

Lemma str_app_nil_l s : "" +:+ s = s.
Proof. reflexivity. Qed.

Lemma str_app_nil_r s : s +:+ "" = s.
Proof. induction s as [|c s IH]; [done|]. by rewrite str_app_cons, IH. Qed.

Lemma str_app_assoc s t u : (s +:+ t) +:+ u = s +:+ t +:+ u.
Proof. induction s as [|c s IH]; [done|]. by rewrite !str_app_cons, IH. Qed.

Lemma str_rev_app_spec s t : String.rev_app s t = String.rev s +:+ t.
Proof.
  unfold String.rev. revert t. induction s as [|c s IH]; intros t; simpl; [done|].
  rewrite (IH (String c t)), (IH (String c "")). by rewrite str_app_assoc.
Qed.

Lemma str_rev_cons c s : String.rev (String c s) = String.rev s +:+ String c "".
Proof. unfold String.rev at 1. simpl. apply str_rev_app_spec. Qed.

Lemma str_rev_app s t : String.rev (s +:+ t) = String.rev t +:+ String.rev s.
Proof.
  induction s as [|c s IH]; [by rewrite str_app_nil_l, str_app_nil_r|].
  by rewrite str_app_cons, !str_rev_cons, IH, str_app_assoc.
Qed.

Lemma str_rev_involutive s : String.rev (String.rev s) = s.
Proof.
  induction s as [|c s IH]; [done|]. by rewrite str_rev_cons, str_rev_app, IH.
Qed.

Lemma str_rev_empty s : String.rev s = "" -> s = "".
Proof. intros H. by rewrite <- (str_rev_involutive s), H. Qed.

Lemma all_chars_app P s t :
  all_chars P (s +:+ t) = all_chars P s && all_chars P t.
Proof.
  induction s as [|c s IH]; [done|].
  rewrite str_app_cons. simpl. by rewrite IH, andb_assoc.
Qed.

Lemma all_chars_rev P s : all_chars P (String.rev s) = all_chars P s.
Proof.
  induction s as [|c s IH]; [done|].
  rewrite str_rev_cons, all_chars_app, IH. simpl. by rewrite andb_true_r, andb_comm.
Qed.

Lemma all_chars_impl P (Q : ascii -> bool) s :
  (forall c, P c = true -> Q c = true) ->
  all_chars P s = true -> all_chars Q s = true.
Proof.
  intros HPQ. induction s as [|c s IH]; simpl; [done|].
  intros [Hc Hs]%andb_prop. by rewrite HPQ, IH.
Qed.

(** *** Trimming *)

Lemma lstrip_empty s : PyStr.lstrip s = "" -> all_chars PyStr.isspace s = true.
Proof.
  induction s as [|c s IH]; simpl; [done|].
  destruct (PyStr.isspace c); [auto | discriminate].
Qed.

Lemma lstrip_head s c t : PyStr.lstrip s = String c t -> PyStr.isspace c = false.
Proof.
  induction s as [|c' s IH]; simpl; [discriminate|].
  destruct (PyStr.isspace c') eqn:Hc; [done|]. by intros [= <- _].
Qed.

Lemma lstrip_all_space s : all_chars PyStr.isspace s = true -> PyStr.lstrip s = "".
Proof.
  induction s as [|c s IH]; simpl; [done|].
  intros [-> Hs]%andb_prop. auto.
Qed.

(** A string trims to nothing exactly when it is all whitespace. *)
Lemma strip_empty s : PyStr.strip s = "" <-> all_chars PyStr.isspace s = true.
Proof.
  unfold PyStr.strip, PyStr.rstrip. split.
  - intros H%str_rev_empty%lstrip_empty. rewrite all_chars_rev in H.
    destruct (PyStr.lstrip s) as [|c t] eqn:Hl; [by apply lstrip_empty|].
    apply lstrip_head in Hl. simpl in H. by rewrite Hl in H.
  - intros H. by rewrite (lstrip_all_space s H).
Qed.

(** *** Finding the words *)

Lemma space_not_word c :
  PyStr.isspace c = true -> PyStr.is_word (PyStr.lower_char c) = false.
Proof. by destruct c as [[] [] [] [] [] [] [] []]. Qed.

Lemma lower_blank s :
  all_chars PyStr.isspace s = true -> all_chars non_word (PyStr.lower s) = true.
Proof.
  induction s as [|c s IH]; simpl; [done|].
  intros [Hc Hs]%andb_prop. unfold non_word at 1.
  by rewrite (space_not_word c Hc), IH.
Qed.

Lemma findall_word_go_gap cur s :
  all_chars non_word s = true -> PyStr.findall_word_go cur s = PyStr.flush cur.
Proof.
  revert cur. induction s as [|c s IH]; intros cur; simpl; [done|].
  unfold non_word at 1. intros [Hc Hs]%andb_prop.
  apply negb_true_iff in Hc. rewrite Hc, (IH "" Hs). simpl. apply app_nil_r.
Qed.

Lemma word_runs_gap c s toks :
  PyStr.is_word c = false -> word_runs s toks -> word_runs (String c s) toks.
Proof.
  intros Hc [gap Hgap|gap tok rest toks' Hgap Htok Hword Hrest Hruns].
  - apply runs_done. simpl. unfold non_word at 1. by rewrite Hc.
  - apply (runs_word (String c gap)); try done.
    simpl. unfold non_word at 1. by rewrite Hc.
Qed.

Lemma runs_word_first tok rest toks :
  tok <> "" -> all_chars PyStr.is_word tok = true ->
  (rest = "" \/ exists c rest', rest = String c rest' /\ PyStr.is_word c = false) ->
  word_runs rest toks -> word_runs (tok +:+ rest) (tok :: toks).
Proof. intros. by apply (runs_word "" tok rest). Qed.

Lemma findall_word_go_runs s cur :
  all_chars PyStr.is_word cur = true ->
  word_runs (String.rev cur +:+ s) (PyStr.findall_word_go cur s).
Proof.
  revert cur. induction s as [|c s IH]; intros cur Hcur; simpl.
  - destruct cur as [|c cur]; simpl.
    + by apply runs_done.
    + apply runs_word_first.
      * intros H%str_rev_empty. discriminate.
      * by rewrite all_chars_rev.
      * by left.
      * by apply runs_done.
  - destruct (PyStr.is_word c) eqn:Hc.
    + specialize (IH (String c cur)). rewrite str_rev_cons, str_app_assoc in IH.
      apply IH. simpl. by rewrite Hc.
    + specialize (IH "" eq_refl). rewrite str_app_nil_l in IH.
      pose proof (word_runs_gap c s _ Hc IH) as Hrest.
      destruct cur as [|c' cur]; simpl; [done|].
      apply runs_word_first; try done.
      * intros H%str_rev_empty. discriminate.
      * by rewrite all_chars_rev.
      * right. by exists c, s.
Qed.

Lemma findall_word_runs s : word_runs s (PyStr.findall_word s).
Proof. by apply (findall_word_go_runs s ""). Qed.

Lemma findall_word_go_skip gap s :
  all_chars non_word gap = true ->
  PyStr.findall_word_go "" (gap +:+ s) = PyStr.findall_word_go "" s.
Proof.
  induction gap as [|c gap IH]; [done|]. rewrite str_app_cons. simpl.
  unfold non_word at 1. intros [Hc Hgap]%andb_prop.
  apply negb_true_iff in Hc. rewrite Hc. by apply IH.
Qed.

Lemma findall_word_go_take tok cur s :
  all_chars PyStr.is_word tok = true ->
  PyStr.findall_word_go cur (tok +:+ s)
  = PyStr.findall_word_go (String.rev_app tok cur) s.
Proof.
  revert cur. induction tok as [|c tok IH]; intros cur; [done|].
  rewrite str_app_cons. simpl. intros [Hc Htok]%andb_prop.
  rewrite Hc. by apply IH.
Qed.

(** The maximal runs of a text are the list that the scan returns, and
    no other. *)
Lemma word_runs_findall s toks : word_runs s toks -> toks = PyStr.findall_word s.
Proof.
  unfold PyStr.findall_word.
  induction 1 as [gap Hgap|gap tok rest toks Hgap Htok Hword Hrest _ IH].
  - by rewrite findall_word_go_gap.
  - rewrite findall_word_go_skip, findall_word_go_take by done.
    fold (String.rev tok).
    assert (PyStr.flush (String.rev tok) = [tok]) as Hflush.
    { unfold PyStr.flush. rewrite str_rev_involutive.
      destruct (String.rev tok) eqn:Hr; [|done].
      by apply str_rev_empty in Hr. }
    rewrite IH.
    destruct Hrest as [->|(c & rest' & -> & Hc)]; simpl.
    + by rewrite Hflush.
    + by rewrite Hc, Hflush.
Qed.

End Strings.

(** ** The tokenizer *)

Section Tokenizer.
Import VectorDB.
Implicit Types (w t : string) (toks : list string) (freq : gmap string Z).

Lemma occurrences_nonneg w toks : 0 <= occurrences w toks.
Proof. unfold occurrences. lia. Qed.

Lemma occurrences_cons w t toks :
  occurrences w (t :: toks)
  = (if decide (t = w) then 1 else 0) + occurrences w toks.
Proof.
  unfold occurrences. rewrite filter_cons.
  destruct (decide (t = w)); simpl; lia.
Qed.

Lemma occurrences_pos w toks : 0 < occurrences w toks <-> w ∈ toks.
Proof.
  induction toks as [|t toks IH]; [by rewrite elem_of_nil|].
  rewrite occurrences_cons, elem_of_cons.
  pose proof (occurrences_nonneg w toks).
  destruct (decide (t = w)) as [->|]; [intuition lia|].
  rewrite <- IH. intuition (congruence || lia).
Qed.

Lemma surviving_cons t toks :
  surviving (t :: toks)
  = if (2 <? String.length t)%nat then t :: surviving toks else surviving toks.
Proof.
  unfold surviving. rewrite filter_cons.
  destruct (Nat.ltb_spec 2 (String.length t));
    [by rewrite decide_True | by rewrite decide_False by lia].
Qed.

(** The counting loop adds, for each term, its number of occurrences
    among the surviving tokens. *)
Lemma count_words_lookup toks freq w :
  foldl count_word freq toks !! w
  = if decide (occurrences w (surviving toks) = 0) then freq !! w
    else Some (default 0 (freq !! w) + occurrences w (surviving toks)).
Proof.
  revert freq. induction toks as [|t toks IH]; intros freq; [done|].
  simpl. rewrite IH, surviving_cons. unfold count_word.
  pose proof (occurrences_nonneg w (surviving toks)) as Hn.
  destruct (2 <? String.length t)%nat; [|done].
  rewrite occurrences_cons.
  destruct (decide (t = w)) as [->|Hne].
  - rewrite lookup_insert_eq. simpl.
    rewrite (decide_False (P := 1 + _ = 0)) by lia.
    destruct (decide (occurrences w (surviving toks) = 0)) as [->|];
      f_equal; lia.
  - rewrite lookup_insert_ne by done. by rewrite Z.add_0_l.
Qed.

Lemma _tokenize_lookup (text : string) w :
  let n := occurrences w (surviving (PyStr.findall_word (PyStr.lower text))) in
  _tokenize text !! w = if decide (n = 0) then None else Some n.
Proof.
  simpl. unfold _tokenize. rewrite count_words_lookup, lookup_empty. simpl.
  by rewrite Z.add_0_l.
Qed.

Lemma _tokenize_key_length (text : string) w :
  is_Some (_tokenize text !! w) -> (2 < String.length w)%nat.
Proof.
  rewrite _tokenize_lookup.
  destruct (decide _) as [|Hn]; [by intros [? [=]]|]. intros _.
  pose proof (occurrences_nonneg w
                (surviving (PyStr.findall_word (PyStr.lower text)))).
  assert (w ∈ surviving (PyStr.findall_word (PyStr.lower text))) as Hw
    by (apply occurrences_pos; lia).
  by apply list_elem_of_filter in Hw as [Hw _].
Qed.

Lemma _tokenize_empty (text : string) :
  _tokenize text = ∅ <-> surviving (PyStr.findall_word (PyStr.lower text)) = [].
Proof.
  split.
  - intros He.
    destruct (surviving _) as [|w toks] eqn:Hs; [done|].
    pose proof (_tokenize_lookup text w) as Hl. simpl in Hl.
    rewrite He, lookup_empty, Hs, occurrences_cons in Hl.
    rewrite (decide_True (P := w = w)) in Hl by done.
    pose proof (occurrences_nonneg w toks).
    by rewrite (decide_False (P := 1 + _ = 0)) in Hl by lia.
  - intros He. apply map_eq. intros w.
    by rewrite _tokenize_lookup, He, lookup_empty.
Qed.

(** A query without a character outside whitespace has no terms. *)
Lemma _tokenize_blank (text : string) :
  PyStr.strip text = "" -> _tokenize text = ∅.
Proof.
  intros Hb%strip_empty%lower_blank. unfold _tokenize, PyStr.findall_word.
  by rewrite findall_word_go_gap.
Qed.

End Tokenizer.

(** ** Document ids *)

Section Ids.
Import VectorDB.
Implicit Types (s t cur : string) (c sep : ascii).

Lemma split_go_no_sep sep cur t :
  all_chars (differs sep) t = true ->
  PyStr.split_go sep cur t = [String.rev cur +:+ t].
Proof.
  revert cur. induction t as [|c t IH]; intros cur; simpl.
  - by rewrite str_app_nil_r.
  - unfold differs at 1. intros [Hc Ht]%andb_prop.
    apply negb_true_iff in Hc. rewrite Hc, (IH _ Ht).
    by rewrite str_rev_cons, str_app_assoc.
Qed.

Lemma split_go_nonempty sep cur s : PyStr.split_go sep cur s <> [].
Proof.
  revert cur. induction s as [|c s IH]; intros cur; simpl; [done|].
  destruct (Ascii.eqb c sep); [done | apply IH].
Qed.

(** Whatever precedes it, the text after the last separator is the
    last item of the split. *)
Lemma last_item_split sep s t :
  all_chars (differs sep) t = true ->
  PyStr.last_item (PyStr.split sep (s +:+ String sep t)) = t.
Proof.
  intros Ht. unfold PyStr.split, PyStr.last_item.
  enough (forall cur,
            List.last (PyStr.split_go sep cur (s +:+ String sep t)) "" = t)
    as Hgo by apply Hgo.
  induction s as [|c s IH]; intros cur.
  - rewrite str_app_nil_l. simpl. rewrite Ascii.eqb_refl.
    by rewrite (split_go_no_sep sep "" t Ht).
  - rewrite str_app_cons. simpl. destruct (Ascii.eqb c sep).
    + specialize (IH "").
      destruct (PyStr.split_go sep "" (s +:+ String sep t)) eqn:Hs;
        [by apply split_go_nonempty in Hs | done].
    + apply IH.
Qed.

Lemma string_of_uint_digits (d : Decimal.uint) :
  all_chars is_digit (NilEmpty.string_of_uint d) = true.
Proof. induction d; simpl; auto. Qed.

Lemma of_int_chars (P : ascii -> bool) (n : Z) :
  (forall c, is_digit c = true -> P c = true) -> P "-"%char = true ->
  all_chars P (PyStr.of_int n) = true.
Proof.
  intros Hd Hm. unfold PyStr.of_int.
  assert (forall d, all_chars P (NilZero.string_of_uint d) = true) as Hu.
  { intros d. destruct d; try (simpl; rewrite Hd by done);
      try apply (all_chars_impl is_digit P _ Hd), string_of_uint_digits; done. }
  destruct (Z.to_int n); simpl; [apply Hu | by rewrite Hm, Hu].
Qed.

Lemma digit_chars c :
  is_digit c = true ->
  differs "_" c = true /\ PyStr.int_space c = false
  /\ c <> "+"%char /\ c <> "-"%char.
Proof. by destruct c as [[] [] [] [] [] [] [] []]. Qed.

Lemma int_lstrip_id s :
  all_chars (fun c => negb (PyStr.int_space c)) s = true -> PyStr.int_lstrip s = s.
Proof.
  destruct s as [|c s]; simpl; [done|].
  intros [Hc _]%andb_prop. apply negb_true_iff in Hc. by rewrite Hc.
Qed.

Lemma int_strip_id s :
  all_chars (fun c => negb (PyStr.int_space c)) s = true -> PyStr.int_strip s = s.
Proof.
  intros Hs. unfold PyStr.int_strip.
  rewrite (int_lstrip_id s Hs), int_lstrip_id by by rewrite all_chars_rev.
  apply str_rev_involutive.
Qed.

Lemma digits_string_of_uint (d : Decimal.uint) :
  d <> Decimal.Nil ->
  PyStr.digits (NilZero.string_of_uint d) = Ok (Z.of_uint d).
Proof. intros Hd. unfold PyStr.digits. by rewrite NilZero.usu. Qed.

Lemma limited_digits_string_of_uint (d : Decimal.uint) :
  d <> Decimal.Nil ->
  Z.of_nat (String.length (NilZero.string_of_uint d)) <= PyStr.max_str_digits ->
  PyStr.limited_digits (NilZero.string_of_uint d) = Ok (Z.of_uint d).
Proof.
  intros Hd Hlen. unfold PyStr.limited_digits.
  destruct (Z.ltb_spec PyStr.max_str_digits
              (Z.of_nat (String.length (NilZero.string_of_uint d)))); [lia|].
  by apply digits_string_of_uint.
Qed.

(** Reading back what [str] printed, within the limit on the digits. *)
Lemma int_of_int (n : Z) :
  digit_count n <= PyStr.max_str_digits -> PyStr.int (PyStr.of_int n) = Ok n.
Proof.
  unfold digit_count. intros Hlen. unfold PyStr.int. rewrite int_strip_id.
  2:{ apply of_int_chars; [|done]. intros c Hc.
      apply digit_chars in Hc as (_ & -> & _). done. }
  unfold PyStr.of_int in *.
  assert (forall d, d <> Decimal.Nil ->
            Z.of_nat (String.length (NilZero.string_of_uint d))
            <= PyStr.max_str_digits ->
            match NilZero.string_of_uint d with
            | String "+" ds => PyStr.limited_digits ds
            | String "-" ds => Z.opp <$> PyStr.limited_digits ds
            | ds => PyStr.limited_digits ds
            end = Ok (Z.of_uint d)) as Hpos.
  { intros d Hd Hl. rewrite <- (limited_digits_string_of_uint d Hd Hl).
    by destruct d. }
  destruct n as [|p|p]; simpl in *.
  - done.
  - rewrite Hpos; [|apply Unsigned.to_uint_nonnil|done].
    unfold Z.of_uint. by rewrite Unsigned.of_to.
  - rewrite limited_digits_string_of_uint; [|apply Unsigned.to_uint_nonnil|done].
    unfold Z.of_uint. by rewrite Unsigned.of_to.
Qed.

(** Beyond the limit nothing is read back. *)
Lemma int_of_int_long (n : Z) :
  PyStr.max_str_digits < digit_count n -> PyStr.int (PyStr.of_int n) = Raise ValueError.
Proof.
  unfold digit_count. intros Hlen. unfold PyStr.int. rewrite int_strip_id.
  2:{ apply of_int_chars; [|done]. intros c Hc.
      apply digit_chars in Hc as (_ & -> & _). done. }
  unfold PyStr.of_int in *.
  assert (forall d,
            PyStr.max_str_digits
            < Z.of_nat (String.length (NilZero.string_of_uint d)) ->
            PyStr.limited_digits (NilZero.string_of_uint d) = Raise ValueError)
    as Hlong.
  { intros d Hl. unfold PyStr.limited_digits.
    by destruct (Z.ltb_spec PyStr.max_str_digits
                   (Z.of_nat (String.length (NilZero.string_of_uint d)))); [|lia]. }
  destruct n as [|p|p]; simpl in *.
  - unfold PyStr.max_str_digits in Hlen. lia.
  - rewrite <- (Hlong _ Hlen). by destruct (Pos.to_uint p).
  - by rewrite Hlong.
Qed.

(** [str] prints different integers differently. *)
Lemma of_int_inj (n n' : Z) : PyStr.of_int n = PyStr.of_int n' -> n = n'.
Proof.
  unfold PyStr.of_int. intros H.
  assert (forall z, Z.to_int z <> Decimal.Pos Decimal.Nil
                    /\ Z.to_int z <> Decimal.Neg Decimal.Nil) as Hnil.
  { intros [|p|p]; simpl; split; try done; intros [= Hp];
      by apply Unsigned.to_uint_nonnil in Hp. }
  apply (f_equal NilZero.int_of_string) in H.
  rewrite !NilZero.isi in H by apply Hnil.
  injection H as H. apply (f_equal Z.of_int) in H.
  by rewrite !DecimalZ.of_to in H.
Qed.

Lemma last_item_make_id (session_key : string) (msg_idx : Z) :
  PyStr.last_item (PyStr.split "_" (make_id session_key msg_idx))
  = PyStr.of_int msg_idx.
Proof.
  unfold make_id.
  change ("_" +:+ PyStr.of_int msg_idx) with (String "_" (PyStr.of_int msg_idx)).
  apply last_item_split.
  apply of_int_chars; [|done]. intros c Hc. by apply digit_chars in Hc as (-> & _).
Qed.

(** The sequence index of an id is read back whatever the session key,
    underscores included, when it is within the limit on the digits. *)
Lemma chrono_key_make_id (score : PyFloat.float) (d : Document)
    (session_key : string) (msg_idx : Z) :
  doc_id d = make_id session_key msg_idx ->
  digit_count msg_idx <= PyStr.max_str_digits ->
  chrono_key (score, d) = Ok msg_idx.
Proof.
  intros Hid Hlen. unfold chrono_key. simpl.
  rewrite Hid, last_item_make_id. by apply int_of_int.
Qed.

End Ids.

(** ** The ranker *)

Section Ranker.
Import PyFloat VectorDB.
Implicit Types (self : LocalVectorDB) (docs : list Document)
  (scored top : list (float * Document)) (qv : gmap string Z).

Lemma gtb_zero_floor : gtb zero relevance_floor = false.
Proof. reflexivity. Qed.

Lemma score_docs_Ok qv docs scored :
  score_docs qv docs = Ok scored ->
  Forall (fun x => _cosine_similarity qv (doc_vector x.2) = Ok x.1
                   /\ gtb x.1 relevance_floor = true) scored
  /\ snd <$> scored `sublist_of` docs.
Proof.
  revert scored. induction docs as [|d docs IH]; intros scored; simpl.
  - intros [= <-]. split; [constructor | done].
  - intros (r & Hr & (rest & Hrest & Hs)%bind_Ok)%bind_Ok.
    destruct (IH rest Hrest) as [IH1 IH2].
    destruct (gtb r relevance_floor) eqn:Hgt; injection Hs as <-.
    + split; [by constructor | by apply sublist_skip].
    + split; [done | by apply sublist_cons].
Qed.

Lemma score_docs_complete qv docs scored (d : Document) (r : float) :
  score_docs qv docs = Ok scored ->
  d ∈ docs -> _cosine_similarity qv (doc_vector d) = Ok r ->
  gtb r relevance_floor = true -> (r, d) ∈ scored.
Proof.
  revert scored. induction docs as [|d' docs IH]; intros scored; simpl.
  - intros _ Hd. by apply elem_of_nil in Hd.
  - intros (r' & Hr' & (rest & Hrest & Hs)%bind_Ok)%bind_Ok Hd Hr Hgt.
    apply elem_of_cons in Hd as [->|Hd].
    + rewrite Hr in Hr'. injection Hr' as <-. rewrite Hgt in Hs.
      injection Hs as <-. by left.
    + specialize (IH rest Hrest Hd Hr Hgt).
      destruct (gtb r' relevance_floor); injection Hs as <-; [by right | done].
Qed.

(** Without terms in the query no candidate survives. *)
Lemma score_docs_blank qv docs scored :
  sum_squares qv = 0 -> score_docs qv docs = Ok scored -> scored = [].
Proof.
  intros H0 Hs. apply score_docs_Ok in Hs as [Hs _].
  destruct Hs as [|x scored [Hr Hgt] _]; [done|].
  apply (_cosine_similarity_zero_l _ _ _ H0) in Hr.
  by rewrite Hr, gtb_zero_floor in Hgt.
Qed.

Lemma scored_docs_Ok self (session_key : string) qv scored :
  scored_docs self session_key qv = Ok scored ->
  Forall (fun x => x.2 ∈ documents self
                   /\ doc_session x.2 = session_key
                   /\ _cosine_similarity qv (doc_vector x.2) = Ok x.1
                   /\ gtb x.1 relevance_floor = true
                   /\ is_nan x.1 = false) scored.
Proof.
  unfold scored_docs, session_docs. intros [Hs Hsub]%score_docs_Ok.
  apply Forall_forall. intros x Hx.
  assert (x.2 ∈ filter (fun d => doc_session d = session_key) (documents self))
    as [Hk Hd]%list_elem_of_filter.
  { eapply sublist_subseteq; [done|]. by apply list_elem_of_fmap_2. }
  destruct (proj1 (Forall_forall _ _) Hs x Hx) as [Hr Hgt].
  split_and!; try done. by eapply _cosine_similarity_not_nan.
Qed.

(** The relevance sort permutes, orders and is stable. *)
Lemma by_relevance_perm scored : by_relevance scored ≡ₚ scored.
Proof. apply sort_perm. Qed.

Lemma by_relevance_descending scored :
  Forall (fun x => is_nan x.1 = false) scored ->
  StronglySorted (fun y z => ltb y.1 z.1 = false) (by_relevance scored).
Proof.
  apply (sort_reverse_descending ltb fst (fun k => is_nan k = false)).
  - apply ltb_asym.
  - intros i j k. apply ltb_negtrans.
Qed.

Lemma by_relevance_stable scored (a b : float * Document) :
  [a; b] `sublist_of` scored -> ltb a.1 b.1 = false ->
  [a; b] `sublist_of` by_relevance scored.
Proof. apply (sort_stable ltb fst true). Qed.

Lemma by_relevance_ties scored (c : float) :
  filter (fun x => eqb x.1 c = true) (by_relevance scored)
  = filter (fun x => eqb x.1 c = true) scored.
Proof.
  apply (sort_filter ltb fst true). intros y z Hy Hz.
  by apply (eqb_not_ltb _ _ c).
Qed.

Lemma slice_to_nonneg {B : Type} (k : Z) (l : list B) :
  0 <= k -> PyList.slice_to k l = take (Z.to_nat k) l.
Proof.
  intros Hk. unfold PyList.slice_to.
  by destruct (Z.ltb_spec k 0); [lia|].
Qed.

Lemma slice_to_prefix {B : Type} (k : Z) (l : list B) :
  PyList.slice_to k l `prefix_of` l.
Proof. unfold PyList.slice_to. destruct (k <? 0); apply prefix_take. Qed.

Lemma slice_to_length {B : Type} (k : Z) (l : list B) :
  0 <= k -> Z.of_nat (length (PyList.slice_to k l)) = Z.min k (Z.of_nat (length l)).
Proof. intros Hk. rewrite slice_to_nonneg, length_take by done. lia. Qed.

(** The chronological sort: the shape of a successful run. *)
Lemma chrono_sort_Ok top (out : list (float * Document)) :
  PyList.sort_result Z.ltb chrono_key false top = Ok out ->
  out ≡ₚ top
  /\ exists keys, map_result chrono_key out = Ok keys
                  /\ StronglySorted Z.le keys.
Proof.
  intros (keyed & Hsnd & Hkeys & ->)%sort_result_Ok. simpl. split.
  - by rewrite sort_keyed_perm, Hsnd.
  - exists (fst <$> PyList.sort_keyed Z.ltb keyed). split.
    + assert (Forall (fun x => chrono_key x.2 = Ok x.1)
                     (PyList.sort_keyed Z.ltb keyed)) as Hs
        by by rewrite sort_keyed_perm.
      induction Hs as [|x l Hx _ IH]; [done|].
      rewrite !fmap_cons. simpl. by rewrite Hx, IH.
    + eapply StronglySorted_fmap; last first.
      * apply (sort_keyed_ascending Z.ltb (fun _ => True)).
        -- intros j k. lia.
        -- intros i j k _. lia.
        -- by apply Forall_forall.
      * simpl. intros y z. lia.
Qed.

Lemma top_docs_Ok self (session_key : string) qv (top_k : Z) top :
  top_docs self session_key qv top_k = Ok top ->
  exists scored,
    scored_docs self session_key qv = Ok scored
    /\ top ≡ₚ PyList.slice_to top_k (by_relevance scored)
    /\ exists keys, map_result chrono_key top = Ok keys
                    /\ StronglySorted Z.le keys.
Proof.
  unfold top_docs. intros (scored & Hs & Hsort)%bind_Ok.
  apply chrono_sort_Ok in Hsort as [Hperm Hkeys]. by exists scored.
Qed.

(** Everything that a successful search guarantees: the records come,
    in order, from a list [top] of scored documents that is sorted by
    sequence number, is a rearrangement of the first [top_k] survivors
    by relevance, and holds stored documents of the session only. *)
Lemma search_messages_Ok self (session_key query : string) (top_k : Z)
    (out : list Retrieved) :
  search_messages self session_key query top_k = Ok out ->
  exists top keys,
    out = emit <$> top
    /\ map_result chrono_key top = Ok keys
    /\ StronglySorted Z.le keys
    /\ (forall scored,
          scored_docs self session_key (_tokenize query) = Ok scored ->
          top ≡ₚ PyList.slice_to top_k (by_relevance scored))
    /\ Forall (fun x => x.2 ∈ documents self
                        /\ doc_session x.2 = session_key
                        /\ _cosine_similarity (_tokenize query) (doc_vector x.2)
                           = Ok x.1
                        /\ gtb x.1 relevance_floor = true) top.
Proof.
  unfold search_messages.
  assert (forall scored, scored = [] ->
            @nil (float * Document) ≡ₚ PyList.slice_to top_k (by_relevance scored))
    as Hnil.
  { intros ? ->. unfold PyList.slice_to.
    change (by_relevance []) with (@nil (float * Document)).
    by destruct (top_k <? 0); rewrite take_nil. }
  assert (_tokenize query = ∅ ->
          Ok [] = Ok out ->
          exists top keys,
            out = emit <$> top
            /\ map_result chrono_key top = Ok keys
            /\ StronglySorted Z.le keys
            /\ (forall scored,
                  scored_docs self session_key (_tokenize query) = Ok scored ->
                  top ≡ₚ PyList.slice_to top_k (by_relevance scored))
            /\ Forall (fun x => x.2 ∈ documents self
                        /\ doc_session x.2 = session_key
                        /\ _cosine_similarity (_tokenize query) (doc_vector x.2)
                           = Ok x.1
                        /\ gtb x.1 relevance_floor = true) top) as Hblank.
  { intros He [= <-]. exists [], []. split_and!; try done; [constructor|].
    intros scored Hs. apply Hnil. unfold scored_docs in Hs.
    eapply score_docs_blank; [|done]. rewrite He. apply sum_squares_empty. }
  destruct (String.eqb_spec query "") as [->|_]; simpl.
  { by apply Hblank. }
  destruct (String.eqb_spec (PyStr.strip query) "") as [Hb|_]; simpl.
  { apply Hblank. by apply _tokenize_blank. }
  destruct (bool_decide_reflect (documents self = [])) as [Hd|_].
  { intros [= <-]. exists [], []. split_and!; try done; [constructor|].
    intros scored Hs. apply Hnil. unfold scored_docs, session_docs in Hs.
    rewrite Hd in Hs. simpl in Hs. by injection Hs as <-. }
  destruct (bool_decide_reflect (_tokenize query = ∅)) as [He|_].
  { by apply Hblank. }
  intros (top & Htop & [= <-])%bind_Ok.
  apply top_docs_Ok in Htop as (scored & Hs & Hperm & keys & Hk & Hsorted).
  exists top, keys. split_and!; try done.
  - intros scored' Hs'. rewrite Hs in Hs'. by injection Hs' as <-.
  - apply scored_docs_Ok in Hs. apply Forall_forall. intros x Hx.
    assert (x ∈ scored) as Hx'.
    { rewrite <- by_relevance_perm.
      eapply elem_of_prefix; [|apply (slice_to_prefix top_k)].
      by rewrite <- Hperm. }
    destruct (proj1 (Forall_forall _ _) Hs x Hx') as (? & ? & ? & ? & _).
    done.
Qed.

(** The two ways a search returns: at once and empty, or with the
    records, in order, of the documents that [top_docs] selected among
    the survivors of the scoring. *)
Lemma search_messages_cases self (session_key query : string) (top_k : Z)
    (out : list Retrieved) :
  search_messages self session_key query top_k = Ok out ->
  (out = [] /\ no_search self query)
  \/ exists scored top,
       scored_docs self session_key (_tokenize query) = Ok scored
       /\ top_docs self session_key (_tokenize query) top_k = Ok top
       /\ out = emit <$> top
       /\ top ≡ₚ PyList.slice_to top_k (by_relevance scored).
Proof.
  unfold search_messages, no_search.
  destruct (String.eqb_spec query "") as [->|_]; simpl.
  { intros [= <-]. left. auto. }
  destruct (String.eqb_spec (PyStr.strip query) "") as [Hb|_]; simpl.
  { intros [= <-]. left. auto. }
  destruct (bool_decide_reflect (documents self = [])) as [Hd|_].
  { intros [= <-]. left. auto. }
  destruct (bool_decide_reflect (_tokenize query = ∅)) as [He|_].
  { intros [= <-]. left. auto 6. }
  intros (top & Htop & [= <-])%bind_Ok. right.
  destruct (top_docs_Ok _ _ _ _ _ Htop) as (scored & Hs & Hperm & _).
  by exists scored, top.
Qed.

(** The selected documents are survivors. *)
Lemma top_docs_survivors self (session_key : string) qv (top_k : Z) scored top :
  scored_docs self session_key qv = Ok scored ->
  top ≡ₚ PyList.slice_to top_k (by_relevance scored) ->
  top ⊆ scored.
Proof.
  intros Hs Hperm x Hx. rewrite <- by_relevance_perm.
  eapply elem_of_prefix; [|apply (slice_to_prefix top_k)]. by rewrite <- Hperm.
Qed.

End Ranker.

(** ** The store *)

Section Store.
Import VectorDB.
Implicit Types (self : LocalVectorDB) (io : write_outcome) (msg : Message).

Lemma existsb_count_id (i : string) (docs : list Document) :
  existsb (fun d => String.eqb (doc_id d) i) docs = false <-> count_id i docs = 0%nat.
Proof.
  unfold count_id. induction docs as [|d docs IH]; simpl; [done|].
  rewrite filter_cons. destruct (String.eqb_spec (doc_id d) i).
  - rewrite decide_True by done. simpl. split; [discriminate | lia].
  - rewrite decide_False by done. simpl. apply IH.
Qed.


(** The two ways a call can end: nothing changes, or the new document
    is appended and the file written. *)
Lemma add_message_cases io self (session_key : string) msg (msg_idx : Z) :
  add_message io self session_key msg msg_idx = self
  \/ exists s,
       msg_content msg = Some (PStr s)
       /\ _tokenize (PyStr.strip s) <> ∅
       /\ count_id (make_id session_key msg_idx) (documents self) = 0%nat
       /\ add_message io self session_key msg msg_idx
          = _save_index io
              {| documents :=
                   documents self ++ [new_document session_key msg msg_idx s];
                 index_file := index_file self |}.
Proof.
  unfold add_message.
  destruct (msg_content msg) as [[s|]|]; [|by left..].
  destruct (String.eqb s ""); [by left|].
  destruct (String.eqb (PyStr.strip s) ""); [by left|].
  destruct (existsb _ _) eqn:Hex; [by left|].
  destruct (bool_decide_reflect (_tokenize (PyStr.strip s) = ∅)); [by left|].
  right. exists s. split_and!; try done. by apply existsb_count_id.
Qed.



Lemma documents_save io self : documents (_save_index io self) = documents self.
Proof. by destruct io. Qed.



(** The search reads the document list only. *)
Lemma search_messages_documents self self' (session_key query : string) (top_k : Z) :
  documents self = documents self' ->
  search_messages self session_key query top_k
  = search_messages self' session_key query top_k.
Proof.
  intros Hd. unfold search_messages, top_docs, scored_docs, session_docs.
  by rewrite Hd.
Qed.

Lemma init_in_sync (f : file) : in_sync (__init__ f).
Proof. unfold in_sync. by destruct f. Qed.

Lemma add_message_in_sync self (session_key : string) msg (msg_idx : Z) :
  in_sync self -> in_sync (add_message Written self session_key msg msg_idx).
Proof.
  intros Hs.
  destruct (add_message_cases Written self session_key msg msg_idx)
    as [->|(s & _ & _ & _ & ->)]; done.
Qed.

Lemma run_calls_in_sync self (cs : list call) :
  Forall (fun c => c.1.1.1 = Written) cs ->
  in_sync self -> in_sync (run_calls self cs).
Proof.
  intros Hcs. revert self. induction Hcs as [|c cs Hc _ IH]; intros self Hs;
    [done|].
  simpl. apply IH. unfold run_call. rewrite Hc. by apply add_message_in_sync.
Qed.

End Store.

(** * The claims *)

Section Claims.
Import PyFloat VectorDB Examples.

(** C1. Session isolation: for distinct session keys A and B and any
    query, the records of a search in A come from stored documents whose
    session field is A, never B; the candidates that are scored are the
    stored documents of session A only. *)
Theorem session_isolation (self : LocalVectorDB) (A B query : string)
    (top_k : Z) (out : list Retrieved) :
  A <> B ->
  search_messages self A query top_k = Ok out ->
  Forall (fun d => d ∈ documents self /\ doc_session d = A /\ doc_session d <> B)
         (session_docs self A)
  /\ exists top,
       out = emit <$> top
       /\ Forall (fun x => x.2 ∈ documents self
                           /\ doc_session x.2 = A /\ doc_session x.2 <> B) top.
Proof.
  intros HAB Hs. split.
  - apply Forall_forall. intros d [Hd Hin]%list_elem_of_filter.
    split_and!; [done..|congruence].
  - apply search_messages_Ok in Hs as (top & keys & -> & _ & _ & _ & Htop).
    exists top. split; [done|].
    eapply Forall_impl; [done|]. simpl. intros x (Hin & Hx & _).
    split_and!; [done..|congruence].
Qed.

Lemma session_isolation_witness :
  Forall (fun d => d ∈ documents two_sessions
                   /\ doc_session d = "s1" /\ doc_session d <> "s2")
         (session_docs two_sessions "s1")
  /\ exists top,
       [{| role := "user";
           content := "[From Past Context]: I like apples and oranges";
           is_from_vector := true |}] = emit <$> top
       /\ Forall (fun x => x.2 ∈ documents two_sessions
                           /\ doc_session x.2 = "s1"
                           /\ doc_session x.2 <> "s2") top.
Proof.
  apply (session_isolation two_sessions "s1" "s2" "apples" 4);
    [discriminate | vm_compute; reflexivity].
Defined.

(** C4. Relevance floor: the floor is the float nearest to 1/20, the
    value of the literal 0.05.  A search that goes as far as the scoring
    returns the records of the documents that [top_docs] selected, which
    are among the survivors of the scoring; every survivor is a stored
    document of the session whose similarity to the query is strictly
    greater than the floor, neither less nor equal; a document whose
    similarity is less than or equal to the floor is neither a survivor
    nor selected, and a document of the session whose similarity is
    greater is a survivor. *)
Theorem relevance_floor_strict (self : LocalVectorDB)
    (session_key query : string) (top_k : Z) (out : list Retrieved) :
  search_messages self session_key query top_k = Ok out ->
  of_int 20 ≫= int_truediv 1 = Ok relevance_floor
  /\ ((out = [] /\ no_search self query)
      \/ exists scored top,
           scored_docs self session_key (_tokenize query) = Ok scored
           /\ top_docs self session_key (_tokenize query) top_k = Ok top
           /\ out = emit <$> top
           /\ top ⊆ scored
           /\ Forall (fun x =>
                        x.2 ∈ documents self
                        /\ doc_session x.2 = session_key
                        /\ _cosine_similarity (_tokenize query) (doc_vector x.2)
                           = Ok x.1
                        /\ gtb x.1 relevance_floor = true
                        /\ leb x.1 relevance_floor = false
                        /\ eqb x.1 relevance_floor = false) scored
           /\ (forall (d : Document) (r : float),
                 _cosine_similarity (_tokenize query) (doc_vector d) = Ok r ->
                 leb r relevance_floor = true ->
                 (d ∉ snd <$> scored) /\ (d ∉ snd <$> top))
           /\ (forall (d : Document) (r : float),
                 d ∈ documents self -> doc_session d = session_key ->
                 _cosine_similarity (_tokenize query) (doc_vector d) = Ok r ->
                 gtb r relevance_floor = true ->
                 (r, d) ∈ scored)).
Proof.
  intros Hs. split; [by vm_compute|].
  destruct (search_messages_cases _ _ _ _ _ Hs)
    as [?|(scored & top & Hscored & Htop & -> & Hperm)]; [by left|].
  right. exists scored, top.
  pose proof (top_docs_survivors _ _ _ _ _ _ Hscored Hperm) as Hsub.
  pose proof (scored_docs_Ok _ _ _ _ Hscored) as Hall.
  assert (forall (d : Document) (r : float),
            _cosine_similarity (_tokenize query) (doc_vector d) = Ok r ->
            leb r relevance_floor = true -> d ∉ snd <$> scored) as Hout.
  { intros d r Hr Hle (x & -> & Hx)%list_elem_of_fmap.
    destruct (proj1 (Forall_forall _ _) Hall x Hx) as (_ & _ & Hr' & Hgt & _).
    rewrite Hr in Hr'. injection Hr' as ->.
    apply leb_not_gtb in Hle. congruence. }
  split_and!; try done.
  - eapply Forall_impl; [done|]. simpl. intros x (Hin & Hk & Hr & Hgt & _).
    pose proof (gtb_not_leb _ _ Hgt) as Hle. split_and!; try done.
    revert Hle. unfold leb, eqb, SFleb, SFeqb.
    by destruct (SFcompare x.1 relevance_floor) as [[]|].
  - intros d r Hr Hle. split; [by eapply Hout|].
    intros (x & -> & Hx)%list_elem_of_fmap.
    eapply (Hout x.2 r Hr Hle). apply list_elem_of_fmap. exists x.
    split; [done | by apply Hsub].
  - intros d r Hd Hk Hr Hgt. unfold scored_docs in Hscored.
    eapply score_docs_complete; [done| |done..].
    unfold session_docs. by apply list_elem_of_filter.
Qed.

Lemma relevance_floor_strict_witness :
  of_int 20 ≫= int_truediv 1 = Ok relevance_floor
  /\ (([{| role := "user";
           content := "[From Past Context]: I like apples and oranges";
           is_from_vector := true |}] = []
       /\ no_search two_sessions "apples")
      \/ exists scored top,
           scored_docs two_sessions "s1" (_tokenize "apples") = Ok scored
           /\ top_docs two_sessions "s1" (_tokenize "apples") 4 = Ok top
           /\ [{| role := "user";
                  content := "[From Past Context]: I like apples and oranges";
                  is_from_vector := true |}] = emit <$> top
           /\ top ⊆ scored
           /\ Forall (fun x =>
                        x.2 ∈ documents two_sessions
                        /\ doc_session x.2 = "s1"
                        /\ _cosine_similarity (_tokenize "apples") (doc_vector x.2)
                           = Ok x.1
                        /\ gtb x.1 relevance_floor = true
                        /\ leb x.1 relevance_floor = false
                        /\ eqb x.1 relevance_floor = false) scored
           /\ (forall (d : Document) (r : float),
                 _cosine_similarity (_tokenize "apples") (doc_vector d) = Ok r ->
                 leb r relevance_floor = true ->
                 (d ∉ snd <$> scored) /\ (d ∉ snd <$> top))
           /\ (forall (d : Document) (r : float),
                 d ∈ documents two_sessions -> doc_session d = "s1" ->
                 _cosine_similarity (_tokenize "apples") (doc_vector d) = Ok r ->
                 gtb r relevance_floor = true ->
                 (r, d) ∈ scored)).
Proof.
  apply (relevance_floor_strict two_sessions "s1" "apples" 4).
  vm_compute. reflexivity.
Defined.

(** A candidate whose similarity is exactly 0.05 is dropped. *)
Example at_floor_dropped :
  (d ← head (documents at_floor);
   Some (_cosine_similarity (_tokenize "aaa") (doc_vector d)))
  = Some (Ok lit_0_05)
  /\ search_messages at_floor "s1" "aaa" 4 = Ok [].
Proof. split; vm_compute; reflexivity. Qed.

Lemma search_messages_length (self : LocalVectorDB)
    (session_key query : string) (top_k : Z) (out : list Retrieved) :
  0 <= top_k ->
  search_messages self session_key query top_k = Ok out ->
  Z.of_nat (length out) <= top_k.
Proof.
  intros Hk. unfold search_messages.
  destruct (_ || _ || _); [intros [= <-]; simpl; lia|].
  destruct (bool_decide _); [intros [= <-]; simpl; lia|].
  intros (top & Htop & [= <-])%bind_Ok.
  apply top_docs_Ok in Htop as (scored & _ & Hperm & _).
  rewrite length_map, Hperm, slice_to_length by done. lia.
Qed.

Lemma filter_prefix {B : Type} (Q : B -> Prop) `{!forall x, Decision (Q x)}
    (l1 l2 : list B) :
  l1 `prefix_of` l2 -> filter Q l1 `prefix_of` filter Q l2.
Proof. intros [l ->]. rewrite filter_app. by apply prefix_app_r. Qed.

Lemma eqb_ltb (x y : float) : eqb x y = true -> ltb x y = false.
Proof.
  unfold eqb, ltb, SFeqb, SFltb. by destruct (SFcompare x y) as [[]|].
Qed.

(** C5. Top-K: for every k >= 0 a search returns at most k records (the
    default k is 4).  The records come from the first k survivors of the
    descending relevance sort, all of them when there are fewer than k:
    no survivor left out has a similarity strictly greater than a
    selected one.  The truncation applies to the list sorted by
    relevance, and the chronological sort only rearranges the selected
    ones. *)
Theorem top_k_contract (self : LocalVectorDB) (session_key query : string)
    (top_k : Z) (out : list Retrieved) :
  0 <= top_k ->
  search_messages self session_key query top_k = Ok out ->
  Z.of_nat (length out) <= top_k
  /\ default_top_k = 4
  /\ forall scored,
       scored_docs self session_key (_tokenize query) = Ok scored ->
       exists top rest,
         out = emit <$> top
         /\ top ≡ₚ take (Z.to_nat top_k) (by_relevance scored)
         /\ top ++ rest ≡ₚ scored
         /\ Z.of_nat (length top) = Z.min top_k (Z.of_nat (length scored))
         /\ forall x y, x ∈ top -> y ∈ rest -> ltb x.1 y.1 = false.
Proof.
  intros Hk Hs. split; [by eapply search_messages_length|]. split; [done|].
  intros scored Hscored.
  apply search_messages_Ok in Hs as (top & keys & -> & _ & _ & Hperm & _).
  specialize (Hperm scored Hscored). rewrite slice_to_nonneg in Hperm by done.
  exists top, (drop (Z.to_nat top_k) (by_relevance scored)).
  split_and!; try done.
  - by rewrite Hperm, take_drop, by_relevance_perm.
  - rewrite Hperm, length_take, by_relevance_perm. lia.
  - intros x y Hx Hy. rewrite Hperm in Hx.
    apply (StronglySorted_app_1_elem_of
             (fun y z => ltb y.1 z.1 = false)
             (take (Z.to_nat top_k) (by_relevance scored))
             (drop (Z.to_nat top_k) (by_relevance scored))); [|done..].
    rewrite take_drop. apply by_relevance_descending.
    apply scored_docs_Ok in Hscored.
    eapply Forall_impl; [done|]. simpl. by intros z (_ & _ & _ & _ & Hz).
Qed.

Lemma top_k_contract_witness :
  Z.of_nat (length (A := Retrieved)
    [{| role := "user";
        content := "[From Past Context]: apples apples apples";
        is_from_vector := true |};
     {| role := "user";
        content := "[From Past Context]: Apples!";
        is_from_vector := true |}]) <= 2
  /\ default_top_k = 4
  /\ forall scored,
       scored_docs fruit_log "chat_a" (_tokenize "apples") = Ok scored ->
       exists top rest,
         [{| role := "user";
             content := "[From Past Context]: apples apples apples";
             is_from_vector := true |};
          {| role := "user";
             content := "[From Past Context]: Apples!";
             is_from_vector := true |}] = emit <$> top
         /\ top ≡ₚ take (Z.to_nat 2) (by_relevance scored)
         /\ top ++ rest ≡ₚ scored
         /\ Z.of_nat (length top) = Z.min 2 (Z.of_nat (length scored))
         /\ forall x y, x ∈ top -> y ∈ rest -> ltb x.1 y.1 = false.
Proof.
  apply (top_k_contract fruit_log "chat_a" "apples" 2);
    [lia | vm_compute; reflexivity].
Defined.

(** C6. Chronological order: a search that goes as far as the scoring
    returns the records, in order, of the documents that [top_docs]
    selected, a rearrangement of the first [top_k] survivors by
    relevance; the sequence numbers read from the ids of these
    documents, each the integer after the last underscore of the id, are
    non-decreasing along the output.  The number read from an id built
    from a session key and an index is that index, underscores in the
    session key or not, as long as the index has no more digits than
    [int] accepts. *)
Theorem chronological_order (self : LocalVectorDB) (session_key query : string)
    (top_k : Z) (out : list Retrieved) :
  search_messages self session_key query top_k = Ok out ->
  ((out = [] /\ no_search self query)
   \/ exists scored top keys,
        scored_docs self session_key (_tokenize query) = Ok scored
        /\ top_docs self session_key (_tokenize query) top_k = Ok top
        /\ out = emit <$> top
        /\ top ≡ₚ PyList.slice_to top_k (by_relevance scored)
        /\ Forall2 (fun x k =>
                      PyStr.int (PyStr.last_item (PyStr.split "_" (doc_id x.2)))
                      = Ok k) top keys
        /\ StronglySorted Z.le keys)
  /\ (forall (score : float) (d : Document) (key : string) (msg_idx : Z),
        doc_id d = make_id key msg_idx ->
        digit_count msg_idx <= PyStr.max_str_digits ->
        chrono_key (score, d) = Ok msg_idx).
Proof.
  intros Hs. split.
  - destruct (search_messages_cases _ _ _ _ _ Hs)
      as [?|(scored & top & Hscored & Htop & -> & Hperm)]; [by left|].
    right.
    destruct (top_docs_Ok _ _ _ _ _ Htop) as (scored' & Hs' & _ & keys & Hk & Hsorted).
    exists scored, top, keys. split_and!; try done.
    by apply map_result_Ok in Hk.
  - intros score d key msg_idx. apply chrono_key_make_id.
Qed.

Lemma chronological_order_witness :
  (([{| role := "user";
        content := "[From Past Context]: apples pears";
        is_from_vector := true |};
     {| role := "user";
        content := "[From Past Context]: apples apples apples";
        is_from_vector := true |};
     {| role := "user";
        content := "[From Past Context]: Apples!";
        is_from_vector := true |}] = []
    /\ no_search fruit_log "apples")
   \/ exists scored top keys,
        scored_docs fruit_log "chat_a" (_tokenize "apples") = Ok scored
        /\ top_docs fruit_log "chat_a" (_tokenize "apples") 3 = Ok top
        /\ [{| role := "user";
               content := "[From Past Context]: apples pears";
               is_from_vector := true |};
            {| role := "user";
               content := "[From Past Context]: apples apples apples";
               is_from_vector := true |};
            {| role := "user";
               content := "[From Past Context]: Apples!";
               is_from_vector := true |}] = emit <$> top
        /\ top ≡ₚ PyList.slice_to 3 (by_relevance scored)
        /\ Forall2 (fun x k =>
                      PyStr.int (PyStr.last_item (PyStr.split "_" (doc_id x.2)))
                      = Ok k) top keys
        /\ StronglySorted Z.le keys)
  /\ (forall (score : float) (d : Document) (key : string) (msg_idx : Z),
        doc_id d = make_id key msg_idx ->
        digit_count msg_idx <= PyStr.max_str_digits ->
        chrono_key (score, d) = Ok msg_idx).
Proof.
  apply (chronological_order fruit_log "chat_a" "apples" 3).
  vm_compute. reflexivity.
Defined.

(** C10. Ties: the relevance sort compares scores only and is stable.
    The surviving candidates are listed in store insertion order; of two
    candidates with equal scores the one inserted first stays first in
    the sorted list; the candidates of one score keep their order, and
    those among them that pass the truncation are the earliest inserted.
    The result is a function of the store content, the session, the query
    and top_k. *)
Theorem relevance_ties_keep_insertion_order (self : LocalVectorDB)
    (session_key query : string) (top_k : Z) (scored : list (float * Document)) :
  scored_docs self session_key (_tokenize query) = Ok scored ->
  snd <$> scored `sublist_of` documents self
  /\ (forall a b, [a; b] `sublist_of` scored -> eqb a.1 b.1 = true ->
                  [a; b] `sublist_of` by_relevance scored)
  /\ (forall c, filter (fun x => eqb x.1 c = true) (by_relevance scored)
                = filter (fun x => eqb x.1 c = true) scored)
  /\ (forall c, filter (fun x => eqb x.1 c = true)
                       (PyList.slice_to top_k (by_relevance scored))
                `prefix_of` filter (fun x => eqb x.1 c = true) scored)
  /\ (forall out, search_messages self session_key query top_k = Ok out ->
         exists top, out = emit <$> top
                     /\ top ≡ₚ PyList.slice_to top_k (by_relevance scored)).
Proof.
  intros Hs. split_and!.
  - unfold scored_docs, session_docs in Hs. apply score_docs_Ok in Hs as [_ Hsub].
    etrans; [done|]. apply sublist_filter.
  - intros a b Hab Heq. apply by_relevance_stable; [done | by apply eqb_ltb].
  - apply by_relevance_ties.
  - intros c. rewrite <- (by_relevance_ties scored c).
    apply filter_prefix, slice_to_prefix.
  - intros out Hout.
    apply search_messages_Ok in Hout as (top & keys & -> & _ & _ & Hperm & _).
    exists top. split; [done | by apply Hperm].
Qed.

Lemma relevance_ties_keep_insertion_order_witness :
  snd <$> fruit_scored `sublist_of` documents fruit_log
  /\ (forall a b, [a; b] `sublist_of` fruit_scored -> eqb a.1 b.1 = true ->
                  [a; b] `sublist_of` by_relevance fruit_scored)
  /\ (forall c, filter (fun x => eqb x.1 c = true) (by_relevance fruit_scored)
                = filter (fun x => eqb x.1 c = true) fruit_scored)
  /\ (forall c, filter (fun x => eqb x.1 c = true)
                       (PyList.slice_to 3 (by_relevance fruit_scored))
                `prefix_of` filter (fun x => eqb x.1 c = true) fruit_scored)
  /\ (forall out, search_messages fruit_log "chat_a" "apples" 3 = Ok out ->
         exists top, out = emit <$> top
                     /\ top ≡ₚ PyList.slice_to 3 (by_relevance fruit_scored)).
Proof.
  apply (relevance_ties_keep_insertion_order fruit_log "chat_a" "apples" 3).
  vm_compute. reflexivity.
Defined.

(** In [fruit_log] the documents 0 and 2 tie, as do 1 and 3; with
    [top_k = 3] the tie between 0 and 2 is won by 0. *)
Example fruit_log_ties :
  (doc_id ∘ snd) <$> by_relevance fruit_scored
  = ["chat_a_1"; "chat_a_3"; "chat_a_0"; "chat_a_2"]
  /\ fmap (M := result) (fmap (M := list) content)
          (search_messages fruit_log "chat_a" "apples" 3)
     = Ok ["[From Past Context]: apples pears";
           "[From Past Context]: apples apples apples";
           "[From Past Context]: Apples!"].
Proof. split; vm_compute; reflexivity. Qed.





(** C8. Round trip: after any sequence of calls of [add_message] on a
    freshly constructed store, all writes succeeding, a fresh store
    constructed over the same file holds the same document list, and
    every search on it returns what the same search returns on the
    original. *)
Theorem reload_round_trip (f : file) (cs : list call) :
  Forall (fun c => c.1.1.1 = Written) cs ->
  let db := run_calls (__init__ f) cs in
  let fresh := __init__ (index_file db) in
  documents fresh = documents db
  /\ forall (session_key query : string) (top_k : Z),
       search_messages fresh session_key query top_k
       = search_messages db session_key query top_k.
Proof.
  intros Hcs. simpl.
  pose proof (run_calls_in_sync (__init__ f) cs Hcs (init_in_sync f)) as Hsync.
  split; [done|]. intros. by apply search_messages_documents.
Qed.

Lemma reload_round_trip_witness :
  documents
    (__init__
       (index_file
          (run_calls (__init__ Unreadable)
             [(Written, "s1", user_msg "I like apples and oranges", 0);
              (Written, "s1", short_msg, 1);
              (Written, "s1", user_msg "I like apples and oranges", 0);
              (Written, "s2", user_msg "I dislike bananas", 0)])))
  = documents
      (run_calls (__init__ Unreadable)
         [(Written, "s1", user_msg "I like apples and oranges", 0);
          (Written, "s1", short_msg, 1);
          (Written, "s1", user_msg "I like apples and oranges", 0);
          (Written, "s2", user_msg "I dislike bananas", 0)])
  /\ forall (session_key query : string) (top_k : Z),
       search_messages
         (__init__
            (index_file
               (run_calls (__init__ Unreadable)
                  [(Written, "s1", user_msg "I like apples and oranges", 0);
                   (Written, "s1", short_msg, 1);
                   (Written, "s1", user_msg "I like apples and oranges", 0);
                   (Written, "s2", user_msg "I dislike bananas", 0)])))
         session_key query top_k
       = search_messages
           (run_calls (__init__ Unreadable)
              [(Written, "s1", user_msg "I like apples and oranges", 0);
               (Written, "s1", short_msg, 1);
               (Written, "s1", user_msg "I like apples and oranges", 0);
               (Written, "s2", user_msg "I dislike bananas", 0)])
           session_key query top_k.
Proof.
  apply (reload_round_trip Unreadable
           [(Written, "s1", user_msg "I like apples and oranges", 0);
            (Written, "s1", short_msg, 1);
            (Written, "s1", user_msg "I like apples and oranges", 0);
            (Written, "s2", user_msg "I dislike bananas", 0)]).
  repeat constructor.
Defined.



(** C7. The tokenizer is a function of the text alone.  The tokens are
    the maximal runs of word characters of the lower-cased text; each
    token of more than two characters is mapped to the number of its
    occurrences, and nothing else is a key: no key has two characters or
    fewer, and the mapping is empty exactly when no token survives. *)
Theorem tokenize_spec (text : string) :
  (forall toks,
     word_runs (PyStr.lower text) toks
     <-> toks = PyStr.findall_word (PyStr.lower text))
  /\ (forall w,
        _tokenize text !! w
        = let n := occurrences w
                     (surviving (PyStr.findall_word (PyStr.lower text))) in
          if decide (n = 0) then None else Some n)
  /\ (forall w, is_Some (_tokenize text !! w) -> (2 < String.length w)%nat)
  /\ (_tokenize text = ∅
      <-> surviving (PyStr.findall_word (PyStr.lower text)) = []).
Proof.
  split_and!.
  - intros toks. split; [apply word_runs_findall|].
    intros ->. apply findall_word_runs.
  - intros w. apply _tokenize_lookup.
  - intros w. apply _tokenize_key_length.
  - apply _tokenize_empty.
Qed.

(** The tokens of a sentence, and the vector built from them. *)
Example tokenize_sentence :
  PyStr.findall_word (PyStr.lower "I like Apples, and_or apples: ok!")
  = ["i"; "like"; "apples"; "and_or"; "apples"; "ok"]
  /\ _tokenize "I like Apples, and_or apples: ok!"
     = <["like" := 1]> (<["apples" := 2]> (<["and_or" := 1]> ∅))
  /\ _tokenize "I am ok" = ∅.
Proof. split_and!; vm_compute; reflexivity. Qed.




Lemma score_docs_total (qv : gmap string Z) (docs : list Document) :
  Forall (fun d => exists r, _cosine_similarity qv (doc_vector d) = Ok r) docs ->
  exists scored, score_docs qv docs = Ok scored.
Proof.
  induction 1 as [|d docs [r Hr] _ [scored IH]]; simpl; [by eexists|].
  rewrite Hr, IH. simpl. by eexists.
Qed.

(** A search returns normally when every document of the session can be
    scored (no sum of squares is too large for a float) and every stored
    id ends in an integer, as the ids built by [add_message] do. *)
Lemma search_messages_total (self : LocalVectorDB) (session_key query : string)
    (top_k : Z) :
  Forall (fun d => exists r,
            _cosine_similarity (_tokenize query) (doc_vector d) = Ok r)
         (session_docs self session_key) ->
  Forall (fun d => exists n (score : float), chrono_key (score, d) = Ok n)
         (documents self) ->
  exists out, search_messages self session_key query top_k = Ok out.
Proof.
  intros Hscore Hid. unfold search_messages.
  destruct (_ || _ || _); [by eexists|].
  destruct (bool_decide _); [by eexists|].
  unfold top_docs.
  destruct (score_docs_total _ _ Hscore) as [scored Hs].
  unfold scored_docs at 1. rewrite Hs. simpl.
  destruct (sort_result_total Z.ltb chrono_key false
              (PyList.slice_to top_k (by_relevance scored))) as [top ->];
    [|by eexists].
  apply Forall_forall. intros x Hx.
  assert (x ∈ scored) as Hx'.
  { rewrite <- by_relevance_perm.
    by eapply elem_of_prefix; [|apply (slice_to_prefix top_k)]. }
  apply (scored_docs_Ok self session_key) in Hs.
  destruct (proj1 (Forall_forall _ _) Hs x Hx') as (Hin & _).
  destruct (proj1 (Forall_forall _ _) Hid x.2 Hin) as (n & score & Hn).
  exists n. by destruct x.
Qed.

(** The scenarios of the specification: one record for the query
    ["apples"], with the prefix; a whitespace-only message is not
    stored; an empty query returns nothing; the same sentence in two
    sessions is returned in each, once. *)
Example scenarios :
  search_messages two_sessions "s1" "apples" default_top_k
  = Ok [{| role := "user";
           content := "[From Past Context]: I like apples and oranges";
           is_from_vector := true |}]
  /\ add_message Written two_sessions "s1" (user_msg "  ") 2 = two_sessions
  /\ search_messages two_sessions "s1" "" default_top_k = Ok []
  /\ search_messages two_sessions "s2" "apples" default_top_k
     = Ok [{| role := "user";
              content := "[From Past Context]: I like apples and oranges";
              is_from_vector := true |}].
Proof. split_and!; vm_compute; reflexivity. Qed.

End Claims.

(** * Further properties of the store and the ranker *)

Section StoreInvariants.
Import PyFloat VectorDB Examples Inv.
Implicit Types (self : LocalVectorDB) (io : write_outcome) (msg : Message).

Lemma str_app_inv_r (s t u : string) : s +:+ u = t +:+ u -> s = t.
Proof.
  intros H. apply (f_equal String.rev) in H. rewrite !str_rev_app in H.
  apply (inj (String.app (String.rev u))) in H.
  by rewrite <- (str_rev_involutive s), H, str_rev_involutive.
Qed.

(** X1. An id determines the session key and the index it was made of:
    two different pairs never get the same id, whatever underscores the
    session keys hold. *)
Theorem make_id_inj (key key' : string) (msg_idx msg_idx' : Z) :
  make_id key msg_idx = make_id key' msg_idx' ->
  key = key' /\ msg_idx = msg_idx'.
Proof.
  intros Hid.
  assert (msg_idx = msg_idx') as <-.
  { apply of_int_inj.
    by rewrite <- (last_item_make_id key msg_idx), Hid, last_item_make_id. }
  split; [|done].
  unfold make_id in Hid. rewrite <- !str_app_assoc in Hid.
  apply str_app_inv_r in Hid. by apply str_app_inv_r in Hid.
Qed.

Lemma make_id_inj_witness :
  "chat_a" = "chat_a" /\ 12 = 12.
Proof. apply (make_id_inj "chat_a" "chat_a" 12 12). reflexivity. Defined.

Lemma count_id_not_elem (i : string) (docs : list Document) :
  count_id i docs = 0%nat <-> i ∉ doc_id <$> docs.
Proof.
  unfold count_id. induction docs as [|d docs IH].
  { split; [intros _; apply not_elem_of_nil | done]. }
  rewrite filter_cons, fmap_cons, not_elem_of_cons.
  destruct (decide (doc_id d = i)) as [->|Hne]; simpl.
  - split; [lia | by intros [? _]].
  - rewrite IH. split; [by intros ? | by intros [_ ?]].
Qed.

Lemma add_message_unique_ids io self (session_key : string) msg (msg_idx : Z) :
  unique_ids (documents self) ->
  unique_ids (documents (add_message io self session_key msg msg_idx)).
Proof.
  intros Hu.
  destruct (add_message_cases io self session_key msg msg_idx)
    as [->|(s & _ & _ & Hid & ->)]; [done|].
  rewrite documents_save. simpl. unfold unique_ids.
  rewrite fmap_app. apply NoDup_app. split_and!; [done| |apply NoDup_singleton].
  intros i Hi ->%list_elem_of_singleton.
  by apply count_id_not_elem in Hid.
Qed.

(** X2. Ids stay unique: a call appends a document only when no stored
    document has its id, so no sequence of calls, whatever the writes
    do, gives two documents one id. *)
Theorem run_calls_unique_ids self (cs : list call) :
  unique_ids (documents self) -> unique_ids (documents (run_calls self cs)).
Proof.
  revert self. induction cs as [|c cs IH]; intros self Hu; [done|].
  simpl. apply IH. by apply add_message_unique_ids.
Qed.

Lemma run_calls_unique_ids_witness :
  unique_ids
    (documents
       (run_calls two_sessions
          [(disk_full, "s1", user_msg "apples again", 0);
           (Written, "s1", user_msg "apples again", 7)])).
Proof.
  apply (run_calls_unique_ids two_sessions
           [(disk_full, "s1", user_msg "apples again", 0);
            (Written, "s1", user_msg "apples again", 7)]).
  apply (bool_decide_unpack _). vm_compute. exact I.
Defined.

(** X3. The store is append-only: a sequence of calls leaves the documents
    that were stored where they were, unchanged, and adds at most one
    document for each call. *)
Theorem run_calls_append_only self (cs : list call) :
  documents self `prefix_of` documents (run_calls self cs)
  /\ (length (documents (run_calls self cs))
      <= length (documents self) + length cs)%nat.
Proof.
  revert self. induction cs as [|c cs IH]; intros self; simpl.
  - split; [done | lia].
  - destruct (IH (run_call self c)) as [Hp Hl].
    assert (documents self `prefix_of` documents (run_call self c)
            /\ (length (documents (run_call self c))
                <= S (length (documents self)))%nat) as [Hp' Hl'].
    { unfold run_call.
      destruct (add_message_cases c.1.1.1 self c.1.1.2 c.1.2 c.2)
        as [->|(s & _ & _ & _ & ->)]; [split; [done | lia]|].
      rewrite documents_save. simpl. split; [by apply prefix_app_r|].
      rewrite length_app. simpl. lia. }
    split; [by etrans | lia].
Qed.

(** A message that is not indexable, or whose id is taken, changes
    neither the document list nor the file: nothing is written,
    whatever the write would have done. *)
Theorem add_message_rejects io self (session_key : string) msg (msg_idx : Z) :
  ~ indexable msg
  \/ count_id (make_id session_key msg_idx) (documents self) <> 0%nat ->
  add_message io self session_key msg msg_idx = self.
Proof.
  intros Hrej.
  destruct (add_message_cases io self session_key msg msg_idx)
    as [H|(s & Hc & Hv & Hid & _)]; [done|].
  destruct Hrej as [Hn|Hn]; [|done]. destruct Hn. by exists s.
Qed.

Lemma add_message_rejects_witness :
  add_message disk_full two_sessions "s1"
    {| msg_content := Some (POther true); msg_role := None |} 5
  = two_sessions.
Proof.
  apply (add_message_rejects disk_full two_sessions "s1"
           {| msg_content := Some (POther true); msg_role := None |} 5).
  left. intros (s & Hs & _). discriminate Hs.
Defined.

End StoreInvariants.

Section Trimming.
Implicit Types (s t : string) (c : ascii).

Lemma lstrip_idem s : PyStr.lstrip (PyStr.lstrip s) = PyStr.lstrip s.
Proof.
  induction s as [|c s IH]; [done|]. simpl.
  destruct (PyStr.isspace c) eqn:Hc; [done|]. simpl. by rewrite Hc.
Qed.

Lemma lstrip_snoc s c :
  PyStr.isspace c = false ->
  exists t, PyStr.lstrip (s +:+ String c "") = t +:+ String c "".
Proof.
  intros Hc. induction s as [|a s [t IH]].
  - exists "". rewrite !str_app_nil_l. simpl. by rewrite Hc.
  - rewrite str_app_cons. simpl. destruct (PyStr.isspace a).
    + by exists t.
    + by exists (String a s).
Qed.

Lemma rstrip_head c s :
  PyStr.isspace c = false -> exists t, PyStr.rstrip (String c s) = String c t.
Proof.
  intros Hc. unfold PyStr.rstrip. rewrite str_rev_cons.
  destruct (lstrip_snoc (String.rev s) c Hc) as [t ->].
  exists (String.rev t). by rewrite str_rev_app.
Qed.

Lemma rstrip_idem s : PyStr.rstrip (PyStr.rstrip s) = PyStr.rstrip s.
Proof. unfold PyStr.rstrip. by rewrite str_rev_involutive, lstrip_idem. Qed.

(** Trimming twice is trimming once. *)
Lemma strip_idem s : PyStr.strip (PyStr.strip s) = PyStr.strip s.
Proof.
  unfold PyStr.strip.
  destruct (PyStr.lstrip s) as [|c t] eqn:Hl; [done|].
  pose proof (lstrip_head s c t Hl) as Hc.
  destruct (rstrip_head c t Hc) as [t' Ht']. rewrite Ht'. simpl. rewrite Hc.
  by rewrite <- Ht', rstrip_idem.
Qed.

Lemma lower_char_idem c :
  PyStr.lower_char (PyStr.lower_char c) = PyStr.lower_char c.
Proof. by destruct c as [[] [] [] [] [] [] [] []]. Qed.

Lemma lower_char_isspace c :
  PyStr.isspace (PyStr.lower_char c) = PyStr.isspace c.
Proof. by destruct c as [[] [] [] [] [] [] [] []]. Qed.

Lemma lower_idem s : PyStr.lower (PyStr.lower s) = PyStr.lower s.
Proof. induction s as [|c s IH]; simpl; [done|]. by rewrite lower_char_idem, IH. Qed.

Lemma all_chars_lower (P : ascii -> bool) s :
  all_chars P (PyStr.lower s) = all_chars (fun c => P (PyStr.lower_char c)) s.
Proof. induction s as [|c s IH]; simpl; [done|]. by rewrite IH. Qed.

(** Lower-casing neither adds nor removes whitespace. *)
Lemma strip_lower_empty s :
  PyStr.strip (PyStr.lower s) = "" <-> PyStr.strip s = "".
Proof.
  rewrite !strip_empty, all_chars_lower.
  assert (forall t, all_chars (fun c => PyStr.isspace (PyStr.lower_char c)) t
                    = all_chars PyStr.isspace t) as ->; [|done].
  induction t as [|c t IH]; simpl; [done|]. by rewrite lower_char_isspace, IH.
Qed.

Lemma lower_empty s : PyStr.lower s = "" <-> s = "".
Proof. by destruct s. Qed.

End Trimming.

Section Tokens.
Import VectorDB.
Implicit Types (s t cur : string) (c : ascii) (P : ascii -> bool).

(** Every token is made of characters of the text. *)
Lemma findall_word_go_chars P cur s :
  all_chars P cur = true -> all_chars P s = true ->
  Forall (fun t => all_chars P t = true) (PyStr.findall_word_go cur s).
Proof.
  revert cur. induction s as [|c s IH]; intros cur Hcur; simpl.
  - intros _. destruct cur; simpl; [constructor|].
    repeat constructor. by rewrite all_chars_rev.
  - intros [Hc Hs]%andb_prop. destruct (PyStr.is_word c).
    + apply IH; [|done]. simpl. by rewrite Hc.
    + apply Forall_app. split; [|by apply IH].
      destruct cur; simpl; [constructor|].
      repeat constructor. by rewrite all_chars_rev.
Qed.

(** Every token is a non-empty run of word characters. *)
Lemma findall_word_go_words cur s :
  all_chars PyStr.is_word cur = true ->
  Forall (fun t => all_chars PyStr.is_word t = true /\ t <> "")
         (PyStr.findall_word_go cur s).
Proof.
  assert (forall u, all_chars PyStr.is_word u = true ->
            Forall (fun t => all_chars PyStr.is_word t = true /\ t <> "")
                   (PyStr.flush u)) as Hflush.
  { intros [|a u] Hu; simpl; [constructor|]. repeat constructor.
    - by rewrite all_chars_rev.
    - intros H%str_rev_empty. discriminate. }
  revert cur. induction s as [|c s IH]; intros cur Hcur; simpl.
  - by apply Hflush.
  - destruct (PyStr.is_word c) eqn:Hc.
    + apply IH. simpl. by rewrite Hc.
    + apply Forall_app. split; [by apply Hflush | by apply IH].
Qed.

Lemma all_chars_lower_fixed s :
  all_chars (fun c => Ascii.eqb (PyStr.lower_char c) c) s = true ->
  PyStr.lower s = s.
Proof.
  induction s as [|c s IH]; simpl; [done|].
  intros [Hc%Ascii.eqb_eq Hs]%andb_prop. by rewrite Hc, IH.
Qed.

(** X4. The keys of a term-frequency vector are normalized: each one is a
    non-empty run of word characters that lower-casing leaves as it is,
    so the vector of a text does not depend on the case of its
    letters. *)
Theorem tokenize_keys_normalized (text w : string) :
  (is_Some (_tokenize text !! w) ->
   all_chars PyStr.is_word w = true /\ PyStr.lower w = w /\ w <> "")
  /\ _tokenize (PyStr.lower text) = _tokenize text.
Proof.
  split; [|unfold _tokenize; by rewrite lower_idem].
  rewrite _tokenize_lookup.
  destruct (decide _) as [|Hn]; [by intros [? [=]]|]. intros _.
  pose proof (occurrences_nonneg w
                (surviving (PyStr.findall_word (PyStr.lower text)))).
  assert (w ∈ surviving (PyStr.findall_word (PyStr.lower text))) as Hw
    by (apply occurrences_pos; lia).
  apply list_elem_of_filter in Hw as [_ Hw].
  pose proof (findall_word_go_words "" (PyStr.lower text) eq_refl) as Hwords.
  pose proof (findall_word_go_chars
                (fun c => Ascii.eqb (PyStr.lower_char c) c) ""
                (PyStr.lower text) eq_refl) as Hlow.
  destruct (proj1 (Forall_forall _ _) Hwords w Hw) as [H1 H2].
  split_and!; [done| |done].
  assert (all_chars (fun c => Ascii.eqb (PyStr.lower_char c) c) (PyStr.lower text)
          = true) as Hfixed.
  { rewrite all_chars_lower. clear. induction text as [|c s IH]; simpl; [done|].
    by rewrite lower_char_idem, Ascii.eqb_refl, IH. }
  apply all_chars_lower_fixed, (proj1 (Forall_forall _ _) (Hlow Hfixed) w Hw).
Qed.

Lemma tokenize_keys_normalized_witness :
  (all_chars PyStr.is_word "apples" = true
   /\ PyStr.lower "apples" = "apples" /\ "apples" <> "")
  /\ _tokenize (PyStr.lower "I like Apples") = _tokenize "I like Apples".
Proof.
  pose proof (tokenize_keys_normalized "I like Apples" "apples") as [H1 H2].
  split; [|exact H2]. apply H1. vm_compute. eauto.
Defined.

End Tokens.

Section RankerMore.
Import PyFloat VectorDB Examples Inv.
Implicit Types (self : LocalVectorDB) (io : write_outcome) (msg : Message).

Lemma tokenize_nil : _tokenize "" = ∅.
Proof. reflexivity. Qed.

(** X5. Every document that [add_message] stores is well formed: its id is
    made of its session, its content is trimmed and not empty, and its
    vector is the non-empty tokenization of its content. *)
Theorem run_calls_well_formed self (cs : list call) :
  Forall well_formed (documents self) ->
  Forall well_formed (documents (run_calls self cs)).
Proof.
  revert self. induction cs as [|c cs IH]; intros self Hwf; [done|].
  simpl. apply IH. unfold run_call.
  destruct (add_message_cases c.1.1.1 self c.1.1.2 c.1.2 c.2)
    as [->|(s & _ & Hv & _ & ->)]; [done|].
  rewrite documents_save. simpl. apply Forall_app. split; [done|].
  repeat constructor; simpl; try done.
  - by eexists.
  - apply strip_idem.
  - intros He. by rewrite He, tokenize_nil in Hv.
Qed.

Lemma run_calls_well_formed_witness :
  Forall well_formed
    (documents
       (run_calls (__init__ Absent)
          [(Written, "chat_a", user_msg "  Apples and pears ", 0);
           (disk_full, "chat_a", short_msg, 1);
           (disk_full, "chat_b", user_msg "plums", 0)])).
Proof.
  apply (run_calls_well_formed (__init__ Absent)
           [(Written, "chat_a", user_msg "  Apples and pears ", 0);
            (disk_full, "chat_a", short_msg, 1);
            (disk_full, "chat_b", user_msg "plums", 0)]).
  constructor.
Defined.

Lemma of_int_raises (n : Z) (err : exn) :
  of_int n = Raise err -> err = OverflowError.
Proof.
  unfold of_int. destruct (binary_normalize prec emax n 0 false); try done.
  by intros [= <-].
Qed.

Lemma _cosine_similarity_raises (vec1 vec2 : gmap string Z) (err : exn) :
  _cosine_similarity vec1 vec2 = Raise err ->
  err = OverflowError \/ err = ZeroDivisionError.
Proof.
  unfold _cosine_similarity.
  destruct (math_sqrt (sum_squares vec1)) as [mag1|e1] eqn:H1; simpl.
  2:{ intros [= <-]. left.
      eapply math_sqrt_raises; [apply sum_squares_nonneg | done]. }
  destruct (math_sqrt (sum_squares vec2)) as [mag2|e2] eqn:H2; simpl.
  2:{ intros [= <-]. left.
      eapply math_sqrt_raises; [apply sum_squares_nonneg | done]. }
  destruct (is_zero mag1 || is_zero mag2); [done|].
  unfold int_truediv.
  destruct (of_int (dot_product vec1 vec2)) as [x|e3] eqn:H3; simpl.
  - destruct (is_zero (mul mag1 mag2)); [|done]. intros [= <-]. by right.
  - intros [= <-]. left. by eapply of_int_raises.
Qed.

Lemma score_docs_raises (qv : gmap string Z) (docs : list Document) (err : exn) :
  score_docs qv docs = Raise err ->
  err = OverflowError \/ err = ZeroDivisionError.
Proof.
  induction docs as [|d docs IH]; simpl; [done|].
  destruct (_cosine_similarity qv (doc_vector d)) as [r|e1] eqn:Hr; simpl.
  - destruct (score_docs qv docs) as [scored|e2]; simpl; [done|].
    intros [= <-]. by apply IH.
  - intros [= <-]. by eapply _cosine_similarity_raises.
Qed.

Lemma map_result_raises {A B : Type} (f : A -> result B) (l : list A) (err : exn) :
  map_result f l = Raise err -> exists x, x ∈ l /\ f x = Raise err.
Proof.
  induction l as [|x l IH]; simpl; [done|].
  destruct (f x) as [y|e1] eqn:Hx.
  - destruct (map_result f l) as [ys|e2]; [done|]. intros [= <-].
    destruct (IH eq_refl) as (x' & Hin & Hx'). exists x'. split; [by right|done].
  - intros [= <-]. exists x. split; [by left|done].
Qed.

Lemma search_messages_raises self (session_key query : string) (top_k : Z)
    (err : exn) :
  Forall readable_id (documents self) ->
  search_messages self session_key query top_k = Raise err ->
  err = OverflowError \/ err = ZeroDivisionError.
Proof.
  intros Hwf. unfold search_messages.
  destruct (_ || _ || _); [done|]. destruct (bool_decide _); [done|].
  unfold top_docs.
  destruct (scored_docs self session_key (_tokenize query)) as [scored|e1] eqn:Hs;
    simpl.
  2:{ intros [= <-]. by eapply score_docs_raises. }
  unfold PyList.sort_result.
  destruct (map_result _ _) as [keyed|e2] eqn:Hk; simpl; [done|].
  intros [= <-]. exfalso.
  apply map_result_raises in Hk as (x & Hx & Hkey).
  assert (x ∈ scored) as Hx'.
  { rewrite <- by_relevance_perm.
    by eapply elem_of_prefix; [|apply (slice_to_prefix top_k)]. }
  apply scored_docs_Ok in Hs.
  destruct (proj1 (Forall_forall _ _) Hs x Hx') as (Hin & _).
  destruct (proj1 (Forall_forall _ _) Hwf x.2 Hin) as (idx & Hid & Hlen).
  destruct x as [r d]. simpl in *.
  by rewrite (chrono_key_make_id r d _ idx Hid Hlen) in Hkey.
Qed.

(** X6. On a store in which every id is the session key of its document,
    an underscore and an index of at most 4300 digits, a search never
    fails on an id: it does not raise [ValueError] (the only exceptions
    left are those of the float arithmetic of the scoring).  An index of
    more digits is not read back: [int] refuses it with [ValueError]. *)
Theorem search_messages_no_value_error self (session_key query : string)
    (top_k : Z) :
  Forall readable_id (documents self) ->
  search_messages self session_key query top_k <> Raise ValueError
  /\ forall (score : float) (d : Document) (key : string) (msg_idx : Z),
       doc_id d = make_id key msg_idx ->
       PyStr.max_str_digits < digit_count msg_idx ->
       chrono_key (score, d) = Raise ValueError.
Proof.
  intros Hwf. split.
  - intros Hs. by apply search_messages_raises in Hs as [|].
  - intros score d key msg_idx Hid Hlen. unfold chrono_key. simpl.
    rewrite Hid, last_item_make_id. by apply int_of_int_long.
Qed.

Lemma search_messages_no_value_error_witness :
  search_messages two_sessions "s1" "apples" 4 <> Raise ValueError
  /\ forall (score : float) (d : Document) (key : string) (msg_idx : Z),
       doc_id d = make_id key msg_idx ->
       PyStr.max_str_digits < digit_count msg_idx ->
       chrono_key (score, d) = Raise ValueError.
Proof.
  apply (search_messages_no_value_error two_sessions "s1" "apples" 4).
  let docs := eval vm_compute in (documents two_sessions) in
  change (Forall readable_id docs).
  repeat (constructor;
          [first [exists 0; split; [reflexivity | by vm_compute]
                 | exists 1; split; [reflexivity | by vm_compute]]|]).
  constructor.
Defined.

(** A document whose id does not end in an integer, which only a file
    written by hand can hold, makes the search raise [ValueError]. *)
Example handmade_raises :
  search_messages handmade "s1" "apples" 4 = Raise ValueError.
Proof. vm_compute. reflexivity. Qed.

End RankerMore.

Section RankerEdges.
Import PyFloat VectorDB Examples Inv.
Implicit Types (self : LocalVectorDB) (io : write_outcome) (msg : Message).

(** X7. Each record of a search is built from a stored document of the
    requested session: it carries the role of the document, the content
    of the document behind the fixed prefix, and the flag set. *)
Theorem search_messages_records self (session_key query : string) (top_k : Z)
    (out : list Retrieved) :
  search_messages self session_key query top_k = Ok out ->
  Forall (fun r =>
            is_from_vector r = true
            /\ exists d, d ∈ documents self
                         /\ doc_session d = session_key
                         /\ role r = doc_role d
                         /\ content r = "[From Past Context]: " +:+ doc_content d)
         out.
Proof.
  intros (top & keys & -> & _ & _ & _ & Htop)%search_messages_Ok.
  apply Forall_fmap. eapply Forall_impl; [done|]. simpl.
  intros x (Hin & Hs & _). split; [done|]. by exists x.2.
Qed.

Lemma search_messages_records_witness :
  Forall (fun r =>
            is_from_vector r = true
            /\ exists d, d ∈ documents two_sessions
                         /\ doc_session d = "s1"
                         /\ role r = doc_role d
                         /\ content r = "[From Past Context]: " +:+ doc_content d)
         [{| role := "user";
             content := "[From Past Context]: I like apples and oranges";
             is_from_vector := true |}].
Proof.
  apply (search_messages_records two_sessions "s1" "apples" 4).
  vm_compute. reflexivity.
Defined.

(** X8. A query without a token of more than two characters returns the
    empty list, whatever the store holds; nothing is scored, so nothing
    can be raised. *)
Theorem search_messages_no_terms self (session_key query : string) (top_k : Z) :
  surviving (PyStr.findall_word (PyStr.lower query)) = [] ->
  search_messages self session_key query top_k = Ok [].
Proof.
  intros He. apply _tokenize_empty in He. unfold search_messages.
  destruct (_ || _ || _); [done|]. by rewrite He.
Qed.

Lemma search_messages_no_terms_witness :
  search_messages handmade "s1" "Is it ok?" 4 = Ok [].
Proof.
  apply (search_messages_no_terms handmade "s1" "Is it ok?" 4).
  vm_compute. reflexivity.
Defined.

(** X9. A negative [top_k] does not empty the result: the slice drops that
    many survivors from the low end of the relevance order and keeps the
    others. *)
Theorem search_messages_negative_top_k self (session_key query : string)
    (top_k : Z) (out : list Retrieved) (scored : list (float * Document)) :
  top_k < 0 ->
  search_messages self session_key query top_k = Ok out ->
  scored_docs self session_key (_tokenize query) = Ok scored ->
  Z.of_nat (length out) = Z.max 0 (Z.of_nat (length scored) + top_k).
Proof.
  intros Hk (top & keys & -> & _ & _ & Hperm & _)%search_messages_Ok Hs.
  rewrite length_fmap, (Hperm scored Hs). unfold PyList.slice_to.
  destruct (Z.ltb_spec top_k 0); [|lia].
  rewrite length_take, by_relevance_perm. lia.
Qed.

Lemma search_messages_negative_top_k_witness :
  Z.of_nat (length (A := Retrieved)
    [{| role := "user";
        content := "[From Past Context]: apples pears";
        is_from_vector := true |};
     {| role := "user";
        content := "[From Past Context]: apples apples apples";
        is_from_vector := true |};
     {| role := "user";
        content := "[From Past Context]: Apples!";
        is_from_vector := true |}])
  = Z.max 0 (Z.of_nat (length fruit_scored) + -1).
Proof.
  apply (search_messages_negative_top_k fruit_log "chat_a" "apples" (-1));
    [lia | vm_compute; reflexivity..].
Defined.

Lemma dot_product_comm (vec1 vec2 : gmap string Z) :
  dot_product vec1 vec2 = dot_product vec2 vec1.
Proof.
  unfold dot_product.
  assert (dom vec1 ∩ dom vec2 = dom vec2 ∩ dom vec1) as -> by set_solver.
  f_equal. apply list_fmap_ext. intros _ w _. lia.
Qed.

Lemma SFmul_comm (x y : float) : mul x y = mul y x.
Proof.
  unfold mul.
  destruct x as [sx|sx| |sx mx ex], y as [sy|sy| |sy my ey]; simpl;
    rewrite ?(xorb_comm sx sy); try done.
  by rewrite Pos.mul_comm, Z.add_comm.
Qed.

(** X10. The similarity is symmetric: exchanging the two vectors gives the
    same float, or the same exception. *)
Theorem _cosine_similarity_comm (vec1 vec2 : gmap string Z) :
  _cosine_similarity vec1 vec2 = _cosine_similarity vec2 vec1.
Proof.
  unfold _cosine_similarity.
  rewrite (dot_product_comm vec2 vec1).
  destruct (math_sqrt (sum_squares vec1)) as [mag1|e1] eqn:H1;
    destruct (math_sqrt (sum_squares vec2)) as [mag2|e2] eqn:H2; simpl;
    try done.
  - by rewrite (orb_comm (is_zero mag2)), (SFmul_comm mag2).
  - apply math_sqrt_raises in H1, H2; try apply sum_squares_nonneg.
    by subst.
Qed.

Lemma share_term_dom (vec1 vec2 : gmap string Z) :
  dom vec1 ∩ dom vec2 <> (∅ : gset string) -> share_term vec1 vec2.
Proof.
  intros (w & Hw)%set_choose_L. exists w.
  apply elem_of_intersection in Hw as [H1 H2].
  split; by apply elem_of_dom.
Qed.

Lemma gtb_any_zero (s : bool) : gtb (S754_zero s) relevance_floor = false.
Proof. by destruct s. Qed.

Lemma survivor_shares_term (vec1 vec2 : gmap string Z) (r : float) :
  _cosine_similarity vec1 vec2 = Ok r -> gtb r relevance_floor = true ->
  share_term vec1 vec2.
Proof.
  intros Hr Hgt.
  destruct (decide (dom vec1 ∩ dom vec2 = (∅ : gset string))) as [He|Hne];
    [|by apply share_term_dom].
  exfalso.
  apply _cosine_similarity_Ok in Hr as (mag1 & mag2 & _ & _ & Hs1 & Hs2 & Hr).
  destruct (is_zero mag1 || is_zero mag2) eqn:Hz.
  { by rewrite Hr, gtb_zero_floor in Hgt. }
  apply orb_false_elim in Hz as [Hz1 Hz2].
  assert (dot_product vec1 vec2 = 0) as Hdot.
  { unfold dot_product. by rewrite He, elements_empty. }
  rewrite Hdot in Hr. unfold int_truediv in Hr. simpl in Hr.
  pose proof (SFmul_sign prec emax mag1 mag2 Hs1 Hs2 Hz1 Hz2) as Hm.
  fold (mul mag1 mag2) in Hm.
  destruct (mul mag1 mag2) as [sy|sy| |sy my ey]; simpl in Hr, Hm; try done;
    injection Hr as Hr; by rewrite <- Hr, gtb_any_zero in Hgt.
Qed.

(** X11. A document is returned only if it has a term in common with the
    query: without one the dot product is zero, the score is 0.0, and the
    floor rejects it.  A search that goes as far as the scoring returns
    the records of the documents that [top_docs] selected among the
    survivors; every survivor is a stored document of the session that
    shares a term with the query, and a document that shares none is
    neither a survivor nor selected. *)
Theorem search_messages_share_term self (session_key query : string) (top_k : Z)
    (out : list Retrieved) :
  search_messages self session_key query top_k = Ok out ->
  (out = [] /\ no_search self query)
  \/ exists scored top,
       scored_docs self session_key (_tokenize query) = Ok scored
       /\ top_docs self session_key (_tokenize query) top_k = Ok top
       /\ out = emit <$> top
       /\ top ⊆ scored
       /\ Forall (fun x => x.2 ∈ documents self
                           /\ doc_session x.2 = session_key
                           /\ share_term (_tokenize query) (doc_vector x.2))
                 scored
       /\ (forall d : Document,
             ~ share_term (_tokenize query) (doc_vector d) ->
             (d ∉ snd <$> scored) /\ (d ∉ snd <$> top)).
Proof.
  intros Hs.
  destruct (search_messages_cases _ _ _ _ _ Hs)
    as [?|(scored & top & Hscored & Htop & -> & Hperm)]; [by left|].
  right. exists scored, top.
  pose proof (top_docs_survivors _ _ _ _ _ _ Hscored Hperm) as Hsub.
  pose proof (scored_docs_Ok _ _ _ _ Hscored) as Hall.
  assert (Forall (fun x => x.2 ∈ documents self
                           /\ doc_session x.2 = session_key
                           /\ share_term (_tokenize query) (doc_vector x.2))
                 scored) as Hshare.
  { eapply Forall_impl; [done|]. simpl. intros x (Hin & Hk & Hr & Hgt & _).
    split_and!; [done..|]. by eapply survivor_shares_term. }
  assert (forall d : Document,
            ~ share_term (_tokenize query) (doc_vector d) -> d ∉ snd <$> scored)
    as Hout.
  { intros d Hn (x & -> & Hx)%list_elem_of_fmap.
    by destruct (proj1 (Forall_forall _ _) Hshare x Hx) as (_ & _ & ?). }
  split_and!; try done.
  intros d Hn. split; [by apply Hout|].
  intros (x & -> & Hx)%list_elem_of_fmap. apply (Hout x.2 Hn).
  apply list_elem_of_fmap. exists x. split; [done | by apply Hsub].
Qed.

Lemma search_messages_share_term_witness :
  ([{| role := "user";
       content := "[From Past Context]: I like apples and oranges";
       is_from_vector := true |}] = []
   /\ no_search two_sessions "apples")
  \/ exists scored top,
       scored_docs two_sessions "s1" (_tokenize "apples") = Ok scored
       /\ top_docs two_sessions "s1" (_tokenize "apples") 4 = Ok top
       /\ [{| role := "user";
              content := "[From Past Context]: I like apples and oranges";
              is_from_vector := true |}] = emit <$> top
       /\ top ⊆ scored
       /\ Forall (fun x => x.2 ∈ documents two_sessions
                           /\ doc_session x.2 = "s1"
                           /\ share_term (_tokenize "apples") (doc_vector x.2))
                 scored
       /\ (forall d : Document,
             ~ share_term (_tokenize "apples") (doc_vector d) ->
             (d ∉ snd <$> scored) /\ (d ∉ snd <$> top)).
Proof.
  apply (search_messages_share_term two_sessions "s1" "apples" 4).
  vm_compute. reflexivity.
Defined.

(** X12. The search does not depend on the case of the letters of the
    query. *)
Theorem search_messages_case_insensitive self (session_key query : string)
    (top_k : Z) :
  search_messages self session_key (PyStr.lower query) top_k
  = search_messages self session_key query top_k.
Proof.
  unfold search_messages.
  assert (String.eqb (PyStr.lower query) "" = String.eqb query "") as ->.
  { by destruct query. }
  assert (String.eqb (PyStr.strip (PyStr.lower query)) ""
          = String.eqb (PyStr.strip query) "") as ->.
  { pose proof (strip_lower_empty query) as Hb.
    destruct (String.eqb_spec (PyStr.strip (PyStr.lower query)) ""),
             (String.eqb_spec (PyStr.strip query) ""); tauto. }
  assert (_tokenize (PyStr.lower query) = _tokenize query) as ->; [|done].
  unfold _tokenize. by rewrite lower_idem.
Qed.

(** X13. Writes to one session do not change what a search in another
    session returns or raises. *)
Theorem add_message_other_session io self (A B query : string) msg
    (msg_idx top_k : Z) :
  A <> B ->
  search_messages (add_message io self B msg msg_idx) A query top_k
  = search_messages self A query top_k.
Proof.
  intros HAB.
  destruct (add_message_cases io self B msg msg_idx)
    as [->|(s & _ & _ & _ & ->)]; [done|].
  assert (session_docs (_save_index io
            {| documents := documents self ++ [new_document B msg msg_idx s];
               index_file := index_file self |}) A
          = session_docs self A) as Hsd.
  { unfold session_docs. rewrite documents_save. simpl.
    rewrite filter_app, filter_cons, decide_False by (simpl; congruence).
    apply app_nil_r. }
  unfold search_messages, top_docs, scored_docs. rewrite Hsd, documents_save.
  simpl.
  destruct (String.eqb query "" || String.eqb (PyStr.strip query) "") eqn:Hq;
    simpl; [done|].
  rewrite (bool_decide_eq_false_2 (_ ++ _ = [])) by by destruct (documents self).
  destruct (bool_decide_reflect (documents self = [])) as [Hd|_]; [|done].
  destruct (bool_decide (_tokenize query = ∅)); [done|].
  unfold session_docs. rewrite Hd. simpl.
  change (by_relevance []) with (@nil (float * Document)).
  unfold PyList.slice_to. by destruct (top_k <? 0); rewrite take_nil.
Qed.

Lemma add_message_other_session_witness :
  search_messages
    (add_message Written two_sessions "s2" (user_msg "more apples") 1)
    "s1" "apples" 4
  = search_messages two_sessions "s1" "apples" 4.
Proof.
  apply (add_message_other_session Written two_sessions "s1" "s2" "apples"
           (user_msg "more apples") 1 4).
  discriminate.
Defined.



(** After the failed write of that example the file and the store
    disagree, and the next successful append repairs it. *)
Example failed_write_out_of_sync :
  ~ in_sync (add_message disk_full two_sessions "s3" (user_msg "pears and plums") 7).
Proof. unfold in_sync. vm_compute. discriminate. Qed.

End RankerEdges.

(** * Properties of the agent core *)

Section McpServers.
Import Core.
Implicit Types (w : world) (m : gmap string json) (io : jwrite).

Lemma load_servers_object (f : jfile) m :
  load_servers f = Returns (JObj m) -> f <> NoFile.
Proof. by destruct f. Qed.

Lemma install_mcp_server_saved (name command : string) (args : list string) w m :
  load_servers (skills_json w) = Returns (JObj m) ->
  install_mcp_server Saved name command args w
  = {| after :=
         {| config_json := config_json w;
            skills_json :=
              Json (JObj (<["mcpServers" :=
                             JObj (<[name := server_entry command args]> m)]> ∅)) |};
       actions :=
         [Publish "MCP"
            ("Installed MCP server: " +:+ name +:+ " (" +:+ command +:+ ")")];
       raised := None |}.
Proof. intros Hl. unfold install_mcp_server. by rewrite Hl. Qed.

(** X15. Installing a server and loading the servers again: the call
    raises nothing, publishes one message, the installation, and leaves
    the configuration file alone; the file written is an object with the
    one key ["mcpServers"], whatever other keys the file held before;
    the new server is registered under its name and the servers of the
    other names are the ones the file held. *)
Theorem install_then_load (name command : string) (args : list string) w m :
  load_servers (skills_json w) = Returns (JObj m) ->
  let r := install_mcp_server Saved name command args w in
  raised r = None
  /\ actions r
     = [Publish "MCP"
          ("Installed MCP server: " +:+ name +:+ " (" +:+ command +:+ ")")]
  /\ skills_json (after r)
     = Json (JObj (<["mcpServers" :=
                      JObj (<[name := server_entry command args]> m)]> ∅))
  /\ load_servers (skills_json (after r))
     = Returns (JObj (<[name := server_entry command args]> m))
  /\ (forall v, skills_json (after r) = Json v ->
        forall k, getitem v k
                  = if decide (k = "mcpServers")
                    then Returns (JObj (<[name := server_entry command args]> m))
                    else Throws KeyError)
  /\ config_json (after r) = config_json w.
Proof.
  intros Hl. simpl. rewrite (install_mcp_server_saved _ _ _ _ _ Hl). simpl.
  split_and!; try done.
  intros v [= <-] k. simpl. destruct (decide (k = "mcpServers")) as [->|Hne].
  - by rewrite lookup_insert_eq.
  - by rewrite lookup_insert_ne, lookup_empty.
Qed.

Lemma install_then_load_witness :
  let w := {| config_json := NoFile;
              skills_json :=
                Json (JObj (<["mcpServers" :=
                               JObj (<["git" := server_entry "uvx" ["mcp-git"]]> ∅)]>
                              (<["version" := JInt 2]> ∅))) |} in
  let m : gmap string json := <["git" := server_entry "uvx" ["mcp-git"]]> ∅ in
  let r := install_mcp_server Saved "sqlite" "npx" ["-y"; "mcp-sqlite"] w in
  raised r = None
  /\ actions r = [Publish "MCP" ("Installed MCP server: " +:+ "sqlite" +:+ " (" +:+ "npx" +:+ ")")]
  /\ skills_json (after r)
     = Json (JObj (<["mcpServers" :=
                      JObj (<["sqlite" :=
                               server_entry "npx" ["-y"; "mcp-sqlite"]]> m)]> ∅))
  /\ load_servers (skills_json (after r))
     = Returns (JObj (<["sqlite" := server_entry "npx" ["-y"; "mcp-sqlite"]]> m))
  /\ (forall v, skills_json (after r) = Json v ->
        forall k, getitem v k
                  = if decide (k = "mcpServers")
                    then Returns (JObj (<["sqlite" :=
                                           server_entry "npx" ["-y"; "mcp-sqlite"]]> m))
                    else Throws KeyError)
  /\ config_json (after r) = config_json w.
Proof.
  apply (install_then_load "sqlite" "npx" ["-y"; "mcp-sqlite"]
           {| config_json := NoFile;
              skills_json :=
                Json (JObj (<["mcpServers" :=
                               JObj (<["git" := server_entry "uvx" ["mcp-git"]]> ∅)]>
                              (<["version" := JInt 2]> ∅))) |}
           (<["git" := server_entry "uvx" ["mcp-git"]]> ∅)).
  reflexivity.
Defined.

(** X16. The exceptions of an installation, each with its cause:
    [FileNotFoundError] exactly when there is no file,
    [UnicodeDecodeError] exactly when the bytes of the file are not
    text, [AttributeError] exactly when the file holds JSON other than
    an object, [TypeError] exactly when its ["mcpServers"] is not an
    object, an [OSError] exactly when the file cannot be opened or the
    servers were loaded and the write is refused; never [KeyError] or
    [IndexError].  Unless the write is refused, an installation that
    raises leaves both files as they were and publishes nothing; a
    refused write leaves what the write left and publishes nothing. *)
Theorem install_failure_changes_nothing io (name command : string)
    (args : list string) w (e : error) :
  let r := install_mcp_server io name command args w in
  (raised r = Some e <->
   match e with
   | FileNotFoundError => skills_json w = NoFile
   | UnicodeDecodeError => skills_json w = Undecodable
   | AttributeError =>
       exists v, skills_json w = Json v /\ forall m, v <> JObj m
   | TypeError =>
       exists m v, skills_json w = Json (JObj m)
                   /\ m !! "mcpServers" = Some v /\ forall m', v <> JObj m'
   | OSError =>
       skills_json w = Unreadable
       \/ ((exists m, load_servers (skills_json w) = Returns (JObj m))
           /\ exists remains, io = Refused remains)
   | KeyError | IndexError => False
   end)
  /\ (raised r = Some e ->
      r = throw e w
      \/ exists remains,
           io = Refused remains /\ e = OSError
           /\ r = throw OSError
                    {| config_json := config_json w; skills_json := remains |}).
Proof.
  cbv zeta. unfold install_mcp_server.
  destruct (skills_json w) as [| |v| |] eqn:Hf; simpl;
    [ | | destruct v as [| | | | | |m]; simpl;
          [..| destruct (m !! "mcpServers") as [[| | | | | |m']|] eqn:Hm; simpl] | | ];
    try (destruct io as [|remains]; simpl);
    (split; [destruct e; (split; [try done|]) | ]).
  all: try done.
  all: try (by intros []).
  all: try (by intros (? & ? & ?)).
  all: try (by intros (? & ? & ? & ?)).
  all: try (by intros [?|[[? ?] _]]).
  all: try (by intros [?|[_ [? ?]]]).
  all: try (intros [= <-]; by left).
  all: try (intros _; by left).
  all: try (intros _; eexists; split; [done|]; by intros).
  all: try (intros _; eexists _, _; split_and!; [done..|]; by intros).
  all: try (intros _; right; split; by eexists).
  all: try (intros [= <-]; right; by eexists).
  all: try (by intros (? & [= <-] & Hn); destruct (Hn m)).
  all: try (intros (m0 & v0 & [= <-] & Hv & Hn); rewrite Hm in Hv; try done;
            injection Hv as <-; by destruct (Hn m')).
  all: try (intros (m0 & v0 & [= <-] & Hv & Hn); rewrite Hm in Hv; try done;
            injection Hv as <-; by eapply Hn).
Qed.

(** X17. Two installations under different names give the same file in
    either order; under one name the second replaces the first. *)
Theorem install_twice (n1 c1 n2 c2 : string) (a1 a2 : list string) w m :
  load_servers (skills_json w) = Returns (JObj m) ->
  let first_then_second :=
    after (install_mcp_server Saved n2 c2 a2
             (after (install_mcp_server Saved n1 c1 a1 w))) in
  let second_then_first :=
    after (install_mcp_server Saved n1 c1 a1
             (after (install_mcp_server Saved n2 c2 a2 w))) in
  load_servers (skills_json first_then_second)
  = Returns (JObj (<[n2 := server_entry c2 a2]> (<[n1 := server_entry c1 a1]> m)))
  /\ (n1 <> n2 -> first_then_second = second_then_first)
  /\ (n1 = n2 ->
      first_then_second = after (install_mcp_server Saved n2 c2 a2 w)).
Proof.
  intros Hl. simpl.
  rewrite (install_mcp_server_saved n1 _ _ _ _ Hl),
          (install_mcp_server_saved n2 _ _ _ _ Hl). simpl.
  rewrite (install_mcp_server_saved n2 c2 a2 _
             (<[n1 := server_entry c1 a1]> m))
    by (simpl; by rewrite lookup_insert_eq).
  rewrite (install_mcp_server_saved n1 c1 a1 _
             (<[n2 := server_entry c2 a2]> m))
    by (simpl; by rewrite lookup_insert_eq).
  simpl. split_and!.
  - by rewrite lookup_insert_eq.
  - intros Hne. by rewrite insert_insert_ne.
  - intros ->. by rewrite insert_insert_eq.
Qed.

Lemma install_twice_witness :
  let w := {| config_json := NoFile; skills_json := Json no_servers |} in
  let first_then_second :=
    after (install_mcp_server Saved "git" "uvx" ["mcp-git"]
             (after (install_mcp_server Saved "sqlite" "npx" ["-y"] w))) in
  let second_then_first :=
    after (install_mcp_server Saved "sqlite" "npx" ["-y"]
             (after (install_mcp_server Saved "git" "uvx" ["mcp-git"] w))) in
  load_servers (skills_json first_then_second)
  = Returns (JObj (<["git" := server_entry "uvx" ["mcp-git"]]>
                     (<["sqlite" := server_entry "npx" ["-y"]]> ∅)))
  /\ ("sqlite" <> "git" -> first_then_second = second_then_first)
  /\ ("sqlite" = "git" ->
      first_then_second = after (install_mcp_server Saved "git" "uvx" ["mcp-git"] w)).
Proof.
  apply (install_twice "sqlite" "npx" "git" "uvx" ["-y"] ["mcp-git"]
           {| config_json := NoFile; skills_json := Json no_servers |} ∅).
  reflexivity.
Defined.

(** X18. The constructor creates the file only when there is none, so a file
    that exists is never replaced; once it has run, an installation
    cannot fail for want of the file, and the first installation after a
    fresh start leaves the new server as the only one. *)
Theorem mcp_init_then_install io io' (name command : string) (args : list string) w :
  let r := (mcp_init Saved ;> install_mcp_server io name command args) w in
  raised r <> Some FileNotFoundError
  /\ (skills_json w = NoFile -> io = Saved ->
      raised r = None
      /\ load_servers (skills_json (after r))
         = Returns (JObj (<[name := server_entry command args]> ∅)))
  /\ (skills_json w <> NoFile -> after (mcp_init io' w) = w).
Proof.
  cbv zeta. unfold mcp_init, andthen.
  destruct (skills_json w) as [| |v| |] eqn:Hf; simpl.
  - unfold install_mcp_server. simpl. rewrite lookup_insert_eq. simpl.
    split_and!; [by destruct io| |done].
    intros _ ->. simpl. by rewrite lookup_insert_eq.
  - unfold install_mcp_server. rewrite Hf. simpl.
    split_and!; [by destruct io|done..].
  - unfold install_mcp_server. rewrite Hf. simpl. split_and!; [|done..].
    destruct v as [| | | | | |m]; simpl; try done.
    destruct (m !! "mcpServers") as [[| | | | | |m']|]; simpl; try done;
      by destruct io.
  - unfold install_mcp_server. rewrite Hf. simpl. by split_and!.
  - unfold install_mcp_server. rewrite Hf. simpl. by split_and!.
Qed.

End McpServers.

Section MasterAgent.
Import Core CoreInv.
Implicit Types (w : world) (io : jwrite) (message url : string).

Lemma contains_char c sub s :
  contains (String c sub) s = true ->
  all_chars (fun x => negb (Ascii.eqb x c)) s = false.
Proof.
  induction s as [|a s IH]; simpl; [done|].
  destruct (ascii_dec c a) as [->|Hne].
  - by rewrite Ascii.eqb_refl.
  - simpl. intros H. rewrite (IH H). by rewrite andb_false_r.
Qed.

Lemma flush_nil cur : PyStr.flush cur = [] -> cur = "".
Proof. by destruct cur. Qed.

Lemma split_ws_go_nil cur s :
  split_ws_go cur s = [] -> cur = "" /\ all_chars PyStr.isspace s = true.
Proof.
  revert cur. induction s as [|c s IH]; intros cur; simpl.
  - intros H. split; [by apply flush_nil|done].
  - destruct (PyStr.isspace c).
    + intros [H1 H2]%app_eq_nil. split; [by apply flush_nil|]. by apply IH in H2 as [_ ->].
    + intros H. by apply IH in H as [? _].
Qed.

Lemma last_word_app (l k : list string) :
  k <> [] -> last_word (l ++ k) = last_word k.
Proof.
  intros Hk. unfold last_word. rewrite fmap_app.
  destruct k as [|x k]; [done|]. clear Hk.
  induction l as [|y l IH]; [done|].
  change (Some <$> y :: l) with (Some y :: (Some <$> l)).
  rewrite <- app_comm_cons.
  destruct ((Some <$> l) ++ (Some <$> x :: k)) eqn:E; [by destruct l|].
  by rewrite <- IH.
Qed.

Lemma last_word_ne (l : list string) :
  l <> [] -> exists u, last_word l = Returns u.
Proof.
  induction l as [|x l IH]; [done|]. intros _. destruct l as [|y l].
  - by exists x.
  - destruct IH as [u Hu]; [done|]. exists u. by rewrite <- Hu.
Qed.

Lemma split_ws_go_space cur s :
  all_chars PyStr.isspace s = true -> split_ws_go cur s = PyStr.flush cur.
Proof.
  revert cur. induction s as [|c s IH]; intros cur; simpl; [done|].
  intros [-> Hs]%andb_prop. rewrite (IH _ Hs). simpl. by rewrite app_nil_r.
Qed.

Lemma split_ws_go_word cur u s :
  all_chars nonspace u = true ->
  split_ws_go cur (u +:+ s) = split_ws_go (String.rev u +:+ cur) s.
Proof.
  revert cur. induction u as [|c u IH]; intros cur; [done|].
  rewrite str_app_cons. simpl. unfold nonspace at 1.
  intros [Hc Hu]%andb_prop. apply negb_true_iff in Hc. rewrite Hc.
  rewrite (IH _ Hu), str_rev_cons, str_app_assoc. by rewrite str_app_cons.
Qed.

Lemma split_ws_go_sep cur pre c s :
  PyStr.isspace c = true ->
  exists l, split_ws_go cur (pre +:+ String c s) = l ++ split_ws_go "" s.
Proof.
  intros Hc. revert cur. induction pre as [|a pre IH]; intros cur.
  - rewrite str_app_nil_l. simpl. rewrite Hc. by eexists.
  - rewrite str_app_cons. simpl. destruct (PyStr.isspace a).
    + destruct (IH "") as [l ->]. exists (PyStr.flush cur ++ l). by rewrite app_assoc.
    + apply IH.
Qed.

Lemma split_ws_word u trail :
  u <> "" -> all_chars nonspace u = true -> all_chars PyStr.isspace trail = true ->
  split_ws (u +:+ trail) = [u].
Proof.
  intros Hne Hu Ht. unfold split_ws.
  rewrite (split_ws_go_word _ _ _ Hu), (split_ws_go_space _ _ Ht), str_app_nil_r.
  unfold PyStr.flush. destruct (String.rev u) eqn:Hr.
  - by apply str_rev_empty in Hr.
  - by rewrite <- Hr, str_rev_involutive.
Qed.

(** The last word of a message: what follows the last whitespace that
    is followed by something else than whitespace. *)
Lemma last_word_split_ws pre url trail :
  url <> "" -> all_chars nonspace url = true ->
  all_chars PyStr.isspace trail = true ->
  pre = "" \/ (exists pre' c, pre = pre' +:+ String c "" /\ PyStr.isspace c = true) ->
  last_word (split_ws (pre +:+ url +:+ trail)) = Returns url.
Proof.
  intros Hne Hu Ht [->|(pre' & c & -> & Hc)].
  - by rewrite str_app_nil_l, split_ws_word.
  - rewrite str_app_assoc, str_app_cons, str_app_nil_l. unfold split_ws.
    destruct (split_ws_go_sep "" pre' c (url +:+ trail) Hc) as [l ->].
    fold (split_ws (url +:+ trail)). rewrite split_ws_word by done.
    by rewrite last_word_app.
Qed.

Lemma install_keyword_word message :
  install_keyword message = true -> exists url, last_word (split_ws message) = Returns url.
Proof.
  intros Hk. apply last_word_ne. intros Hnil.
  apply split_ws_go_nil in Hnil as [_ Hs].
  assert (contains "instala" (PyStr.lower message) = true
          \/ contains "install" (PyStr.lower message) = true) as Hc
    by (by apply orb_prop).
  assert (all_chars (fun x => negb (Ascii.eqb x "i")) (PyStr.lower message) = false) as Hi
    by (destruct Hc as [Hc|Hc]; by apply contains_char in Hc).
  rewrite all_chars_lower in Hi.
  rewrite (all_chars_impl PyStr.isspace) in Hi; [done| |done].
  intros c. by destruct c as [[] [] [] [] [] [] [] []].
Qed.

Lemma command_word_no_keyword message :
  among (PyStr.lower message) ["help"; "ayuda"; "onboard"; "guia"]
  || among (PyStr.lower message) ["clear"; "cls"] = true ->
  install_keyword message = false.
Proof.
  unfold install_keyword, among. simpl. generalize (PyStr.lower message) as s. intros s.
  repeat match goal with
         | |- context [String.eqb s ?t] =>
             destruct (String.eqb_spec s t) as [->|_]; [by vm_compute|]
         end.
  done.
Qed.

Lemma process_install_run nt io message url w :
  install_keyword message = true ->
  last_word (split_ws message) = Returns url ->
  process_user_message nt io message w
  = (act (Publish "MasterAgent" ("Analyzing user intent: '" +:+ message +:+ "'")) ;>
     act (Sleep 1) ;>
     spawn_subagent "Investigador" ("Verify safely the tool at " +:+ url) ;>
     act (Sleep 2) ;>
     install_tool io url) w.
Proof.
  intros Hk Hl. unfold process_user_message.
  destruct (among (PyStr.lower message) ["help"; "ayuda"; "onboard"; "guia"]) eqn:H1.
  { by rewrite command_word_no_keyword in Hk by (by rewrite H1). }
  destruct (among (PyStr.lower message) ["clear"; "cls"]) eqn:H2.
  { by rewrite command_word_no_keyword in Hk by (by rewrite H1, H2). }
  unfold install_keyword in Hk. rewrite Hk.
  unfold andthen at 1 2 5 6. simpl. by rewrite Hl.
Qed.

Lemma process_other_run nt io message w :
  install_keyword message = false ->
  let r := process_user_message nt io message w in
  after r = w /\ raised r = None.
Proof.
  intros Hk. simpl. unfold process_user_message.
  unfold install_keyword in Hk. rewrite Hk.
  repeat match goal with |- context [if ?b then _ else _] => destruct b end; done.
Qed.

Lemma after_act a (k : world -> run) w :
  after ((act a ;> k) w) = after (k w) /\ raised ((act a ;> k) w) = raised (k w).
Proof. done. Qed.

Lemma after_spawn_subagent role task (k : world -> run) w :
  after ((spawn_subagent role task ;> k) w) = after (k w)
  /\ raised ((spawn_subagent role task ;> k) w) = raised (k w).
Proof. done. Qed.

Lemma install_tool_saved url w m :
  load_servers (skills_json w) = Returns (JObj m) ->
  let r := install_tool Saved url w in
  raised r = None
  /\ after r
     = {| config_json := config_json w;
          skills_json :=
            Json (JObj (<["mcpServers" :=
                           JObj (<["new_tool" := server_entry "npx" ["-y"; url]]> m)]> ∅)) |}.
Proof.
  intros Hl. simpl. unfold install_tool, andthen. simpl.
  by rewrite (install_mcp_server_saved _ _ _ _ _ Hl).
Qed.

(** X19. A message with one of the installation words installs its last
    word: what stands between the last whitespace before a word and the
    whitespace that ends the message.  The word is handed to the
    researcher first and registered two seconds later. *)
Theorem process_user_message_installs_last_word nt io pre url trail w :
  install_keyword (pre +:+ url +:+ trail) = true ->
  url <> "" -> all_chars nonspace url = true ->
  all_chars PyStr.isspace trail = true ->
  pre = "" \/ (exists pre' c, pre = pre' +:+ String c "" /\ PyStr.isspace c = true) ->
  process_user_message nt io (pre +:+ url +:+ trail) w
  = (act (Publish "MasterAgent"
            ("Analyzing user intent: '" +:+ (pre +:+ url +:+ trail) +:+ "'")) ;>
     act (Sleep 1) ;>
     spawn_subagent "Investigador" ("Verify safely the tool at " +:+ url) ;>
     act (Sleep 2) ;>
     install_tool io url) w.
Proof.
  intros Hk Hne Hu Ht Hpre. apply process_install_run; [done|].
  by apply last_word_split_ws.
Qed.

Lemma process_user_message_installs_last_word_witness :
  process_user_message false Saved ("Please install " +:+ "http://x/y" +:+ " ")
    {| config_json := NoFile; skills_json := Json no_servers |}
  = (act (Publish "MasterAgent"
            ("Analyzing user intent: '"
             +:+ ("Please install " +:+ "http://x/y" +:+ " ") +:+ "'")) ;>
     act (Sleep 1) ;>
     spawn_subagent "Investigador" ("Verify safely the tool at " +:+ "http://x/y") ;>
     act (Sleep 2) ;>
     install_tool Saved "http://x/y")
      {| config_json := NoFile; skills_json := Json no_servers |}.
Proof.
  apply (process_user_message_installs_last_word false Saved
           "Please install " "http://x/y" " ").
  - vm_compute; reflexivity.
  - discriminate.
  - vm_compute; reflexivity.
  - vm_compute; reflexivity.
  - right. exists "Please install", " "%char. split; vm_compute; reflexivity.
Defined.

(** X20. No message makes the agent raise [IndexError] or [KeyError]: a message
    with an installation word has a last word.  The configuration file
    is never written, and without an installation word the servers' file
    is left as it was and nothing is raised. *)
Theorem process_user_message_safe nt io message w :
  let r := process_user_message nt io message w in
  raised r <> Some IndexError
  /\ raised r <> Some KeyError
  /\ config_json (after r) = config_json w
  /\ (install_keyword message = false -> after r = w /\ raised r = None).
Proof.
  cbv zeta. destruct (install_keyword message) eqn:Hk.
  - destruct (install_keyword_word _ Hk) as [url Hurl].
    rewrite (process_install_run _ _ _ _ _ Hk Hurl).
    unfold install_tool, install_mcp_server, andthen. simpl.
    destruct (skills_json w) as [| |v| |]; simpl;
      [by split_and!| | |by split_and!..].
    + destruct io; simpl; by split_and!.
    + destruct v as [| | | | | |m]; simpl; try by split_and!.
      destruct (m !! "mcpServers") as [v|]; simpl.
      * destruct v; simpl; try by split_and!. destruct io; simpl; by split_and!.
      * destruct io; simpl; by split_and!.
  - destruct (process_other_run nt io message w Hk) as [Ha Hr]. simpl in *.
    rewrite Ha, Hr. by split_and!.
Qed.

(** X21. Every installation is registered under the one name ["new_tool"]:
    of two installation messages only the second leaves a trace in the
    servers' file. *)
Theorem install_messages_last_wins nt nt' first second w m :
  load_servers (skills_json w) = Returns (JObj m) ->
  install_keyword first = true ->
  install_keyword second = true ->
  let twice := process_user_message nt' Saved second
                 (after (process_user_message nt Saved first w)) in
  raised twice = None
  /\ after twice = after (process_user_message nt' Saved second w)
  /\ exists url,
       last_word (split_ws second) = Returns url
       /\ load_servers (skills_json (after twice))
          = Returns (JObj (<["new_tool" := server_entry "npx" ["-y"; url]]> m)).
Proof.
  intros Hl H1 H2. cbv zeta.
  destruct (install_keyword_word _ H1) as [url1 Hurl1].
  destruct (install_keyword_word _ H2) as [url2 Hurl2].
  rewrite (process_install_run _ _ first _ _ H1 Hurl1).
  rewrite !(process_install_run _ _ second _ _ H2 Hurl2).
  destruct (install_tool_saved url1 w m Hl) as [Hr1 Ha1].
  destruct (install_tool_saved url2 w m Hl) as [Hr2 Ha2].
  cbv zeta in *.
  repeat first [rewrite (proj1 (after_act _ _ _)) | rewrite (proj2 (after_act _ _ _))
               | rewrite (proj1 (after_spawn_subagent _ _ _ _))
               | rewrite (proj2 (after_spawn_subagent _ _ _ _))].
  rewrite Ha1.
  set (w1 := {| config_json := config_json w; skills_json := _ |}).
  destruct (install_tool_saved url2 w1
              (<["new_tool" := server_entry "npx" ["-y"; url1]]> m)) as [Hr3 Ha3].
  { simpl. by rewrite lookup_insert_eq. }
  cbv zeta in *. rewrite Hr3, Ha2, Ha3. simpl.
  rewrite insert_insert_eq. split_and!; [done..|].
  exists url2. split; [done|]. by rewrite lookup_insert_eq.
Qed.

Lemma install_messages_last_wins_witness :
  let w := {| config_json := NoFile; skills_json := Json no_servers |} in
  let twice := process_user_message false Saved "instala https://b.example/mcp"
                 (after (process_user_message false Saved
                           "Install http://a.example/tool" w)) in
  raised twice = None
  /\ after twice
     = after (process_user_message false Saved "instala https://b.example/mcp" w)
  /\ exists url,
       last_word (split_ws "instala https://b.example/mcp") = Returns url
       /\ load_servers (skills_json (after twice))
          = Returns (JObj (<["new_tool" := server_entry "npx" ["-y"; url]]> ∅)).
Proof.
  apply (install_messages_last_wins false false "Install http://a.example/tool"
           "instala https://b.example/mcp"
           {| config_json := NoFile; skills_json := Json no_servers |} ∅);
    vm_compute; reflexivity.
Defined.

End MasterAgent.

Section ConfigForms.
Import Core CoreInv.
Implicit Types (c : gmap string json) (cfg sec : json) (ps : params).

Lemma outcome_bind_Returns {A B : Type} (m : outcome A) (f : A -> outcome B) (b : B) :
  m ≫= f = Returns b -> exists a, m = Returns a /\ f a = Returns b.
Proof. destruct m as [a|e]; [eauto | discriminate]. Qed.

Lemma getitem_Returns v k x :
  getitem v k = Returns x -> exists m, v = JObj m /\ m !! k = Some x.
Proof.
  destruct v as [| | | | | |m]; try discriminate. simpl.
  destruct (m !! k) eqn:Hk; [|discriminate]. intros [= <-]. eauto.
Qed.

Lemma setitem_Returns v k x v' :
  setitem v k x = Returns v' -> exists m, v = JObj m /\ v' = JObj (<[k := x]> m).
Proof. destruct v; try discriminate. intros [= <-]. eauto. Qed.

Lemma has_key_insert_ne k key x m :
  k <> key -> has_key k (JObj (<[key := x]> m)) = has_key k (JObj m).
Proof. intros Hne. simpl. by rewrite lookup_insert_ne. Qed.

Lemma has_key_insert_present k key x y m :
  m !! key = Some y -> has_key k (JObj (<[key := x]> m)) = has_key k (JObj m).
Proof.
  intros Hy. destruct (decide (k = key)) as [->|Hne].
  - simpl. rewrite lookup_insert_eq, Hy. by rewrite !bool_decide_eq_true_2 by eauto.
  - by apply has_key_insert_ne.
Qed.

(** The shape of a configuration that an assignment to a field went
    through. *)
Lemma set_field_Returns section key field_name value cfg cfg' :
  set_field section key field_name value cfg = Returns cfg' ->
  exists c p item,
    cfg = JObj c /\ c !! section = Some (JObj p) /\ p !! key = Some (JObj item)
    /\ cfg' = JObj (<[section :=
                       JObj (<[key := JObj (<[field_name := JStr value]> item)]> p)]> c).
Proof.
  unfold set_field. intros H.
  apply outcome_bind_Returns in H as (sec & Hsec & H).
  apply outcome_bind_Returns in H as (item & Hitem & H).
  apply outcome_bind_Returns in H as (item' & Hitem' & H).
  apply outcome_bind_Returns in H as (sec' & Hsec' & H).
  apply getitem_Returns in Hsec as (c & -> & Hc).
  apply getitem_Returns in Hitem as (p & -> & Hp).
  apply setitem_Returns in Hitem' as (i & -> & ->).
  injection Hsec' as <-. injection H as <-. by exists c, p, i.
Qed.

Lemma set_enabled_Returns key b cfg cfg' :
  set_enabled key b cfg = Returns cfg' ->
  exists c p item,
    cfg = JObj c /\ c !! "channels" = Some (JObj p) /\ p !! key = Some (JObj item)
    /\ cfg' = JObj (<["channels" :=
                       JObj (<[key := JObj (<["enabled" := JBool b]> item)]> p)]> c).
Proof.
  unfold set_enabled. intros H.
  apply outcome_bind_Returns in H as (sec & Hsec & H).
  apply outcome_bind_Returns in H as (item & Hitem & H).
  apply outcome_bind_Returns in H as (item' & Hitem' & H).
  apply outcome_bind_Returns in H as (sec' & Hsec' & H).
  apply getitem_Returns in Hsec as (c & -> & Hc).
  apply getitem_Returns in Hitem as (p & -> & Hp).
  apply setitem_Returns in Hitem' as (i & -> & ->).
  injection Hsec' as <-. injection H as <-. by exists c, p, i.
Qed.

Lemma ensure_item_Returns section key cfg cfg' :
  ensure_item section key cfg = Returns cfg' ->
  exists c sec,
    cfg = JObj c /\ c !! section = Some sec
    /\ ((has_key key sec = Returns true /\ cfg' = cfg)
        \/ (exists p, sec = JObj p /\ p !! key = None
              /\ cfg' = JObj (<[section := JObj (<[key := JObj ∅]> p)]> c))).
Proof.
  unfold ensure_item. intros H.
  apply outcome_bind_Returns in H as (sec & Hsec & H).
  apply outcome_bind_Returns in H as (present & Hpresent & H).
  apply getitem_Returns in Hsec as (c & -> & Hc).
  exists c, sec. split_and!; [done..|]. destruct present.
  - left. by injection H as <-.
  - right. apply outcome_bind_Returns in H as (sec' & Hsec' & H).
    apply setitem_Returns in Hsec' as (p & -> & ->). injection H as <-.
    exists p. split_and!; [done| |done].
    simpl in Hpresent. injection Hpresent as Hp.
    apply bool_decide_eq_false in Hp. by apply eq_None_not_Some.
Qed.

Lemma agree_outside_refl keys sec : agree_outside keys sec sec.
Proof. by intros k _. Qed.

Lemma agree_outside_trans keys a b d :
  agree_outside keys a b -> agree_outside keys b d -> agree_outside keys a d.
Proof.
  intros Hab Hbd k Hk. destruct (Hbd k Hk) as [-> ->]. by apply Hab.
Qed.

Lemma agree_outside_mono keys keys' a b :
  keys ⊆ keys' -> agree_outside keys a b -> agree_outside keys' a b.
Proof. intros Hsub Hab k Hk. apply Hab. intros Hin. by apply Hk, Hsub. Qed.

Lemma agree_outside_one key a b k :
  agree_outside [key] a b -> k <> key ->
  has_key k b = has_key k a /\ getitem b k = getitem a k.
Proof.
  intros Hab Hne. apply Hab, not_elem_of_cons. split; [done|apply not_elem_of_nil].
Qed.

Lemma agree_outside_insert key x p :
  agree_outside [key] (JObj p) (JObj (<[key := x]> p)).
Proof.
  intros k Hk%not_elem_of_cons. destruct Hk as [Hk _]. simpl.
  by rewrite lookup_insert_ne.
Qed.

Lemma agree_outside_delete key p :
  agree_outside [key] (JObj p) (JObj (delete key p)).
Proof.
  intros k Hk%not_elem_of_cons. destruct Hk as [Hk _]. simpl.
  by rewrite lookup_delete_ne.
Qed.

(** Copying the fields of a key changes the item of that key only, and
    adds no item. *)
Lemma copy_fields_frame section prefix key ps c sec cfg' :
  c !! section = Some sec ->
  copy_fields section prefix key ps (JObj c) = Returns cfg' ->
  exists sec',
    cfg' = JObj (<[section := sec']> c)
    /\ agree_outside [key] sec sec'
    /\ has_key key sec' = has_key key sec.
Proof.
  revert c sec. induction ps as [|[p_key p_val] ps IH]; intros c sec Hc; simpl.
  - intros [= <-]. exists sec. rewrite insert_id by done.
    split_and!; [done|apply agree_outside_refl|done].
  - destruct (String.prefix prefix p_key); [|by apply IH].
    intros H. apply outcome_bind_Returns in H as (value & _ & H).
    apply outcome_bind_Returns in H as (cfg1 & Hset & H).
    apply set_field_Returns in Hset as (c0 & p & item & [= <-] & Hc0 & Hp & ->).
    rewrite Hc in Hc0. injection Hc0 as ->.
    apply IH with (sec := JObj (<[key := JObj (<[remove_all prefix p_key := JStr value]> item)]> p))
      in H as (sec' & -> & Hagree & Hkey); [|by rewrite lookup_insert_eq].
    exists sec'. rewrite insert_insert_eq. split_and!; [done| |].
    + intros k Hk. destruct (Hagree k Hk) as [-> ->].
      by apply agree_outside_insert.
    + rewrite Hkey. by apply has_key_insert_present with (y := JObj item).
Qed.

(** The fields of the item after the copy: a field that no parameter
    names is the one the item had. *)
Lemma copy_fields_item section prefix key ps c p item cfg' :
  c !! section = Some (JObj p) -> p !! key = Some (JObj item) ->
  copy_fields section prefix key ps (JObj c) = Returns cfg' ->
  exists item',
    cfg' = JObj (<[section := JObj (<[key := JObj item']> p)]> c)
    /\ forall field_name,
         (forall p_key p_val, (p_key, p_val) ∈ ps ->
            String.prefix prefix p_key = true ->
            remove_all prefix p_key <> field_name) ->
         item' !! field_name = item !! field_name.
Proof.
  revert c p item. induction ps as [|[p_key p_val] ps IH]; intros c p item Hc Hp; simpl.
  - intros [= <-]. exists item. rewrite (insert_id p key) by done.
    by rewrite insert_id.
  - destruct (String.prefix prefix p_key) eqn:Hpre.
    + intros H. apply outcome_bind_Returns in H as (value & _ & H).
      apply outcome_bind_Returns in H as (cfg1 & Hset & H).
      apply set_field_Returns in Hset as (c0 & p0 & item0 & [= <-] & Hc0 & Hp0 & ->).
      rewrite Hc in Hc0. injection Hc0 as <-.
      rewrite Hp in Hp0. injection Hp0 as <-.
      eapply IH in H as (item' & -> & Hitem');
        [|by rewrite lookup_insert_eq|by rewrite lookup_insert_eq].
      exists item'. rewrite !insert_insert_eq. split; [done|].
      intros f Hf. rewrite Hitem'.
      * rewrite lookup_insert_ne; [done|]. apply (Hf p_key p_val); [left|done].
      * intros q qv Hq. apply (Hf q qv). by right.
    + intros H. eapply IH in H as (item' & -> & Hitem'); [|done..].
      exists item'. split; [done|]. intros f Hf. apply Hitem'.
      intros q qv Hq. apply (Hf q qv). by right.
Qed.

(** Of the parameters that name a field, the last one gives its value. *)
Lemma copy_fields_last section prefix key ps1 p_key value values ps2 c p item cfg' :
  c !! section = Some (JObj p) -> p !! key = Some (JObj item) ->
  String.prefix prefix p_key = true ->
  (forall q_key q_val, (q_key, q_val) ∈ ps2 ->
     String.prefix prefix q_key = true ->
     remove_all prefix q_key <> remove_all prefix p_key) ->
  copy_fields section prefix key (ps1 ++ (p_key, value :: values) :: ps2) (JObj c)
  = Returns cfg' ->
  field_of section key (remove_all prefix p_key) cfg' = Returns (JStr value).
Proof.
  intros Hc Hp Hpre Hlast. revert c p item Hc Hp.
  induction ps1 as [|[q_key q_val] ps1 IH]; intros c p item Hc Hp; simpl.
  - rewrite Hpre. simpl. intros H.
    apply outcome_bind_Returns in H as (cfg1 & Hset & H).
    apply set_field_Returns in Hset as (c0 & p0 & item0 & [= <-] & Hc0 & Hp0 & ->).
    eapply copy_fields_item in H as (item' & -> & Hitem');
      [|by rewrite lookup_insert_eq|by rewrite lookup_insert_eq].
    unfold field_of, item_of. simpl. rewrite lookup_insert_eq. simpl.
    rewrite lookup_insert_eq. simpl. rewrite (Hitem' _ Hlast), lookup_insert_eq. done.
  - destruct (String.prefix prefix q_key).
    + intros H. apply outcome_bind_Returns in H as (v & _ & H).
      apply outcome_bind_Returns in H as (cfg1 & Hset & H).
      apply set_field_Returns in Hset as (c0 & p0 & item0 & [= <-] & Hc0 & Hp0 & ->).
      eapply IH in H; [done|by rewrite lookup_insert_eq|by rewrite lookup_insert_eq].
    + intros H. by eapply IH in H.
Qed.

Lemma insert_section_inj section (a b : json) c :
  JObj (<[section := a]> c) = JObj (<[section := b]> c) -> a = b.
Proof.
  intros [= H]. apply (f_equal (fun m => m !! section)) in H.
  rewrite !lookup_insert_eq in H. by injection H.
Qed.

(** A copy that returns after it met a parameter with the prefix found
    an object under the key. *)
Lemma copy_fields_shape section prefix key ps c cfg' p_key p_val :
  copy_fields section prefix key ps (JObj c) = Returns cfg' ->
  (p_key, p_val) ∈ ps -> String.prefix prefix p_key = true ->
  exists p item, c !! section = Some (JObj p) /\ p !! key = Some (JObj item).
Proof.
  induction ps as [|[q_key q_val] ps IH]; simpl; [by intros _ ?%elem_of_nil|].
  destruct (String.prefix prefix q_key) eqn:Hq.
  - intros H _ _. apply outcome_bind_Returns in H as (value & _ & H).
    apply outcome_bind_Returns in H as (cfg1 & Hset & H).
    apply set_field_Returns in Hset as (c0 & p & item & [= <-] & Hc0 & Hp & ->).
    by exists p, item.
  - intros H [[= <- <-]|Hin]%elem_of_cons Hpre; [congruence|]. by apply IH.
Qed.

Lemma copy_fields_post section prefix key ps c sec cfg' :
  c !! section = Some sec ->
  copy_fields section prefix key ps (JObj c) = Returns cfg' ->
  exists sec',
    cfg' = JObj (<[section := sec']> c)
    /\ agree_outside [key] sec sec'
    /\ has_key key sec' = has_key key sec
    /\ (forall field_name value,
          field_last prefix ps field_name value ->
          item_field sec' key field_name = Returns (JStr value))
    /\ (forall item,
          getitem sec key = Returns (JObj item) ->
          exists item',
            getitem sec' key = Returns (JObj item')
            /\ forall field_name,
                 ~ names_field prefix ps field_name ->
                 item' !! field_name = item !! field_name).
Proof.
  intros Hc H.
  destruct (copy_fields_frame _ _ _ _ _ _ _ Hc H) as (sec' & -> & Hagree & Hkey).
  exists sec'. split_and!; [done..| |].
  - intros f v (ps1 & p_key & values & ps2 & -> & Hpre & <- & Hlast).
    destruct (copy_fields_shape _ _ _ _ _ _ p_key (v :: values) H)
      as (p & item & Hp & Hitem); [|done|].
    { apply elem_of_app. right. by left. }
    eapply copy_fields_last in H; [|done..|].
    + unfold field_of, item_of in H. simpl in H. by rewrite lookup_insert_eq in H.
    + intros q_key q_val Hq Hqpre Heq. apply Hlast. by exists q_key, q_val.
  - intros item Hitem. apply getitem_Returns in Hitem as (p & -> & Hp).
    destruct (copy_fields_item _ _ _ _ _ _ _ _ Hc Hp H) as (item' & Heq & Hfields).
    apply insert_section_inj in Heq as ->. exists item'. split.
    + simpl. by rewrite lookup_insert_eq.
    + intros f Hf. apply Hfields. intros p_key p_val Hin Hpre Heq.
      apply Hf. by exists p_key, p_val.
Qed.

Lemma provider_step_spec ps c sec key cfg' :
  c !! "providers" = Some sec ->
  provider_step ps (JObj c) key = Returns cfg' ->
  exists sec',
    cfg' = JObj (<["providers" := sec']> c)
    /\ agree_outside [key] sec sec' /\ provider_post ps key sec sec'.
Proof.
  intros Hc. unfold provider_step, provider_post.
  destruct (has_param ("enable_prov_" +:+ key) ps) eqn:He.
  - intros H. apply outcome_bind_Returns in H as (cfg1 & Hens & H).
    apply ensure_item_Returns in Hens as (c0 & sec0 & [= <-] & Hc0 & Hens).
    rewrite Hc in Hc0. injection Hc0 as <-.
    destruct Hens as [[Hkey ->]|(p & -> & Hp & ->)].
    + destruct (copy_fields_post _ _ _ _ _ _ _ Hc H)
        as (sec' & -> & Hagree & Hkey' & Hlast & Hkept).
      exists sec'. split_and!; [done..|by rewrite Hkey'|]. intros _. split; [done|].
      intros item f Hitem Hf. destruct (Hkept item Hitem) as (item' & Hitem' & Hfields).
      unfold item_field. rewrite Hitem'. simpl. by rewrite (Hfields f Hf).
    + apply copy_fields_post with (sec := JObj (<[key := JObj ∅]> p)) in H
        as (sec' & -> & Hagree & Hkey' & Hlast & Hkept); [|by rewrite lookup_insert_eq].
      exists sec'. rewrite insert_insert_eq. split_and!; [done| | |].
      * apply (agree_outside_trans _ _ (JObj (<[key := JObj ∅]> p))); [|done].
        apply agree_outside_insert.
      * rewrite Hkey'. simpl. rewrite lookup_insert_eq.
        by rewrite bool_decide_eq_true_2 by eauto.
      * intros _. split; [done|]. intros item f Hitem. simpl in Hitem.
        by rewrite Hp in Hitem.
  - simpl. rewrite Hc. simpl. destruct sec as [| | | |s|l|p]; simpl; try discriminate.
    + destruct (contains key s) eqn:Hk; [discriminate|]. intros [= <-].
      exists (JStr s). rewrite insert_id by done.
      split_and!; [done|apply agree_outside_refl|by simpl; rewrite Hk|done].
    + destruct (existsb (is_str key) l) eqn:Hk; [discriminate|]. intros [= <-].
      exists (JList l). rewrite insert_id by done.
      split_and!; [done|apply agree_outside_refl|by simpl; rewrite Hk|done].
    + destruct (p !! key) as [x|] eqn:Hk.
      * rewrite bool_decide_eq_true_2 by eauto. simpl.
        intros [= <-]. exists (JObj (delete key p)).
        split_and!; [done|apply agree_outside_delete| |done].
        simpl. rewrite lookup_delete_eq. by rewrite bool_decide_eq_false_2 by (by intros [? ?]).
      * rewrite bool_decide_eq_false_2 by (by intros [? ?]). intros [= <-].
        exists (JObj p). rewrite insert_id by done.
        split_and!; [done|apply agree_outside_refl| |done].
        simpl. rewrite Hk. by rewrite bool_decide_eq_false_2 by (by intros [? ?]).
Qed.

Lemma provider_post_local ps key a a' b b' :
  has_key key a' = has_key key a -> getitem a' key = getitem a key ->
  has_key key b' = has_key key b -> getitem b' key = getitem b key ->
  provider_post ps key a b -> provider_post ps key a' b'.
Proof.
  unfold provider_post, item_field. intros Ha1 Ha2 Hb1 Hb2. by rewrite Ha2, Hb1, Hb2.
Qed.

Lemma channel_step_spec ps c sec key cfg' :
  c !! "channels" = Some sec ->
  channel_step ps (JObj c) key = Returns cfg' ->
  exists sec',
    cfg' = JObj (<["channels" := sec']> c)
    /\ agree_outside [key] sec sec' /\ channel_post ps key sec sec'.
Proof.
  intros Hc. unfold channel_step, channel_post.
  destruct (has_param ("enable_" +:+ key) ps) eqn:He.
  - intros H. apply outcome_bind_Returns in H as (cfg1 & Hens & H).
    apply outcome_bind_Returns in H as (cfg2 & Hset & H).
    apply ensure_item_Returns in Hens as (c0 & sec0 & [= <-] & Hc0 & Hens).
    rewrite Hc in Hc0. injection Hc0 as <-.
    apply set_enabled_Returns in Hset as (c1 & p1 & item1 & Hcfg1 & Hc1 & Hp1 & ->).
    assert (exists item,
              (getitem sec key = Returns (JObj item)
               \/ (has_key key sec = Returns false /\ item = ∅))
              /\ agree_outside [key] sec (JObj p1)
              /\ item1 = item
              /\ <["channels" := JObj p1]> c = c1) as (item & Hitem & Hagree & -> & Hc1').
    { destruct Hens as [[Hkey ->]|(p & -> & Hp & ->)]; injection Hcfg1 as <-.
      - rewrite Hc in Hc1. injection Hc1 as ->. exists item1. split_and!.
        + left. simpl. by rewrite Hp1.
        + apply agree_outside_refl.
        + done.
        + by rewrite insert_id.
      - rewrite lookup_insert_eq in Hc1. injection Hc1 as <-.
        rewrite lookup_insert_eq in Hp1. injection Hp1 as <-.
        exists ∅. split_and!.
        + right. split; [|done]. simpl. rewrite Hp.
          by rewrite bool_decide_eq_false_2 by (by intros [? ?]).
        + apply agree_outside_insert.
        + done.
        + done. }
    subst c1.
    eapply copy_fields_post in H
      as (sec' & -> & Hagree' & Hkey' & Hlast & Hkept); [|by rewrite lookup_insert_eq].
    destruct (Hkept (<["enabled" := JBool true]> item)) as (item' & Hitem' & Hfields).
    { simpl. by rewrite lookup_insert_eq. }
    exists sec'. rewrite !insert_insert_eq. split_and!; [done| |].
    + apply (agree_outside_trans _ _ (JObj p1)); [done|].
      apply (agree_outside_trans _ _ (JObj (<[key := JObj (<["enabled" := JBool true]> item)]> p1)));
        [apply agree_outside_insert|done].
    + exists item, item'. split_and!; [done..| |done].
      intros f v Hf. specialize (Hlast f v Hf). unfold item_field in Hlast.
      rewrite Hitem' in Hlast. simpl in Hlast.
      destruct (item' !! f); [by injection Hlast as ->|done].
  - simpl. rewrite Hc. simpl. intros H.
    apply outcome_bind_Returns in H as (present & Hpresent & H). destruct present.
    + apply set_enabled_Returns in H as (c1 & p & item & [= <-] & Hc1 & Hp & ->).
      rewrite Hc in Hc1. injection Hc1 as ->.
      exists (JObj (<[key := JObj (<["enabled" := JBool false]> item)]> p)).
      split_and!; [done|apply agree_outside_insert|].
      right. exists item. simpl. by rewrite Hp, lookup_insert_eq.
    + injection H as <-. exists sec. rewrite insert_id by done.
      split_and!; [done|apply agree_outside_refl|]. by left.
Qed.

Lemma channel_post_local ps key a a' b b' :
  has_key key a' = has_key key a -> getitem a' key = getitem a key ->
  has_key key b' = has_key key b -> getitem b' key = getitem b key ->
  channel_post ps key a b -> channel_post ps key a' b'.
Proof.
  unfold channel_post. intros Ha1 Ha2 Hb1 Hb2. by rewrite Ha1, Ha2, Hb1, Hb2.
Qed.

Section Loop.

Variables (section : string) (step : json -> string -> outcome json).
Variable Q : string -> json -> json -> Prop.

Hypothesis step_spec : forall c sec key cfg',
  c !! section = Some sec -> step (JObj c) key = Returns cfg' ->
  exists sec',
    cfg' = JObj (<[section := sec']> c)
    /\ agree_outside [key] sec sec' /\ Q key sec sec'.

Hypothesis Q_local : forall key a a' b b',
  has_key key a' = has_key key a -> getitem a' key = getitem a key ->
  has_key key b' = has_key key b -> getitem b' key = getitem b key ->
  Q key a b -> Q key a' b'.

(** The loop over distinct keys: every key gets what its turn leaves,
    and the items of no other key change. *)
Lemma for_each_spec keys c sec cfg' :
  NoDup keys -> c !! section = Some sec ->
  for_each step keys (JObj c) = Returns cfg' ->
  exists sec',
    cfg' = JObj (<[section := sec']> c)
    /\ agree_outside keys sec sec'
    /\ forall key, key ∈ keys -> Q key sec sec'.
Proof.
  intros Hnd. revert c sec. induction Hnd as [|key keys Hkey Hnd IH]; intros c sec Hc; simpl.
  - intros [= <-]. exists sec. rewrite insert_id by done.
    split_and!; [done|apply agree_outside_refl|]. by intros key Hk%elem_of_nil.
  - intros H. apply outcome_bind_Returns in H as (cfg1 & Hstep & H).
    apply step_spec with (sec := sec) in Hstep as (sec1 & -> & Hagree1 & HQ); [|done].
    apply IH with (sec := sec1) in H as (sec' & -> & Hagree & HQs);
      [|by rewrite lookup_insert_eq].
    exists sec'. rewrite insert_insert_eq. split_and!; [done| |].
    + apply (agree_outside_trans _ _ sec1).
      * apply (agree_outside_mono [key]); [|done].
        intros x [->|Hx%elem_of_nil]%elem_of_cons; [by left|done].
      * apply (agree_outside_mono keys); [|done]. intros x Hx. by right.
    + intros k [->|Hk]%elem_of_cons.
      * destruct (Hagree key Hkey) as [Hh Hg].
        by apply (Q_local key sec sec sec1 sec').
      * assert (k <> key) as Hne by (intros ->; done).
        destruct (agree_outside_one _ _ _ k Hagree1 Hne) as [Hh Hg].
        apply (Q_local k sec1 sec sec' sec'); [done..|]. by apply HQs.
Qed.

End Loop.

Lemma NoDup_available_providers : NoDup available_providers.
Proof. by apply (bool_decide_unpack _). Qed.

Lemma NoDup_available_integrations : NoDup available_integrations.
Proof. by apply (bool_decide_unpack _). Qed.

Lemma ensure_section_object section c :
  ensure_section section (JObj c)
  = Returns (JObj (<[section := default (JObj ∅) (c !! section)]> c)).
Proof.
  unfold ensure_section. simpl. destruct (c !! section) as [sec|] eqn:Hc; simpl.
  - by rewrite insert_id.
  - done.
Qed.

Lemma ensure_section_shape section cfg c0 :
  ensure_section section cfg = Returns (JObj c0) -> exists c, cfg = JObj c.
Proof.
  unfold ensure_section. destruct cfg as [| | | |s|l|c]; simpl; try discriminate.
  - by destruct (contains section s).
  - by destruct (existsb (is_str section) l).
  - eauto.
Qed.

Lemma provider_step_object ps cfg key cfg' :
  provider_step ps cfg key = Returns cfg' -> exists c, cfg = JObj c.
Proof.
  unfold provider_step. destruct (has_param _ ps); intros H;
    apply outcome_bind_Returns in H as (x & Hx & _).
  - apply ensure_item_Returns in Hx as (c & _ & -> & _). eauto.
  - apply getitem_Returns in Hx as (c & -> & _). eauto.
Qed.

Lemma channel_step_object ps cfg key cfg' :
  channel_step ps cfg key = Returns cfg' -> exists c, cfg = JObj c.
Proof.
  unfold channel_step. destruct (has_param _ ps); intros H;
    apply outcome_bind_Returns in H as (x & Hx & _).
  - apply ensure_item_Returns in Hx as (c & _ & -> & _). eauto.
  - apply getitem_Returns in Hx as (c & -> & _). eauto.
Qed.

(** The section that the forms start from: the one of the file, or an
    empty one. *)
Lemma updated_providers_Returns ps f cfg' :
  updated_providers ps f = Returns cfg' ->
  exists c sec',
    read_config f = JObj c
    /\ cfg' = JObj (<["providers" := sec']> c)
    /\ agree_outside available_providers (default (JObj ∅) (c !! "providers")) sec'
    /\ forall key, key ∈ available_providers ->
         provider_post ps key (default (JObj ∅) (c !! "providers")) sec'.
Proof.
  unfold updated_providers. intros H.
  apply outcome_bind_Returns in H as (cfg0 & Hens & H).
  assert (exists c0, cfg0 = JObj c0) as [c0 ->].
  { simpl in H. apply outcome_bind_Returns in H as (cfg1 & Hstep & _).
    by apply provider_step_object in Hstep. }
  destruct (ensure_section_shape _ _ _ Hens) as [c Hc]. rewrite Hc in Hens.
  rewrite ensure_section_object in Hens. injection Hens as <-.
  apply (for_each_spec "providers" (provider_step ps) (provider_post ps))
    with (sec := default (JObj ∅) (c !! "providers")) in H
    as (sec' & -> & Hagree & Hpost).
  - exists c, sec'. by rewrite insert_insert_eq.
  - intros. by apply provider_step_spec.
  - apply provider_post_local.
  - apply NoDup_available_providers.
  - by rewrite lookup_insert_eq.
Qed.

Lemma updated_channels_Returns ps f cfg' :
  updated_channels ps f = Returns cfg' ->
  exists c sec',
    read_config f = JObj c
    /\ cfg' = JObj (<["channels" := sec']> c)
    /\ agree_outside available_integrations (default (JObj ∅) (c !! "channels")) sec'
    /\ forall key, key ∈ available_integrations ->
         channel_post ps key (default (JObj ∅) (c !! "channels")) sec'.
Proof.
  unfold updated_channels. intros H.
  apply outcome_bind_Returns in H as (cfg0 & Hens & H).
  assert (exists c0, cfg0 = JObj c0) as [c0 ->].
  { simpl in H. apply outcome_bind_Returns in H as (cfg1 & Hstep & _).
    by apply channel_step_object in Hstep. }
  destruct (ensure_section_shape _ _ _ Hens) as [c Hc]. rewrite Hc in Hens.
  rewrite ensure_section_object in Hens. injection Hens as <-.
  apply (for_each_spec "channels" (channel_step ps) (channel_post ps))
    with (sec := default (JObj ∅) (c !! "channels")) in H
    as (sec' & -> & Hagree & Hpost).
  - exists c, sec'. by rewrite insert_insert_eq.
  - intros. by apply channel_step_spec.
  - apply channel_post_local.
  - apply NoDup_available_integrations.
  - by rewrite lookup_insert_eq.
Qed.

(** A handler that raised nothing wrote what it computed. *)
Lemma update_providers_None io ps w :
  raised (update_providers io ps w) = None ->
  exists cfg',
    updated_providers ps (config_json w) = Returns cfg'
    /\ after (update_providers io ps w)
       = {| config_json := Json cfg'; skills_json := skills_json w |}.
Proof.
  unfold update_providers. destruct (updated_providers ps (config_json w)) as [cfg'|e];
    [|discriminate].
  destruct io; [|discriminate]. intros _. by exists cfg'.
Qed.

Lemma update_channels_None io ps w :
  raised (update_channels io ps w) = None ->
  exists cfg',
    updated_channels ps (config_json w) = Returns cfg'
    /\ after (update_channels io ps w)
       = {| config_json := Json cfg'; skills_json := skills_json w |}.
Proof.
  unfold update_channels. destruct (updated_channels ps (config_json w)) as [cfg'|e];
    [|discriminate].
  destruct io; [|discriminate]. intros _. by exists cfg'.
Qed.

Lemma section_inv_insert section key item c p :
  c !! section = Some (JObj p) -> map_Forall (fun _ v => is_object v) p ->
  section_inv section (JObj (<[section := JObj (<[key := JObj item]> p)]> c)).
Proof.
  intros Hc Hp. eexists _, _. split_and!; [done|by rewrite lookup_insert_eq|].
  apply map_Forall_insert_2; [by eexists|done].
Qed.

Lemma copy_fields_total section prefix key ps c p item :
  params_ok ps ->
  c !! section = Some (JObj p) -> p !! key = Some (JObj item) ->
  exists cfg', copy_fields section prefix key ps (JObj c) = Returns cfg'.
Proof.
  revert c p item. induction ps as [|[p_key p_val] ps IH]; intros c p item Hok Hc Hp; simpl;
    [by eexists|].
  assert (params_ok ps) as Hok' by (intros q qv Hq; apply (Hok q qv); by right).
  destruct (String.prefix prefix p_key); [|by eapply IH].
  destruct p_val as [|value values]; [by destruct (Hok p_key []); [left|]|]. simpl.
  unfold set_field. simpl. rewrite Hc. simpl. rewrite Hp. simpl.
  eapply IH; [done|by rewrite lookup_insert_eq..].
Qed.

Lemma ensure_item_total section key c p :
  c !! section = Some (JObj p) -> map_Forall (fun _ v => is_object v) p ->
  exists p' item,
    ensure_item section key (JObj c) = Returns (JObj (<[section := JObj p']> c))
    /\ p' !! key = Some (JObj item)
    /\ map_Forall (fun _ v => is_object v) p'.
Proof.
  intros Hc Hall. unfold ensure_item. simpl. rewrite Hc. simpl.
  destruct (p !! key) as [x|] eqn:Hp; simpl.
  - destruct (Hall key x Hp) as [item ->]. exists p, item.
    rewrite (insert_id c) by done. by split_and!.
  - exists (<[key := JObj ∅]> p), ∅. split_and!; [done|by rewrite lookup_insert_eq|].
    apply map_Forall_insert_2; [by eexists|done].
Qed.

Lemma provider_step_total ps cfg key :
  params_ok ps -> section_inv "providers" cfg ->
  exists cfg', provider_step ps cfg key = Returns cfg' /\ section_inv "providers" cfg'.
Proof.
  intros Hok (c & p & -> & Hc & Hall). unfold provider_step.
  destruct (has_param _ ps).
  - destruct (ensure_item_total "providers" key c p Hc Hall) as (p' & item & -> & Hp' & Hall').
    simpl.
    destruct (copy_fields_total "providers" ("prov_" +:+ key +:+ "_") key ps
                (<["providers" := JObj p']> c) p' item Hok) as [cfg' Hcopy];
      [by rewrite lookup_insert_eq|done|].
    exists cfg'. split; [done|].
    eapply copy_fields_item in Hcopy as (item' & -> & _);
      [|by rewrite lookup_insert_eq|done].
    apply section_inv_insert; [by rewrite lookup_insert_eq|done].
  - simpl. rewrite Hc. simpl. destruct (p !! key) as [x|] eqn:Hp; simpl.
    + eexists. split; [done|]. eexists _, _.
      split_and!; [done|by rewrite lookup_insert_eq|]. by apply map_Forall_delete.
    + eexists. split; [done|]. by exists c, p.
Qed.

Lemma channel_step_total ps cfg key :
  params_ok ps -> section_inv "channels" cfg ->
  exists cfg', channel_step ps cfg key = Returns cfg' /\ section_inv "channels" cfg'.
Proof.
  intros Hok (c & p & -> & Hc & Hall). unfold channel_step.
  destruct (has_param _ ps).
  - destruct (ensure_item_total "channels" key c p Hc Hall) as (p' & item & -> & Hp' & Hall').
    simpl. unfold set_enabled. simpl. rewrite lookup_insert_eq. simpl. rewrite Hp'. simpl.
    rewrite insert_insert_eq.
    destruct (copy_fields_total "channels" ("chan_" +:+ key +:+ "_") key ps
                (<["channels" := JObj (<[key := JObj (<["enabled" := JBool true]> item)]> p')]> c)
                (<[key := JObj (<["enabled" := JBool true]> item)]> p')
                (<["enabled" := JBool true]> item) Hok) as [cfg' Hcopy];
      [by rewrite lookup_insert_eq..|].
    exists cfg'. split; [done|].
    eapply copy_fields_item in Hcopy as (item' & -> & _);
      [|by rewrite lookup_insert_eq..].
    apply section_inv_insert; [by rewrite lookup_insert_eq|].
    apply map_Forall_insert_2; [by eexists|done].
  - simpl. rewrite Hc. simpl. destruct (p !! key) as [x|] eqn:Hp; simpl.
    + destruct (Hall key x Hp) as [item ->]. unfold set_enabled. simpl.
      rewrite Hc. simpl. rewrite Hp. simpl. eexists. split; [done|].
      by apply section_inv_insert.
    + eexists. split; [done|]. by exists c, p.
Qed.

Lemma for_each_total (Inv : json -> Prop) step keys cfg :
  (forall cfg key, Inv cfg -> exists cfg', step cfg key = Returns cfg' /\ Inv cfg') ->
  Inv cfg -> exists cfg', for_each step keys cfg = Returns cfg' /\ Inv cfg'.
Proof.
  intros Hstep. revert cfg. induction keys as [|key keys IH]; intros cfg Hinv; simpl.
  - by exists cfg.
  - destruct (Hstep cfg key Hinv) as (cfg1 & -> & Hinv1). simpl. by apply IH.
Qed.

Lemma ensure_section_total section cfg :
  section_ok section cfg ->
  exists cfg0, ensure_section section cfg = Returns cfg0 /\ section_inv section cfg0.
Proof.
  intros (c & -> & Hsec). rewrite ensure_section_object. eexists. split; [done|].
  destruct (c !! section) as [sec|] eqn:Hc; simpl.
  - destruct (Hsec sec) as (p & -> & Hall); [done|].
    exists (<[section := JObj p]> c), p. by rewrite lookup_insert_eq.
  - exists (<[section := JObj ∅]> c), ∅. rewrite lookup_insert_eq.
    split_and!; [done..|]. apply map_Forall_empty.
Qed.

(** X22. After [/update_providers] the providers of the form's list are
    exactly the ones whose box is ticked: a ticked provider has an
    entry, an unticked one has none.  The servers' file is not touched. *)
Theorem update_providers_presence io ps w :
  let r := update_providers io ps w in
  raised r = None ->
  exists cfg' sec',
    config_json (after r) = Json cfg'
    /\ skills_json (after r) = skills_json w
    /\ getitem cfg' "providers" = Returns sec'
    /\ forall key, key ∈ available_providers ->
         has_key key sec' = Returns (has_param ("enable_prov_" +:+ key) ps).
Proof.
  cbv zeta. intros Hr. destruct (update_providers_None _ _ _ Hr) as (cfg' & Hcfg & ->).
  destruct (updated_providers_Returns _ _ _ Hcfg) as (c & sec' & _ & -> & _ & Hpost).
  exists (JObj (<["providers" := sec']> c)), sec'. simpl. rewrite lookup_insert_eq.
  split_and!; [done..|]. intros key Hkey. by destruct (Hpost key Hkey) as [? _].
Qed.

Lemma update_providers_presence_witness :
  let r := update_providers Saved provider_form sample_world in
  exists cfg' sec',
    config_json (after r) = Json cfg'
    /\ skills_json (after r) = skills_json sample_world
    /\ getitem cfg' "providers" = Returns sec'
    /\ forall key, key ∈ available_providers ->
         has_key key sec'
         = Returns (has_param ("enable_prov_" +:+ key) provider_form).
Proof.
  apply (update_providers_presence Saved provider_form sample_world).
  vm_compute; reflexivity.
Defined.

(** X23. [/update_providers] changes nothing but the providers of its
    list: every other key of the configuration and every other provider
    is written back as it was read. *)
Theorem update_providers_frame io ps w :
  let r := update_providers io ps w in
  raised r = None ->
  exists c cfg',
    read_config (config_json w) = JObj c
    /\ config_json (after r) = Json cfg'
    /\ (forall k, k <> "providers" -> getitem cfg' k = getitem (JObj c) k)
    /\ (forall k, k ∉ available_providers ->
          item_of "providers" k cfg'
          = getitem (default (JObj ∅) (c !! "providers")) k).
Proof.
  cbv zeta. intros Hr. destruct (update_providers_None _ _ _ Hr) as (cfg' & Hcfg & ->).
  destruct (updated_providers_Returns _ _ _ Hcfg) as (c & sec' & Hc & -> & Hagree & _).
  exists c, (JObj (<["providers" := sec']> c)). split_and!; [done..| |].
  - intros k Hk. simpl. by rewrite lookup_insert_ne.
  - intros k Hk. unfold item_of. simpl. rewrite lookup_insert_eq. simpl.
    by destruct (Hagree k Hk) as [_ ->].
Qed.

Lemma update_providers_frame_witness :
  let r := update_providers Saved provider_form sample_world in
  exists c cfg',
    read_config (config_json sample_world) = JObj c
    /\ config_json (after r) = Json cfg'
    /\ (forall k, k <> "providers" -> getitem cfg' k = getitem (JObj c) k)
    /\ (forall k, k ∉ available_providers ->
          item_of "providers" k cfg'
          = getitem (default (JObj ∅) (c !! "providers")) k).
Proof.
  apply (update_providers_frame Saved provider_form sample_world).
  vm_compute; reflexivity.
Defined.

(** X24. A ticked provider gets the fields of the form: each field has
    the first value of the last parameter that names it, and a field
    that no parameter names keeps the value it had. *)
Theorem update_providers_fields io ps w key :
  let r := update_providers io ps w in
  raised r = None ->
  key ∈ available_providers ->
  has_param ("enable_prov_" +:+ key) ps = true ->
  exists cfg',
    config_json (after r) = Json cfg'
    /\ (forall field_name value,
          field_last ("prov_" +:+ key +:+ "_") ps field_name value ->
          field_of "providers" key field_name cfg' = Returns (JStr value))
    /\ (forall item field_name,
          item_of "providers" key (read_config (config_json w)) = Returns (JObj item) ->
          ~ names_field ("prov_" +:+ key +:+ "_") ps field_name ->
          field_of "providers" key field_name cfg' = getitem (JObj item) field_name).
Proof.
  cbv zeta. intros Hr Hkey He.
  destruct (update_providers_None _ _ _ Hr) as (cfg' & Hcfg & ->).
  destruct (updated_providers_Returns _ _ _ Hcfg) as (c & sec' & Hc & -> & _ & Hpost).
  destruct (Hpost key Hkey) as [_ Hfields]. destruct (Hfields He) as [Hlast Hkept].
  exists (JObj (<["providers" := sec']> c)). split_and!; [done| |].
  - intros f v Hf. unfold field_of, item_of. simpl. rewrite lookup_insert_eq. simpl.
    by apply Hlast.
  - intros item f Hitem Hf. unfold field_of, item_of. simpl.
    rewrite lookup_insert_eq. simpl. apply (Hkept item f); [|done].
    rewrite Hc in Hitem. unfold item_of in Hitem. simpl in Hitem.
    by destruct (c !! "providers").
Qed.

Lemma update_providers_fields_witness :
  let r := update_providers Saved provider_form sample_world in
  exists cfg',
    config_json (after r) = Json cfg'
    /\ (forall field_name value,
          field_last ("prov_" +:+ "deepseek" +:+ "_") provider_form field_name value ->
          field_of "providers" "deepseek" field_name cfg' = Returns (JStr value))
    /\ (forall item field_name,
          item_of "providers" "deepseek" (read_config (config_json sample_world))
          = Returns (JObj item) ->
          ~ names_field ("prov_" +:+ "deepseek" +:+ "_") provider_form field_name ->
          field_of "providers" "deepseek" field_name cfg'
          = getitem (JObj item) field_name).
Proof.
  apply (update_providers_fields Saved provider_form sample_world "deepseek").
  - vm_compute; reflexivity.
  - by apply (bool_decide_unpack _).
  - vm_compute; reflexivity.
Defined.

(** X25. [/update_channels] removes no channel and changes nothing but
    the channels of its list. *)
Theorem update_channels_keeps io ps w :
  let r := update_channels io ps w in
  raised r = None ->
  exists c cfg' sec',
    read_config (config_json w) = JObj c
    /\ config_json (after r) = Json cfg'
    /\ getitem cfg' "channels" = Returns sec'
    /\ (forall k, k <> "channels" -> getitem cfg' k = getitem (JObj c) k)
    /\ (forall k, has_key k (default (JObj ∅) (c !! "channels")) = Returns true ->
          has_key k sec' = Returns true)
    /\ (forall k, k ∉ available_integrations ->
          getitem sec' k = getitem (default (JObj ∅) (c !! "channels")) k).
Proof.
  cbv zeta. intros Hr. destruct (update_channels_None _ _ _ Hr) as (cfg' & Hcfg & ->).
  destruct (updated_channels_Returns _ _ _ Hcfg) as (c & sec' & Hc & -> & Hagree & Hpost).
  exists c, (JObj (<["channels" := sec']> c)), sec'. simpl. rewrite lookup_insert_eq.
  split_and!; [done..| | |].
  - intros k Hk. by rewrite lookup_insert_ne.
  - intros k Hk. destruct (decide (k ∈ available_integrations)) as [Hin|Hout].
    + specialize (Hpost k Hin). unfold channel_post in Hpost.
      assert (forall x, getitem sec' k = Returns x -> has_key k sec' = Returns true) as Hhas.
      { intros x (p & -> & Hp)%getitem_Returns. simpl.
        by rewrite bool_decide_eq_true_2 by eauto. }
      destruct (has_param _ ps).
      * destruct Hpost as (item & item' & _ & Hitem' & _). by eapply Hhas.
      * destruct Hpost as [[Hno _]|(item & _ & Hitem')]; [congruence|by eapply Hhas].
    + destruct (Hagree k Hout) as [-> _]. done.
  - intros k Hk. by destruct (Hagree k Hk) as [_ ->].
Qed.

Lemma update_channels_keeps_witness :
  let r := update_channels Saved channel_form sample_world in
  exists c cfg' sec',
    read_config (config_json sample_world) = JObj c
    /\ config_json (after r) = Json cfg'
    /\ getitem cfg' "channels" = Returns sec'
    /\ (forall k, k <> "channels" -> getitem cfg' k = getitem (JObj c) k)
    /\ (forall k, has_key k (default (JObj ∅) (c !! "channels")) = Returns true ->
          has_key k sec' = Returns true)
    /\ (forall k, k ∉ available_integrations ->
          getitem sec' k = getitem (default (JObj ∅) (c !! "channels")) k).
Proof.
  apply (update_channels_keeps Saved channel_form sample_world).
  vm_compute; reflexivity.
Defined.

(** X26. A channel of the list whose box is not ticked is kept with all
    its fields and the flag ["enabled"] set to [False]; if there was no
    such channel there is none afterwards. *)
Theorem update_channels_disabled io ps w key :
  let r := update_channels io ps w in
  raised r = None ->
  key ∈ available_integrations ->
  has_param ("enable_" +:+ key) ps = false ->
  exists c cfg' sec',
    read_config (config_json w) = JObj c
    /\ config_json (after r) = Json cfg'
    /\ getitem cfg' "channels" = Returns sec'
    /\ ((has_key key (default (JObj ∅) (c !! "channels")) = Returns false
         /\ has_key key sec' = Returns false)
        \/ (exists item,
              getitem (default (JObj ∅) (c !! "channels")) key = Returns (JObj item)
              /\ getitem sec' key
                 = Returns (JObj (<["enabled" := JBool false]> item)))).
Proof.
  cbv zeta. intros Hr Hkey He.
  destruct (update_channels_None _ _ _ Hr) as (cfg' & Hcfg & ->).
  destruct (updated_channels_Returns _ _ _ Hcfg) as (c & sec' & Hc & -> & _ & Hpost).
  specialize (Hpost key Hkey). unfold channel_post in Hpost. rewrite He in Hpost.
  exists c, (JObj (<["channels" := sec']> c)), sec'. simpl. rewrite lookup_insert_eq.
  by split_and!.
Qed.

Lemma update_channels_disabled_witness :
  let r := update_channels Saved channel_form sample_world in
  exists c cfg' sec',
    read_config (config_json sample_world) = JObj c
    /\ config_json (after r) = Json cfg'
    /\ getitem cfg' "channels" = Returns sec'
    /\ ((has_key "slack" (default (JObj ∅) (c !! "channels")) = Returns false
         /\ has_key "slack" sec' = Returns false)
        \/ (exists item,
              getitem (default (JObj ∅) (c !! "channels")) "slack"
              = Returns (JObj item)
              /\ getitem sec' "slack"
                 = Returns (JObj (<["enabled" := JBool false]> item)))).
Proof.
  apply (update_channels_disabled Saved channel_form sample_world "slack").
  - vm_compute; reflexivity.
  - by apply (bool_decide_unpack _).
  - vm_compute; reflexivity.
Defined.

(** X27. A channel of the list whose box is ticked has an entry
    afterwards, made from the entry it had or from an empty one: the
    flag ["enabled"] is [True], each field of the form has the first
    value of the last parameter that names it, and the other fields are
    kept.  A parameter that names the field ["enabled"] overrides the
    flag. *)
Theorem update_channels_enabled io ps w key :
  let r := update_channels io ps w in
  raised r = None ->
  key ∈ available_integrations ->
  has_param ("enable_" +:+ key) ps = true ->
  exists c cfg' sec' item item',
    read_config (config_json w) = JObj c
    /\ config_json (after r) = Json cfg'
    /\ getitem cfg' "channels" = Returns sec'
    /\ (getitem (default (JObj ∅) (c !! "channels")) key = Returns (JObj item)
        \/ (has_key key (default (JObj ∅) (c !! "channels")) = Returns false
            /\ item = ∅))
    /\ getitem sec' key = Returns (JObj item')
    /\ (forall field_name value,
          field_last ("chan_" +:+ key +:+ "_") ps field_name value ->
          item' !! field_name = Some (JStr value))
    /\ (forall field_name,
          ~ names_field ("chan_" +:+ key +:+ "_") ps field_name ->
          item' !! field_name = <["enabled" := JBool true]> item !! field_name).
Proof.
  cbv zeta. intros Hr Hkey He.
  destruct (update_channels_None _ _ _ Hr) as (cfg' & Hcfg & ->).
  destruct (updated_channels_Returns _ _ _ Hcfg) as (c & sec' & Hc & -> & _ & Hpost).
  specialize (Hpost key Hkey). unfold channel_post in Hpost. rewrite He in Hpost.
  destruct Hpost as (item & item' & Hitem & Hitem' & Hlast & Hkept).
  exists c, (JObj (<["channels" := sec']> c)), sec', item, item'. simpl.
  rewrite lookup_insert_eq. by split_and!.
Qed.

Lemma update_channels_enabled_witness :
  let r := update_channels Saved channel_form sample_world in
  exists c cfg' sec' item item',
    read_config (config_json sample_world) = JObj c
    /\ config_json (after r) = Json cfg'
    /\ getitem cfg' "channels" = Returns sec'
    /\ (getitem (default (JObj ∅) (c !! "channels")) "telegram" = Returns (JObj item)
        \/ (has_key "telegram" (default (JObj ∅) (c !! "channels")) = Returns false
            /\ item = ∅))
    /\ getitem sec' "telegram" = Returns (JObj item')
    /\ (forall field_name value,
          field_last ("chan_" +:+ "telegram" +:+ "_") channel_form field_name value ->
          item' !! field_name = Some (JStr value))
    /\ (forall field_name,
          ~ names_field ("chan_" +:+ "telegram" +:+ "_") channel_form field_name ->
          item' !! field_name = <["enabled" := JBool true]> item !! field_name).
Proof.
  apply (update_channels_enabled Saved channel_form sample_world "telegram").
  - vm_compute; reflexivity.
  - by apply (bool_decide_unpack _).
  - vm_compute; reflexivity.
Defined.

Lemma provider_step_not_object ps cfg key :
  (forall c, cfg <> JObj c) -> provider_step ps cfg key = Throws TypeError.
Proof.
  intros Hobj. unfold provider_step.
  destruct cfg; try (by destruct (has_param _ ps)). by destruct (Hobj m).
Qed.

Lemma channel_step_not_object ps cfg key :
  (forall c, cfg <> JObj c) -> channel_step ps cfg key = Throws TypeError.
Proof.
  intros Hobj. unfold channel_step.
  destruct cfg; try (by destruct (has_param _ ps)). by destruct (Hobj m).
Qed.

Lemma ensure_section_not_object section cfg :
  (forall c, cfg <> JObj c) ->
  ensure_section section cfg = Throws TypeError
  \/ ensure_section section cfg = Returns cfg.
Proof.
  intros Hobj. unfold ensure_section. destruct cfg as [| | | |s|l|c]; simpl; auto.
  - destruct (contains section s); auto.
  - destruct (existsb (is_str section) l); auto.
  - by destruct (Hobj c).
Qed.

Lemma updated_providers_not_object ps v :
  (forall c, v <> JObj c) -> updated_providers ps (Json v) = Throws TypeError.
Proof.
  intros Hobj. unfold updated_providers. change (read_config (Json v)) with v.
  destruct (ensure_section_not_object "providers" v Hobj) as [-> | ->]; [done|].
  change (provider_step ps v "deepseek"
            ≫= for_each (provider_step ps) (tail available_providers)
          = Throws TypeError).
  by rewrite provider_step_not_object.
Qed.

Lemma updated_channels_not_object ps v :
  (forall c, v <> JObj c) -> updated_channels ps (Json v) = Throws TypeError.
Proof.
  intros Hobj. unfold updated_channels. change (read_config (Json v)) with v.
  destruct (ensure_section_not_object "channels" v Hobj) as [-> | ->]; [done|].
  change (channel_step ps v "telegram"
            ≫= for_each (channel_step ps) (tail available_integrations)
          = Throws TypeError).
  by rewrite channel_step_not_object.
Qed.

(** X28. When the configuration file holds JSON that is not an object,
    both forms end in a [TypeError]: nothing is written, nothing is
    published and there is no redirect. *)
Theorem update_forms_need_object io ps w v :
  config_json w = Json v ->
  (forall c, v <> JObj c) ->
  update_providers io ps w = throw TypeError w
  /\ update_channels io ps w = throw TypeError w.
Proof.
  intros Hv Hobj. unfold update_providers, update_channels. rewrite Hv.
  by rewrite updated_providers_not_object, updated_channels_not_object.
Qed.

Lemma update_forms_need_object_witness :
  update_providers Saved provider_form
    {| config_json := Json (JList [JStr "providers"]); skills_json := NoFile |}
  = throw TypeError
      {| config_json := Json (JList [JStr "providers"]); skills_json := NoFile |}
  /\ update_channels Saved provider_form
       {| config_json := Json (JList [JStr "providers"]); skills_json := NoFile |}
     = throw TypeError
         {| config_json := Json (JList [JStr "providers"]); skills_json := NoFile |}.
Proof.
  apply (update_forms_need_object Saved provider_form
           {| config_json := Json (JList [JStr "providers"]); skills_json := NoFile |}
           (JList [JStr "providers"])); [reflexivity | discriminate].
Defined.

Lemma section_inv_ok section cfg : section_inv section cfg -> section_ok section cfg.
Proof.
  intros (c & p & -> & Hc & Hall). exists c. split; [done|].
  intros sec Hsec. rewrite Hc in Hsec. injection Hsec as <-. by exists p.
Qed.

Lemma updated_providers_total ps f :
  section_ok "providers" (read_config f) -> params_ok ps ->
  exists cfg', updated_providers ps f = Returns cfg' /\ section_inv "providers" cfg'.
Proof.
  intros Hsec Hok. unfold updated_providers.
  destruct (ensure_section_total _ _ Hsec) as (cfg0 & -> & Hinv).
  apply (for_each_total (section_inv "providers")); [|done].
  intros. by apply provider_step_total.
Qed.

Lemma updated_channels_total ps f :
  section_ok "channels" (read_config f) -> params_ok ps ->
  exists cfg', updated_channels ps f = Returns cfg' /\ section_inv "channels" cfg'.
Proof.
  intros Hsec Hok. unfold updated_channels.
  destruct (ensure_section_total _ _ Hsec) as (cfg0 & -> & Hinv).
  apply (for_each_total (section_inv "channels")); [|done].
  intros. by apply channel_step_total.
Qed.

(** X29. [/update_providers] goes through, whatever the form, when the
    configuration is an object whose providers, if any, are an object
    of objects, or when the file is missing or is not JSON: the
    configuration is written, the update is published and the browser
    is sent back to the page.  What is written has that shape again. *)
Theorem update_providers_returns ps w :
  section_ok "providers" (read_config (config_json w)) ->
  params_ok ps ->
  let r := update_providers Saved ps w in
  raised r = None
  /\ actions r = [Publish "System" "LLM Providers updated via Web Interface.";
                  Redirect "/"]
  /\ exists cfg', config_json (after r) = Json cfg' /\ section_ok "providers" cfg'.
Proof.
  intros Hsec Hok. cbv zeta. unfold update_providers.
  destruct (updated_providers_total ps _ Hsec Hok) as (cfg' & -> & Hinv).
  split_and!; [done..|]. exists cfg'. split; [done|]. by apply section_inv_ok.
Qed.

Lemma update_providers_returns_witness :
  let r := update_providers Saved provider_form sample_world in
  raised r = None
  /\ actions r = [Publish "System" "LLM Providers updated via Web Interface.";
                  Redirect "/"]
  /\ exists cfg', config_json (after r) = Json cfg' /\ section_ok "providers" cfg'.
Proof.
  apply (update_providers_returns provider_form sample_world).
  - exists (<["providers" :=
               JObj (<["openai" := JObj (<["apiKey" := JStr "sk-old"]> ∅)]>
                       (<["mine" := JObj ∅]> ∅))]>
              (<["channels" :=
                  JObj (<["slack" := JObj (<["token" := JStr "t"]> ∅)]> ∅)]>
                 (<["agents" := JNull]> ∅))).
    split; [reflexivity|]. intros sec Hsec.
    rewrite lookup_insert_eq in Hsec. injection Hsec as <-. eexists. split; [reflexivity|].
    repeat (apply map_Forall_insert_2; [by eexists|]). apply map_Forall_empty.
  - intros p_key p_val Hin. unfold provider_form in Hin.
    repeat (apply elem_of_cons in Hin as [[= _ ->]|Hin]; [discriminate|]).
    by apply elem_of_nil in Hin.
Defined.

(** X30. [/update_channels] goes through, whatever the form, when the
    configuration is an object whose channels, if any, are an object of
    objects, or when the file is missing or is not JSON: the
    configuration is written, the update is published and the browser
    is sent back to the page.  What is written has that shape again. *)
Theorem update_channels_returns ps w :
  section_ok "channels" (read_config (config_json w)) ->
  params_ok ps ->
  let r := update_channels Saved ps w in
  raised r = None
  /\ actions r = [Publish "System" "Channel integrations updated via Web Interface.";
                  Redirect "/"]
  /\ exists cfg', config_json (after r) = Json cfg' /\ section_ok "channels" cfg'.
Proof.
  intros Hsec Hok. cbv zeta. unfold update_channels.
  destruct (updated_channels_total ps _ Hsec Hok) as (cfg' & -> & Hinv).
  split_and!; [done..|]. exists cfg'. split; [done|]. by apply section_inv_ok.
Qed.

Lemma update_channels_returns_witness :
  let r := update_channels Saved channel_form
             {| config_json := NotJson; skills_json := NoFile |} in
  raised r = None
  /\ actions r = [Publish "System" "Channel integrations updated via Web Interface.";
                  Redirect "/"]
  /\ exists cfg', config_json (after r) = Json cfg' /\ section_ok "channels" cfg'.
Proof.
  apply (update_channels_returns channel_form
           {| config_json := NotJson; skills_json := NoFile |}).
  - exists ∅. split; [reflexivity|]. intros sec Hsec. by rewrite lookup_empty in Hsec.
  - intros p_key p_val Hin. unfold channel_form in Hin.
    repeat (apply elem_of_cons in Hin as [[= _ ->]|Hin]; [discriminate|]).
    by apply elem_of_nil in Hin.
Defined.

End ConfigForms.
